(** * dotdrop updater: a shallow embedding of [dotdrop/updater.py]

    The development follows the layout of the Python module: the path
    normaliser, the dotfile resolver, the file synchroniser, the recursive
    directory merge and the orchestrating [_update].  Library code the
    module calls ([os.path], [shutil], [filecmp], the logger, the template
    engine, [dotdrop.utils]) is modelled in the first half of the file. *)

From Stdlib Require Import String Ascii List Bool Arith Lia DecimalString Permutation.
Import ListNotations.
Open Scope string_scope.
Open Scope list_scope.

Set Implicit Arguments.
Set Warnings "-register-all".

(** String concatenation, Python's [+] on [str]. *)
Infix "+++" := String.append (right associativity, at level 60).

(** ** Strings as Python uses them *)

Module Str.

Fixpoint startswith (pre s : string) : bool :=
  match pre with
  | EmptyString => true
  | String a pre' =>
      match s with
      | EmptyString => false
      | String b s' => Ascii.eqb a b && startswith pre' s'
      end
  end.

Fixpoint drop (n : nat) (s : string) : string :=
  match n, s with
  | O, _ => s
  | S n', String _ s' => drop n' s'
  | S _, EmptyString => EmptyString
  end.

Fixpoint endswith_char (c : ascii) (s : string) : bool :=
  match s with
  | EmptyString => false
  | String a EmptyString => Ascii.eqb a c
  | String _ s' => endswith_char c s'
  end.

Fixpoint contains_char (c : ascii) (s : string) : bool :=
  match s with
  | EmptyString => false
  | String a s' => Ascii.eqb a c || contains_char c s'
  end.

(** [s.rstrip(c)] *)
Fixpoint rstrip (c : ascii) (s : string) : string :=
  match s with
  | EmptyString => EmptyString
  | String a s' =>
      match rstrip c s' with
      | EmptyString => if Ascii.eqb a c then EmptyString else String a EmptyString
      | r => String a r
      end
  end.

(** [s.split(c)]: the pieces between occurrences of [c]; never empty. *)
Fixpoint split (c : ascii) (s : string) : list string :=
  match s with
  | EmptyString => [EmptyString]
  | String a s' =>
      if Ascii.eqb a c then EmptyString :: split c s'
      else match split c s' with
           | [] => [String a EmptyString]
           | w :: ws => String a w :: ws
           end
  end.

(** The text before and after the first [c], when there is one. *)
Fixpoint break (c : ascii) (s : string) : option (string * string) :=
  match s with
  | EmptyString => None
  | String a s' =>
      if Ascii.eqb a c then Some (EmptyString, s')
      else match break c s' with
           | Some (u, v) => Some (String a u, v)
           | None => None
           end
  end.

(** Python's [x or y] on strings. *)
Definition or_else (s d : string) : string :=
  match s with EmptyString => d | _ => s end.

Definition is_empty (s : string) : bool :=
  match s with EmptyString => true | _ => false end.

End Str.

(** ** [os.path] on POSIX *)

Module OsPath.

Definition sep : string := "/".
Definition sepc : ascii := "/"%char.

(** What the process environment contributes to path expansion. *)
Record environ := {
  HOME : string;                         (* $HOME, or the pwd entry of the uid *)
  getpwnam : string -> option string;    (* home directory of a named user *)
  getenv : string -> option string;      (* os.environ *)
  getcwd : string }.

Definition isabs (p : string) : bool := Str.startswith sep p.

(** [os.path.join(a, b)] *)
Definition join (a b : string) : string :=
  if Str.startswith sep b then b
  else if Str.is_empty a || Str.endswith_char sepc a then a +++ b
  else a +++ sep +++ b.

(** [os.path.expanduser] *)
Definition expanduser (e : environ) (path : string) : string :=
  match path with
  | String "~"%char rest =>
      let '(name, tail) :=
        match Str.break sepc rest with
        | Some (name, after) => (name, String sepc after)
        | None => (rest, EmptyString)
        end in
      let userhome :=
        if Str.is_empty name then Some (HOME e) else getpwnam e name in
      match userhome with
      | None => path
      | Some h => Str.or_else (Str.rstrip sepc h +++ tail) sep
      end
  | _ => path
  end.

(** [os.path.expandvars]: [$name] and [${name}] are replaced when the
    variable is set and left alone otherwise; replaced text is not
    scanned again, and a [${] that is never closed takes the rest of the
    text with it, unchanged. *)
Definition is_word (c : ascii) : bool :=
  let n := nat_of_ascii c in
  (Nat.leb 48 n && Nat.leb n 57) || (Nat.leb 65 n && Nat.leb n 90)
  || (Nat.leb 97 n && Nat.leb n 122) || Nat.eqb n 95.

Inductive scan := Plain | Dollar | Name (acc : string) | Brace (acc : string).

Definition subst (e : environ) (name raw : string) : string :=
  match getenv e name with Some v => v | None => raw end.

Fixpoint expand_scan (e : environ) (st : scan) (s : string) : string :=
  match s with
  | EmptyString =>
      match st with
      | Plain => ""
      | Dollar => "$"
      | Name acc => subst e acc ("$" +++ acc)
      | Brace acc => "${" +++ acc
      end
  | String c s' =>
      match st with
      | Plain =>
          if Ascii.eqb c "$"%char then expand_scan e Dollar s'
          else String c (expand_scan e Plain s')
      | Dollar =>
          if Ascii.eqb c "{"%char then expand_scan e (Brace "") s'
          else if is_word c then expand_scan e (Name (String c "")) s'
          else if Ascii.eqb c "$"%char then String "$"%char (expand_scan e Dollar s')
          else String "$"%char (String c (expand_scan e Plain s'))
      | Name acc =>
          if is_word c then expand_scan e (Name (acc +++ String c "")) s'
          else subst e acc ("$" +++ acc)
               +++ (if Ascii.eqb c "$"%char then expand_scan e Dollar s'
                   else String c (expand_scan e Plain s'))
      | Brace acc =>
          if Ascii.eqb c "}"%char
          then subst e acc ("${" +++ acc +++ "}") +++ expand_scan e Plain s'
          else expand_scan e (Brace (acc +++ String c "")) s'
      end
  end.

Definition expandvars (e : environ) (path : string) : string :=
  if negb (Str.contains_char "$"%char path) then path
  else expand_scan e Plain path.

(** [os.path.normpath] *)
Fixpoint norm_comps (initial_slashes : nat) (new_comps : list string)
         (comps : list string) : list string :=
  match comps with
  | [] => new_comps
  | comp :: rest =>
      if String.eqb comp "" || String.eqb comp "." then
        norm_comps initial_slashes new_comps rest
      else if negb (String.eqb comp "..")
              || (Nat.eqb initial_slashes 0 && Nat.eqb (List.length new_comps) 0)
              || (match rev new_comps with
                  | last :: _ => String.eqb last ".."
                  | [] => false
                  end)
      then norm_comps initial_slashes (new_comps ++ [comp]) rest
      else norm_comps initial_slashes (removelast new_comps) rest
  end.

Fixpoint repeat_sep (n : nat) : string :=
  match n with O => "" | S n' => sep +++ repeat_sep n' end.

Definition normpath (path : string) : string :=
  if Str.is_empty path then "."
  else
    let initial_slashes :=
      if Str.startswith sep path then
        if Str.startswith "//" path && negb (Str.startswith "///" path)
        then 2 else 1
      else 0 in
    let comps := norm_comps initial_slashes [] (Str.split sepc path) in
    let path := String.concat sep comps in
    Str.or_else (repeat_sep initial_slashes +++ path) ".".

(** [os.path.abspath] *)
Definition abspath (e : environ) (path : string) : string :=
  let path := if isabs path then path else join (getcwd e) path in
  normpath path.

End OsPath.

(** ** PathNormalizer: [Updater._normalize] *)

Definition TILD : string := "~".

Definition _normalize (e : OsPath.environ) (path : string) : string :=
  let path := OsPath.expanduser e path in
  let path := OsPath.expandvars e path in
  let path := OsPath.abspath e path in
  let home := OsPath.expanduser e TILD +++ OsPath.sep in
  if Str.startswith home path then
    let path := Str.drop (String.length home) path in
    OsPath.join TILD path
  else path.

(** ** The filesystem

    A tree of directories and regular files.  A file carries its bytes and
    its modification time, the two things [filecmp]'s shallow signature
    looks at.  A path string addresses the tree through its components,
    read from the root: the tree has no links and no entry for the parent
    directory, and the working directory plays no part. *)

Module FS.

Inductive node :=
| File (data : string) (mtime : nat)
| Dir (entries : list (string * node)).

Definition listing := list (string * node).

Fixpoint lookup (x : string) (es : listing) : option node :=
  match es with
  | [] => None
  | (y, n) :: es' => if String.eqb x y then Some n else lookup x es'
  end.

(** Replace the entry named [x], or add it at the end. *)
Fixpoint set (x : string) (n : node) (es : listing) : listing :=
  match es with
  | [] => [(x, n)]
  | (y, m) :: es' => if String.eqb x y then (y, n) :: es' else (y, m) :: set x n es'
  end.

Fixpoint unset (x : string) (es : listing) : listing :=
  match es with
  | [] => []
  | (y, m) :: es' => if String.eqb x y then unset x es' else (y, m) :: unset x es'
  end.

Definition names (es : listing) : list string := map fst es.

Definition is_dir (o : option node) : bool :=
  match o with Some (Dir _) => true | _ => false end.

Definition is_file (o : option node) : bool :=
  match o with Some (File _ _) => true | _ => false end.

Definition is_some (o : option node) : bool :=
  match o with Some _ => true | None => false end.

(** The components of a path: empty and [.] components do not count. *)
Definition comps (p : string) : list string :=
  filter (fun c => negb (String.eqb c "" || String.eqb c "."))
         (Str.split OsPath.sepc p).

Fixpoint get (cs : list string) (n : node) : option node :=
  match cs with
  | [] => Some n
  | c :: cs' =>
      match n with
      | Dir es => match lookup c es with
                  | Some m => get cs' m
                  | None => None
                  end
      | File _ _ => None
      end
  end.

(** Create or replace the node at [cs]; the parent must be a directory. *)
Fixpoint write (cs : list string) (m : node) (n : node) : option node :=
  match cs with
  | [] => Some m
  | c :: cs' =>
      match n with
      | Dir es =>
          match lookup c es with
          | Some k => match write cs' m k with
                      | Some k' => Some (Dir (set c k' es))
                      | None => None
                      end
          | None => match cs' with
                    | [] => Some (Dir (set c m es))
                    | _ => None
                    end
          end
      | File _ _ => None
      end
  end.

(** Delete the node at [cs] with everything below it; it must exist and
    cannot be the root. *)
Fixpoint erase (cs : list string) (n : node) : option node :=
  match cs with
  | [] => None
  | c :: cs' =>
      match n with
      | Dir es =>
          match lookup c es with
          | Some k => match cs' with
                      | [] => Some (Dir (unset c es))
                      | _ => match erase cs' k with
                             | Some k' => Some (Dir (set c k' es))
                             | None => None
                             end
                      end
          | None => None
          end
      | File _ _ => None
      end
  end.

End FS.

Export FS (node, File, Dir).

(** ** Data model *)

(** A write transformation: an external command that reads the deployed
    file and writes a rewritten copy to a temporary path.  [t_run fs src tmp]
    is whether the command succeeded and what, if anything, it left at
    [tmp]. *)
Record transformation := {
  t_key : string;
  t_run : node -> string -> string -> bool * option node }.

Record dotfile := {
  key : string;
  dst : string;
  src : string;
  trans_w : option transformation;
  upignore : list string }.

(** The configuration store, as far as the updater consults it. *)
Record config := {
  get_dotfiles : string -> list dotfile;
  abs_or_rel : string -> string }.

(** The attributes [Updater.__init__] sets. *)
Record Updater := {
  conf : config;
  dotpath : string;
  profile : string;
  variables : list (string * string);
  dry : bool;
  safe : bool;
  iskey : bool;
  debug : bool;
  ignore : list string;
  showpatch : bool }.

(** What a call can raise. *)
Inductive exn :=
| OSError (what : string)       (* IOError is OSError; shutil's errors derive from it *)
| Exception (what : string).

(** Collaborators outside the module: pattern matching, the template
    engine, the person answering prompts, temporary names, the process
    environment. *)
Record externals := {
  fnmatch : string -> string -> bool;       (* fnmatch.fnmatch(name, pattern) *)
  is_template : option node -> bool;        (* Templategen.is_template, on what is at the path *)
  generate : Updater -> option node -> string + exn;
                                            (* Templategen(...).generate: the text, or what it raises *)
  ask_reply : nat -> string -> bool;        (* the answer to the n-th prompt *)
  tmp_name : nat -> string;                 (* the n-th temporary path handed out *)
  os_env : OsPath.environ }.

(** ** Effects: exceptions, observable events, the world *)

Inductive result (A : Type) :=
| Ok (a : A)
| Raise (e : exn).
Arguments Ok {A} a.
Arguments Raise {A} e.

Inductive level := DBG | WARN | ERR | DRY.

(** What a run does that can be observed from outside.  The filesystem
    calls record their arguments and whether they went through. *)
Inductive event :=
| Log (lvl : level) (msg : string)
| Ask (msg : string) (reply : bool)
| Copyfile (src dst : string) (ok : bool)
| Copytree (src dst : string) (ok : bool)
| Remove (path : string) (ok : bool)
| Transform (key src tmp : string) (ok : bool)
| WriteTmp (path : string) (ok : bool).

Record world := {
  fs : node;
  ignores : list string;     (* self.ignores, set by _update *)
  asked : nat;               (* prompts answered so far *)
  clock : nat;
  tmpseq : nat }.

Definition with_fs (w : world) (n : node) : world :=
  {| fs := n; ignores := ignores w; asked := asked w; clock := clock w; tmpseq := tmpseq w |}.

Definition M (A : Type) : Type := world -> result A * world * list event.

Definition ret {A} (a : A) : M A := fun w => (Ok a, w, []).

Definition raise {A} (e : exn) : M A := fun w => (Raise e, w, []).

Definition bind {A B} (m : M A) (f : A -> M B) : M B :=
  fun w =>
    match m w with
    | (Ok a, w1, e1) => let '(r, w2, e2) := f a w1 in (r, w2, e1 ++ e2)
    | (Raise x, w1, e1) => (Raise x, w1, e1)
    end.

Notation "x <- m ;; k" := (bind m (fun x => k))
  (at level 61, m at next level, right associativity).
Notation "m ;;; k" := (bind m (fun _ => k))
  (at level 61, right associativity).

Definition emit (e : event) : M unit := fun w => (Ok tt, w, [e]).

Definition get_world : M world := fun w => (Ok w, w, []).

Definition put_world (w' : world) : M unit := fun _ => (Ok tt, w', []).

(** [if c: body] *)
Definition when (c : bool) (body : M unit) : M unit :=
  if c then body else ret tt.

(** [for x in xs: body(x)]; a [continue] is the body returning early. *)
Definition forM_ {A} (body : A -> M unit) : list A -> M unit :=
  fix loop (xs : list A) : M unit :=
    match xs with
    | [] => ret tt
    | x :: xs' => body x ;;; loop xs'
    end.

(** [try: m except IOError as e: handler(e)] *)
Definition try_except_IOError {A} (m : M A) (handler : string -> M A) : M A :=
  fun w =>
    match m w with
    | (Raise (OSError what), w1, e1) =>
        let '(r, w2, e2) := handler what w1 in (r, w2, e1 ++ e2)
    | other => other
    end.

(** ** Text of the messages *)

Definition dq : string := String (Ascii.ascii_of_nat 34) EmptyString.

(** [x] between double quotes, as the format strings write it. *)
Definition quoted (x : string) : string := dq +++ x +++ dq.

(** [str(list_of_str)] *)
Definition repr_list (xs : list string) : string :=
  "[" +++ String.concat ", " (map (fun x => "'" +++ x +++ "'") xs) +++ "]".

(** [str(dotfile)], [str(trans)]: the objects are shown by their key. *)
Definition str_dotfile (d : dotfile) : string := key d.
Definition str_trans (t : transformation) : string := t_key t.

(** [list(set(xs))]: the distinct elements.  Python fixes no order for
    them; they are kept here in the order of their last occurrence, and
    the updater only asks whether some element matches. *)
Definition list_set (xs : list string) : list string := nodup string_dec xs.

(** ** [filecmp.dircmp] objects

    The object is created from two paths and reads the directories when an
    attribute is first asked for; [listing_error] is the error that read
    raises, if it does.  [subdirs] maps each common directory to the object
    comparing the two of them. *)

Inductive dircmp :=
  Dircmp (left right : string)
         (listing_error : option exn)
         (left_only right_only diff_files funny_files common_funny : list string)
         (subdirs : list (string * dircmp)).

Definition DEFAULT_IGNORES : list string :=
  ["RCS"; "CVS"; "tags"; ".git"; ".hg"; ".bzr"; "_darcs"; "__pycache__"].

Definition hidden (x : string) : bool :=
  existsb (String.eqb x) (["."; ".."] ++ DEFAULT_IGNORES).

(** [list.sort()] by a key that is a string: by code point, keeping the
    order of entries with the same key. *)
Fixpoint insert_by {A} (key : A -> string) (a : A) (l : list A) : list A :=
  match l with
  | [] => [a]
  | b :: l' =>
      if String.leb (key a) (key b) then a :: l else b :: insert_by key a l'
  end.

Definition sorted_by {A} (key : A -> string) (l : list A) : list A :=
  fold_right (insert_by key) [] l.

(** [_filter(os.listdir(d), hide + ignore)], sorted as [phase0] does. *)
Definition visible (es : FS.listing) : list string :=
  sorted_by (fun x => x) (filter (fun x => negb (hidden x)) (FS.names es)).

Definition mem (x : string) (xs : list string) : bool := existsb (String.eqb x) xs.

(** [filecmp.cmp] on two nodes that both exist: regular files only; equal
    signatures (size, mtime) settle it when shallow, different sizes settle
    it too, otherwise the bytes decide.

    [filecmp] keeps the verdict of the bytes in a cache of the process
    ([cmp_with_cache] below), so what it answers is the verdict of the
    bytes only as long as the cache holds no verdict that the files have
    outlived.  [cmp_nodes] is the comparison under that condition: the
    cache held nothing stale when the run began, and no file is rewritten
    under the signature it had at an earlier comparison.  A write stamps
    the file with the clock of the moment, so the second part holds when
    the files written to are older than the clock ([older]); the
    statements on two runs in a row carry that as a premise and are made
    of the comparison with its cache. *)
Definition cmp_nodes (shallow : bool) (a b : node) : bool :=
  match a, b with
  | File d1 m1, File d2 m2 =>
      if shallow && Nat.eqb (String.length d1) (String.length d2) && Nat.eqb m1 m2 then true
      else if negb (Nat.eqb (String.length d1) (String.length d2)) then false
      else String.eqb d1 d2
  | _, _ => false
  end.

(** [filecmp._sig]: regular file or not, size, mtime. *)
Definition signature : Type := (bool * nat * nat)%type.

Definition _sig (n : node) : signature :=
  match n with
  | File d m => (true, String.length d, m)
  | Dir _ => (false, 0, 0)
  end.

Definition sig_eqb (s t : signature) : bool :=
  let '(r1, z1, m1) := s in
  let '(r2, z2, m2) := t in
  Bool.eqb r1 r2 && Nat.eqb z1 z2 && Nat.eqb m1 m2.

(** [filecmp._cache]: verdicts under the two paths and the two signatures. *)
Definition cache_key : Type := (string * string * signature * signature)%type.

Definition verdicts : Type := list (cache_key * bool).

Definition key_eqb (k k' : cache_key) : bool :=
  let '(f1, f2, s1, s2) := k in
  let '(g1, g2, t1, t2) := k' in
  String.eqb f1 g1 && String.eqb f2 g2 && sig_eqb s1 t1 && sig_eqb s2 t2.

Fixpoint cache_get (k : cache_key) (c : verdicts) : option bool :=
  match c with
  | [] => None
  | (k', o) :: c' => if key_eqb k k' then Some o else cache_get k c'
  end.

(** [filecmp._do_cmp]: the bytes. *)
Definition _do_cmp (a b : node) : bool :=
  match a, b with
  | File d1 _, File d2 _ => String.eqb d1 d2
  | _, _ => false
  end.

(** [filecmp.cmp] with its cache: the verdict and the cache afterwards.
    The cache is emptied before an entry is added to more than a hundred. *)
Definition cmp_with_cache (c : verdicts) (f1 f2 : string) (shallow : bool) (a b : node)
  : bool * verdicts :=
  let s1 := _sig a in
  let s2 := _sig b in
  if negb (fst (fst s1)) || negb (fst (fst s2)) then (false, c)
  else if shallow && sig_eqb s1 s2 then (true, c)
  else if negb (Nat.eqb (snd (fst s1)) (snd (fst s2))) then (false, c)
  else
    match cache_get (f1, f2, s1, s2) c with
    | Some outcome => (outcome, c)
    | None =>
        let outcome := _do_cmp a b in
        (outcome, ((f1, f2, s1, s2), outcome) :: (if Nat.ltb 100 (length c) then [] else c))
    end.

Section Dircmp.

Definition both (P : option node -> bool) (L R : FS.listing) (x : string) : bool :=
  P (FS.lookup x L) && P (FS.lookup x R).

Definition common (L R : FS.listing) : list string :=
  filter (fun x => mem x (visible R)) (visible L).

Definition common_files_of (L R : FS.listing) : list string :=
  filter (both FS.is_file L R) (common L R).

Definition same_of (L R : FS.listing) (x : string) : bool :=
  match FS.lookup x L, FS.lookup x R with
  | Some a, Some b => cmp_nodes true a b
  | _, _ => false
  end.

(** The comparison of directory [l] (at path [left]) with a directory
    holding [R] (at path [right]).  Every list is in the order of the
    sorted names, [subdirs] too, whose values [_merge_dirs] walks in the
    order the keys were added.  It is taken when the object is made:
    the passes of [_merge_dirs] write left-only and right-only entries before
    the common files are compared, and common files before the common
    directories are listed, so no attribute is read after an entry it
    depends on was written. *)
Fixpoint dircmp_node (left right : string) (l : node) (R : FS.listing) {struct l} : dircmp :=
  match l with
  | File _ _ =>
      Dircmp left right (Some (OSError ("Not a directory: " +++ left))) [] [] [] [] [] []
  | Dir L =>
      Dircmp left right None
        (filter (fun x => negb (mem x (visible R))) (visible L))
        (filter (fun x => negb (mem x (visible L))) (visible R))
        (filter (fun x => negb (same_of L R x)) (common_files_of L R))
        []
        (filter (fun x => negb (both FS.is_dir L R x) && negb (both FS.is_file L R x))
                (common L R))
        (sorted_by fst
           ((fix subs (es : FS.listing) : list (string * dircmp) :=
               match es with
               | [] => []
               | (x, n) :: es' =>
                   match n, FS.lookup x R with
                   | Dir _, Some (Dir Rx) =>
                       if negb (hidden x) && mem x (visible R)
                       then (x, dircmp_node (OsPath.join left x) (OsPath.join right x) n Rx)
                              :: subs es'
                       else subs es'
                   | _, _ => subs es'
                   end
               end) L))
  end.

End Dircmp.

(** [filecmp.cmpfiles] with the cache, on the common files of a level:
    the names that [cmp] finds different, and the cache afterwards. *)
Fixpoint cmpfiles_with_cache (c : verdicts) (left right : string) (L R : FS.listing)
         (xs : list string) : list string * verdicts :=
  match xs with
  | [] => ([], c)
  | x :: xs' =>
      match FS.lookup x L, FS.lookup x R with
      | Some a, Some b =>
          let '(same, c1) :=
            cmp_with_cache c (OsPath.join left x) (OsPath.join right x) true a b in
          let '(rest, c2) := cmpfiles_with_cache c1 left right L R xs' in
          (if same then rest else x :: rest, c2)
      | _, _ =>
          let '(rest, c2) := cmpfiles_with_cache c left right L R xs' in
          (x :: rest, c2)
      end
  end.

(** The comparisons of the common directories, one after the other in the
    order of [subdirs], each handing its cache to the next. *)
Fixpoint subdirs_in_turn (c : verdicts)
         (todo : list (string * (verdicts -> dircmp * verdicts)))
  : list (string * dircmp) * verdicts :=
  match todo with
  | [] => ([], c)
  | (x, run) :: todo' =>
      let '(d, c1) := run c in
      let '(rest, c2) := subdirs_in_turn c1 todo' in
      ((x, d) :: rest, c2)
  end.

(** [dircmp_node] with the cache of [filecmp]: the files of a level are
    compared first, then the common directories in turn.  As in
    [dircmp_node] every comparison is made when the object is made;
    [dircmp] makes those of a directory when [_merge_dirs] gets to it, and
    none in a directory that is skipped, which leaves the cache with
    fewer verdicts, none of them different. *)
Fixpoint dircmp_node_with_cache (c : verdicts) (left right : string) (l : node)
         (R : FS.listing) {struct l} : dircmp * verdicts :=
  match l with
  | File _ _ =>
      (Dircmp left right (Some (OSError ("Not a directory: " +++ left))) [] [] [] [] [] [], c)
  | Dir L =>
      let '(diff_files, c1) :=
        cmpfiles_with_cache c left right L R (common_files_of L R) in
      let '(subdirs, c2) :=
        subdirs_in_turn c1
          (sorted_by fst
             ((fix subs (es : FS.listing)
                 : list (string * (verdicts -> dircmp * verdicts)) :=
                 match es with
                 | [] => []
                 | (x, n) :: es' =>
                     match n, FS.lookup x R with
                     | Dir _, Some (Dir Rx) =>
                         if negb (hidden x) && mem x (visible R)
                         then (x, fun c' =>
                                    dircmp_node_with_cache
                                      c' (OsPath.join left x) (OsPath.join right x) n Rx)
                                :: subs es'
                         else subs es'
                     | _, _ => subs es'
                     end
                 end) L)) in
      (Dircmp left right None
         (filter (fun x => negb (mem x (visible R))) (visible L))
         (filter (fun x => negb (mem x (visible L))) (visible R))
         diff_files
         []
         (filter (fun x => negb (both FS.is_dir L R x) && negb (both FS.is_file L R x))
                 (common L R))
         subdirs,
       c2)
  end.

(** ** The updater *)

Section Updater.

Variable X : externals.

(** *** Logger *)

Definition log_dbg (msg : string) : M unit := emit (Log DBG msg).
Definition log_warn (msg : string) : M unit := emit (Log WARN msg).
Definition log_err (msg : string) : M unit := emit (Log ERR msg).
Definition log_dry (msg : string) : M unit := emit (Log DRY msg).

Definition log_ask (msg : string) : M bool :=
  fun w =>
    let r := ask_reply X (asked w) msg in
    (Ok r,
     {| fs := fs w; ignores := ignores w; asked := S (asked w);
        clock := clock w; tmpseq := tmpseq w |},
     [Ask msg r]).

(** *** [os.path] queries *)

Definition stat (w : world) (path : string) : option node :=
  FS.get (FS.comps path) (fs w).

Definition lexists (path : string) : M bool :=
  w <- get_world ;; ret (FS.is_some (stat w path)).

Definition path_exists (path : string) : M bool :=
  w <- get_world ;; ret (FS.is_some (stat w path)).

Definition isdir (path : string) : M bool :=
  w <- get_world ;; ret (FS.is_dir (stat w path)).

(** *** [shutil] *)

Definition same_path (a b : string) : bool :=
  if list_eq_dec string_dec (FS.comps a) (FS.comps b) then true else false.

Definition stamp (w : world) (n : node) : world :=
  {| fs := n; ignores := ignores w; asked := asked w;
     clock := S (clock w); tmpseq := tmpseq w |}.

(** [shutil.copyfile(src, dst)]: the bytes of the regular file [src]
    become the content of [dst], with a fresh modification time.  The
    outcome is the new tree, or what the [OSError] says. *)
Definition copyfile_outcome (w : world) (src dst : string) : node + string :=
  match stat w src with
  | Some (File data _) =>
      if same_path src dst then inr "are the same file"
      else match stat w dst with
           | Some (Dir _) => inr "Is a directory"
           | _ =>
               match FS.write (FS.comps dst) (File data (clock w)) (fs w) with
               | Some n => inl n
               | None => inr "No such file or directory"
               end
           end
  | Some (Dir _) => inr "Is a directory"
  | None => inr "No such file or directory"
  end.

Definition copyfile (src dst : string) : M unit :=
  fun w =>
    match copyfile_outcome w src dst with
    | inl n => (Ok tt, stamp w n, [Copyfile src dst true])
    | inr what => (Raise (OSError what), w, [Copyfile src dst false])
    end.

(** [shutil.copytree(src, dst)]: [dst] must not exist; the tree is copied
    with its modification times. *)
Definition copytree_outcome (w : world) (src dst : string) : node + string :=
  match stat w src with
  | Some (Dir es) =>
      match stat w dst with
      | Some _ => inr "File exists"
      | None =>
          match FS.write (FS.comps dst) (Dir es) (fs w) with
          | Some n => inl n
          | None => inr "No such file or directory"
          end
      end
  | Some (File _ _) => inr "Not a directory"
  | None => inr "No such file or directory"
  end.

Definition copytree (src dst : string) : M unit :=
  fun w =>
    match copytree_outcome w src dst with
    | inl n => (Ok tt, with_fs w n, [Copytree src dst true])
    | inr what => (Raise (OSError what), w, [Copytree src dst false])
    end.

(** *** [filecmp] *)

Definition filecmp_cmp (f1 f2 : string) (shallow : bool) : M bool :=
  w <- get_world ;;
  match stat w f1, stat w f2 with
  | Some a, Some b => ret (cmp_nodes shallow a b)
  | _, _ => raise (OSError "No such file or directory")
  end.

(** [filecmp.dircmp(left, right, ignore=None)] *)
Definition filecmp_dircmp (left right : string) : M dircmp :=
  w <- get_world ;;
  match stat w left, stat w right with
  | Some l, Some (Dir R) => ret (dircmp_node left right l R)
  | _, _ =>
      ret (Dircmp left right (Some (OSError "cannot list directory")) [] [] [] [] [] [])
  end.

(** *** [dotdrop.utils] and the template engine *)

(** Modelled from the spec: [utils.must_ignore] is not part of the module;
    the spec has it true when any of the paths matches any pattern of the
    ignore set. *)
Definition must_ignore (paths ignores : list string) : bool :=
  existsb (fun p => existsb (fun i => fnmatch X p i) ignores) paths.

(** Modelled from the spec: [utils.remove], the recursive remove of the
    filesystem utilities; it fails on a path that does not exist. *)
Definition utils_remove (path : string) : M unit :=
  fun w =>
    match FS.erase (FS.comps path) (fs w) with
    | Some n => (Ok tt, with_fs w n, [Remove path true])
    | None => (Raise (OSError ("File not found: " +++ path)), w, [Remove path false])
    end.

(** Modelled from the spec: [utils.get_unique_tmp_name], unique temp-path
    generation; no file is created. *)
Definition get_unique_tmp_name : M string :=
  fun w =>
    (Ok (tmp_name X (tmpseq w)),
     {| fs := fs w; ignores := ignores w; asked := asked w;
        clock := clock w; tmpseq := S (tmpseq w) |},
     []).

(** Modelled from the spec: [utils.write_to_tmpfile], write-string-to-
    temp-file; it returns the path of the file it created. *)
Definition write_to_tmpfile (content : string) : M string :=
  path <- get_unique_tmp_name ;;
  fun w =>
    match FS.write (FS.comps path) (File content (clock w)) (fs w) with
    | Some n => (Ok path, stamp w n, [WriteTmp path true])
    | None => (Raise (OSError "cannot create temporary file"), w, [WriteTmp path false])
    end.

Definition Templategen_is_template (path : string) : M bool :=
  w <- get_world ;; ret (is_template X (stat w path)).

(** [trans.transform(src, tmp)]: run the command; whatever it wrote is at
    [tmp] afterwards. *)
Definition transform (t : transformation) (path tmp : string) : M bool :=
  fun w =>
    let '(ok, out) := t_run t (fs w) path tmp in
    let n := match out with
             | Some o => match FS.write (FS.comps tmp) o (fs w) with
                         | Some n => n
                         | None => fs w
                         end
             | None => fs w
             end in
    (Ok ok, stamp w n, [Transform (t_key t) path tmp ok]).

(** *** [Updater] methods *)

Variable self : Updater.

Definition _ignore (paths : list string) : M bool :=
  w <- get_world ;;
  if must_ignore paths (ignores w) then
    when (debug self) (log_dbg ("ignoring update for " +++ repr_list paths)) ;;;
    ret true
  else ret false.

Definition _normalize_path (path : string) : string := _normalize (os_env X) path.

Definition _get_dotfile_by_key (k : string) : M (option dotfile) :=
  let dotfiles := get_dotfiles (conf self) (profile self) in
  let subs := filter (fun d => String.eqb (key d) k) dotfiles in
  match subs with
  | [] =>
      log_err ("key " +++ quoted k +++ " not found!") ;;;
      ret None
  | d :: rest =>
      if Nat.ltb 1 (length subs) then
        let found := String.concat "," (map src dotfiles) in
        log_err ("multiple dotfiles found: " +++ found) ;;;
        ret None
      else ret (Some d)
  end.

Definition _get_dotfile_by_path (path : string) : M (option dotfile) :=
  let dotfiles := get_dotfiles (conf self) (profile self) in
  let subs := filter (fun d => String.eqb (dst d) path) dotfiles in
  match subs with
  | [] =>
      log_err (quoted path +++ " is not managed!") ;;;
      ret None
  | d :: rest =>
      if Nat.ltb 1 (length subs) then
        let found := String.concat "," (map src dotfiles) in
        log_err ("multiple dotfiles found: " +++ found) ;;;
        ret None
      else ret (Some d)
  end.

Definition _is_template (path : string) : M bool :=
  t <- Templategen_is_template path ;;
  if negb t then ret false
  else
    log_warn (path +++ " uses template, update manually") ;;;
    ret true.

Definition _resolve_template (tpath : string) : M string :=
  w <- get_world ;;
  match generate X self (stat w tpath) with
  | inl content => ret content
  | inr e => raise e
  end.

Definition _show_patch (tpath fpath : string) : M bool :=
  content <- _resolve_template tpath ;;
  tmp <- write_to_tmpfile content ;;
  let cmds := ["diff"; "-u"; tmp; fpath; "|"; "patch"; tpath] in
  log_warn ("try patching with: " +++ quoted (String.concat " " cmds)) ;;;
  ret false.

Definition _overwrite (src dst : string) : M bool :=
  let msg := "Overwrite " +++ quoted dst +++ " with " +++ quoted src +++ "?" in
  if safe self then
    a <- log_ask msg ;;
    if negb a then ret false else ret true
  else ret true.

Definition _confirm_rm_r (directory : string) : M bool :=
  let msg := "Recursively remove " +++ quoted directory +++ "?" in
  if safe self then
    a <- log_ask msg ;;
    if negb a then ret false else ret true
  else ret true.

Definition _handle_file (left right : string) (compare : bool) : M bool :=
  ign <- _ignore [left; right] ;;
  if ign then ret true else
  when (debug self) (log_dbg ("update for file " +++ left +++ " and " +++ right)) ;;;
  tpl <- _is_template right ;;
  if tpl then
    when (debug self) (log_dbg (right +++ " is a template")) ;;;
    (if showpatch self then _show_patch right left ;;; ret tt else ret tt) ;;;
    ret false
  else
  same <- (if compare then filecmp_cmp left right true else ret false) ;;
  if same then
    when (debug self) (log_dbg ("identical files: " +++ left +++ " and " +++ right)) ;;;
    ret true
  else
  ow <- _overwrite left right ;;
  if negb ow then ret false else
  try_except_IOError
    ((if dry self then log_dry ("would cp " +++ left +++ " " +++ right)
      else
        when (debug self) (log_dbg ("cp " +++ left +++ " " +++ right)) ;;;
        copyfile left right) ;;;
     ret true)
    (fun e =>
       log_warn (left +++ " update failed, do manually: " +++ e) ;;;
       ret false).

Fixpoint _merge_dirs (diff : dircmp) : M bool :=
  match diff with
  | Dircmp diff_left diff_right listing_error
           left_only right_only diff_files funny_files common_funny subdirs =>
  let left := diff_left in
  let right := diff_right in
  when (debug self) (log_dbg ("sync dir " +++ left +++ " to " +++ right)) ;;;
  ign <- _ignore [left; right] ;;
  if ign then ret true else
  match listing_error with Some e => raise e | None => ret tt end ;;;

  (* create dirs that don't exist in dotdrop *)
  forM_ (fun toadd =>
    let exist := OsPath.join left toadd in
    d <- isdir exist ;;
    if negb d then ret tt else
    let new := OsPath.join right toadd in
    ign <- _ignore [exist; new] ;;
    if ign then ret tt else
    if dry self then log_dry ("would cp -r " +++ exist +++ " " +++ new) else
    when (debug self) (log_dbg ("cp -r " +++ exist +++ " " +++ new)) ;;;
    copytree exist new) left_only ;;;

  (* remove dirs that don't exist in deployed version *)
  forM_ (fun toremove =>
    let old := OsPath.join right toremove in
    d <- isdir old ;;
    if negb d then ret tt else
    ign <- _ignore [old] ;;
    if ign then ret tt else
    if dry self then log_dry ("would rm -r " +++ old) else
    when (debug self) (log_dbg ("rm -r " +++ old)) ;;;
    c <- _confirm_rm_r old ;;
    if negb c then ret tt else
    utils_remove old) right_only ;;;

  (* sync files that exist in both but are different *)
  let fdiff := diff_files ++ funny_files ++ common_funny in
  forM_ (fun f =>
    let fleft := OsPath.join left f in
    let fright := OsPath.join right f in
    ign <- _ignore [fleft; fright] ;;
    if ign then ret tt else
    if dry self then log_dry ("would cp " +++ fleft +++ " " +++ fright) else
    when (debug self) (log_dbg ("cp " +++ fleft +++ " " +++ fright)) ;;;
    _handle_file fleft fright false ;;; ret tt) fdiff ;;;

  (* copy files that don't exist in dotdrop *)
  forM_ (fun toadd =>
    let exist := OsPath.join left toadd in
    d <- isdir exist ;;
    if d then ret tt else
    let new := OsPath.join right toadd in
    ign <- _ignore [exist; new] ;;
    if ign then ret tt else
    if dry self then log_dry ("would cp " +++ exist +++ " " +++ new) else
    when (debug self) (log_dbg ("cp " +++ exist +++ " " +++ new)) ;;;
    copyfile exist new) left_only ;;;

  (* remove files that don't exist in deployed version *)
  forM_ (fun toremove =>
    let new := OsPath.join right toremove in
    e <- path_exists new ;;
    if negb e then ret tt else
    d <- isdir new ;;
    if d then ret tt else
    ign <- _ignore [new] ;;
    if ign then ret tt else
    if dry self then log_dry ("would rm " +++ new) else
    when (debug self) (log_dbg ("rm " +++ new)) ;;;
    utils_remove new) right_only ;;;

  (* recursively descend into common subdirectories *)
  forM_ (fun sub => let '(_, subdir) := sub in _merge_dirs subdir ;;; ret tt) subdirs ;;;

  ret true
  end.

Definition _handle_dir (left right : string) : M bool :=
  when (debug self) (log_dbg ("handle update for dir " +++ left +++ " to " +++ right)) ;;;
  let left := OsPath.expanduser (os_env X) left in
  let right := OsPath.expanduser (os_env X) right in
  ign <- _ignore [left; right] ;;
  if ign then ret true else
  diff <- filecmp_dircmp left right ;;
  _merge_dirs diff.

Definition _apply_trans_w (path : string) (d : dotfile) (trans : transformation)
  : M (option string) :=
  when (debug self) (log_dbg ("executing write transformation " +++ str_trans trans)) ;;;
  tmp <- get_unique_tmp_name ;;
  ok <- transform trans path tmp ;;
  if negb ok then
    log_err ("transformation " +++ quoted (t_key trans) +++ " failed for " +++ key d) ;;;
    e <- path_exists tmp ;;
    when e (utils_remove tmp) ;;;
    ret None
  else ret (Some tmp).

Definition set_ignores (l : list string) : M unit :=
  fun w =>
    (Ok tt,
     {| fs := fs w; ignores := l; asked := asked w; clock := clock w; tmpseq := tmpseq w |},
     []).

Definition _update (path : string) (d : dotfile) : M bool :=
  set_ignores (list_set (ignore self ++ upignore d)) ;;;
  w <- get_world ;;
  when (debug self) (log_dbg ("ignore pattern(s): " +++ repr_list (ignores w))) ;;;
  let left := OsPath.expanduser (os_env X) path in
  let right := OsPath.join (abs_or_rel (conf self) (dotpath self)) (src d) in
  let right := OsPath.expanduser (os_env X) right in
  ign <- _ignore [left; right] ;;
  if ign then ret true else
  new_path <- match trans_w d with
              | Some trans => _apply_trans_w path d trans
              | None => ret None
              end ;;
  match trans_w d, new_path with
  | Some _, None => ret false
  | _, _ =>
      let left := match new_path with Some p => p | None => left end in
      isd <- isdir left ;;
      r <- (if isd then _handle_dir left right else _handle_file left right true) ;;
      (* clean temporary files *)
      match new_path with
      | Some p => e <- path_exists p ;; when e (utils_remove p)
      | None => ret tt
      end ;;;
      ret r
  end.

Definition update_path (path : string) : M bool :=
  e <- lexists path ;;
  if negb e then
    log_err (quoted path +++ " does not exist!") ;;;
    ret false
  else
  let path := _normalize_path path in
  d <- _get_dotfile_by_path path ;;
  match d with
  | None => ret false
  | Some dotfile =>
      let path := OsPath.expanduser (os_env X) path in
      when (debug self)
           (log_dbg ("updating " +++ str_dotfile dotfile +++ " from path " +++ quoted path)) ;;;
      _update path dotfile
  end.

Definition update_key (k : string) : M bool :=
  d <- _get_dotfile_by_key k ;;
  match d with
  | None => ret false
  | Some dotfile =>
      when (debug self)
           (log_dbg ("updating " +++ str_dotfile dotfile +++ " from key " +++ quoted k)) ;;;
      let path := _normalize_path (dst dotfile) in
      _update path dotfile
  end.

End Updater.

(** ** A concrete machine

    One home directory, one repository and one temporary directory, with
    shell-style patterns and a template marker, to run the updater on. *)

Module Sample.

(** [fnmatch] with [*] and [?]. *)
Fixpoint glob (p : string) : string -> bool :=
  match p with
  | EmptyString => fun s => Str.is_empty s
  | String c p' =>
      if Ascii.eqb c "*"%char then
        fix star (s : string) : bool :=
          glob p' s || match s with EmptyString => false | String _ s' => star s' end
      else fun s =>
        match s with
        | EmptyString => false
        | String d s' => (Ascii.eqb c "?"%char || Ascii.eqb c d) && glob p' s'
        end
  end.

Fixpoint has_marker (s : string) : bool :=
  Str.startswith "{{@@" s
  || match s with EmptyString => false | String _ s' => has_marker s' end.

Definition alice : OsPath.environ :=
  {| OsPath.HOME := "/home/alice";
     OsPath.getpwnam := fun u => if String.eqb u "bob" then Some "/home/bob" else None;
     OsPath.getenv := fun v => if String.eqb v "XDG" then Some "/home/alice/.config" else None;
     OsPath.getcwd := "/home/alice/work" |}.

Definition machine (reply : nat -> string -> bool) : externals :=
  {| fnmatch := fun name pat => glob pat name;
     is_template := fun o => match o with Some (File d _) => has_marker d | _ => false end;
     generate := fun _ o => match o with
                            | Some (File d _) => inl ("rendered " +++ d)
                            | _ => inl ""
                            end;
     ask_reply := reply;
     tmp_name := fun n => "/tmp/dotdrop-" +++ NilEmpty.string_of_uint (Nat.to_uint n);
     os_env := alice |}.

(** The same machine with a template engine that finds no template. *)
Definition unrendered (reply : nat -> string -> bool) : externals :=
  {| fnmatch := fnmatch (machine reply);
     is_template := is_template (machine reply);
     generate := fun _ _ => inr (OSError "template not found");
     ask_reply := reply;
     tmp_name := tmp_name (machine reply);
     os_env := alice |}.

Definition always (b : bool) : nat -> string -> bool := fun _ _ => b.

(** Declines the first prompt and accepts from then on. *)
Definition hesitant : nat -> string -> bool := fun n _ => Nat.ltb 0 n.

Definition disk : node :=
  Dir [("home", Dir [("alice",
          Dir [("app", Dir [("a.txt", File "new a" 5);
                            ("b.txt", File "b" 6);
                            ("sub", Dir [("s.txt", File "s" 1)]);
                            ("fresh", Dir [("secret", File "k" 2)])]);
               (".vimrc", File "set nu" 3);
               (".bashrc", File "alias l=ls" 4)])]);
       ("repo", Dir [("app", Dir [("a.txt", File "old a" 1);
                                  ("c.txt", File "c" 2);
                                  ("sub", Dir [("s.txt", File "s" 1); ("gone", File "g" 1)]);
                                  ("stale", Dir [])]);
                     ("vimrc", File "{{@@ editor @@}}" 1);
                     ("bashrc", File "alias ll=ls" 2)]);
       ("tmp", Dir [])].

Definition w0 : world :=
  {| fs := disk; ignores := []; asked := 0; clock := 10; tmpseq := 0 |}.

(** What [disk] lists under [/home/alice/app] and under [/repo/app]. *)
Definition app_deployed : FS.listing :=
  [("a.txt", File "new a" 5); ("b.txt", File "b" 6);
   ("sub", Dir [("s.txt", File "s" 1)]);
   ("fresh", Dir [("secret", File "k" 2)])].
Definition app_managed : FS.listing :=
  [("a.txt", File "old a" 1); ("c.txt", File "c" 2);
   ("sub", Dir [("s.txt", File "s" 1); ("gone", File "g" 1)]);
   ("stale", Dir [])].

(** A transformation that copies the file as it is, run through a shell
    that expands the home marker. *)
Definition cat : transformation :=
  {| t_key := "cat";
     t_run := fun root src _ =>
                (true, FS.get (FS.comps (OsPath.expanduser alice src)) root) |}.

Definition app : dotfile :=
  {| key := "d_app"; dst := "~/app"; src := "app";
     trans_w := None; upignore := ["*/secret"] |}.
Definition vimrc : dotfile :=
  {| key := "f_vimrc"; dst := "~/.vimrc"; src := "vimrc";
     trans_w := None; upignore := [] |}.
Definition bashrc : dotfile :=
  {| key := "f_bashrc"; dst := "~/.bashrc"; src := "bashrc";
     trans_w := Some cat; upignore := [] |}.
Definition lost : dotfile :=
  {| key := "f_lost"; dst := "~/.bashrc"; src := "missing";
     trans_w := Some cat; upignore := [] |}.
Definition vimrc_old : dotfile :=
  {| key := "f_vimrc"; dst := "~/.vimrc"; src := "vimrc.old";
     trans_w := None; upignore := [] |}.

Definition cfg : config :=
  {| get_dotfiles := fun prof =>
       if String.eqb prof "broken" then [vimrc; vimrc_old; app]
       else [app; vimrc; bashrc];
     abs_or_rel := fun p => p |}.

Definition updater (prof : string) (dry safe showpatch : bool) : Updater :=
  {| conf := cfg; dotpath := "/repo"; profile := prof; variables := [];
     dry := dry; safe := safe; iskey := false; debug := false;
     ignore := []; showpatch := showpatch |}.

End Sample.

(** * Properties *)

(** ** Strings and paths *)

Lemma append_assoc3 (a b c : string) : (a +++ b) +++ c = a +++ (b +++ c).
Proof. induction a as [|x a IH]; simpl; [reflexivity | now rewrite IH]. Qed.

Lemma startswith_app (a b : string) : Str.startswith a (a +++ b) = true.
Proof.
  induction a as [|x a IH]; simpl; [reflexivity|].
  now rewrite Ascii.eqb_refl.
Qed.

Lemma drop_app (a b : string) : Str.drop (String.length a) (a +++ b) = b.
Proof. induction a as [|x a IH]; simpl; [reflexivity | exact IH]. Qed.

Lemma startswith_sep_cons (c : ascii) (q : string) :
  Str.startswith OsPath.sep (String c q) = Ascii.eqb OsPath.sepc c.
Proof. simpl. apply andb_true_r. Qed.

Lemma startswith_sep_head (p : string) :
  Str.startswith OsPath.sep p = true -> exists q, p = String OsPath.sepc q.
Proof.
  destruct p as [|a q]; [discriminate|].
  rewrite startswith_sep_cons. intros H. apply Ascii.eqb_eq in H. subst a. eauto.
Qed.

Lemma expanduser_abs (e : OsPath.environ) (p : string) :
  OsPath.isabs p = true -> OsPath.expanduser e p = p.
Proof.
  intros H. apply startswith_sep_head in H as [q ->]. reflexivity.
Qed.

Lemma or_else_nonempty (a b d : string) :
  Str.or_else (a +++ String OsPath.sepc b) d = a +++ String OsPath.sepc b.
Proof. destruct a; reflexivity. Qed.

Lemma expanduser_tilde_slash (e : OsPath.environ) (rest : string) :
  OsPath.expanduser e (String "~"%char (String OsPath.sepc rest))
  = Str.rstrip OsPath.sepc (OsPath.HOME e) +++ String OsPath.sepc rest.
Proof. unfold OsPath.expanduser. simpl. apply or_else_nonempty. Qed.

Lemma join_tilde (rest : string) :
  Str.startswith OsPath.sep rest = false ->
  OsPath.join "~" rest = String "~"%char (String OsPath.sepc rest).
Proof. intros H. unfold OsPath.join. rewrite H. reflexivity. Qed.

Lemma append_empty_r (a : string) : a +++ "" = a.
Proof. induction a as [|x a IH]; simpl; [reflexivity | now rewrite IH]. Qed.

(** ** PathNormalizer *)

(** The claim of C7 as the spec words it: every absolute path under the
    home directory comes back unchanged from normalising and expanding. *)
Definition roundtrip_for_every_path_under_home : Prop :=
  forall (e : OsPath.environ) (p : string),
    OsPath.isabs p = true ->
    Str.startswith (OsPath.expanduser e TILD +++ OsPath.sep) p = true ->
    OsPath.expanduser e (_normalize e p) = p.

(** C7, counterexample: a path under the home directory that is written
    with a trailing slash (or with [..], [.] or a doubled slash) comes back
    in its normal form, not as it was given: [/home/alice/.config/] returns
    as [/home/alice/.config]. *)
Lemma normalize_roundtrip_counterexample : ~ roundtrip_for_every_path_under_home.
Proof.
  intros H.
  specialize (H Sample.alice "/home/alice/.config/" eq_refl eq_refl).
  vm_compute in H. discriminate H.
Qed.

Example normalize_dotdot :
  OsPath.expanduser Sample.alice (_normalize Sample.alice "/home/alice/a/../b")
  = "/home/alice/b".
Proof. reflexivity. Qed.

(** C7, amended: for a path [home/rest] under the home directory that is
    already in the form [_normalize] computes with (absolute, left alone by
    variable expansion and by [normpath]), normalising and then expanding
    the home marker gives the path back. *)
Theorem normalize_roundtrip (e : OsPath.environ) (rest : string) :
  let p := Str.rstrip OsPath.sepc (OsPath.HOME e) +++ OsPath.sep +++ rest in
  OsPath.isabs p = true ->
  Str.startswith OsPath.sep rest = false ->
  OsPath.expandvars e p = p ->
  OsPath.normpath p = p ->
  OsPath.expanduser e (_normalize e p) = p.
Proof.
  intros p Habs Hrest Hvars Hnorm.
  unfold _normalize.
  rewrite (expanduser_abs e p Habs), Hvars.
  unfold OsPath.abspath. rewrite Habs, Hnorm.
  unfold TILD. cbn [OsPath.expanduser Str.break Str.is_empty].
  subst p. destruct (Str.rstrip OsPath.sepc (OsPath.HOME e)) as [|a h] eqn:Hh.
  - (* the home directory is the root *)
    destruct rest as [|c rest]; [reflexivity|].
    rewrite startswith_sep_cons in Hrest. unfold OsPath.sepc in Hrest.
    cbn -[Ascii.eqb OsPath.join OsPath.expanduser]. rewrite Hrest. reflexivity.
  - rewrite append_empty_r. cbn [Str.or_else].
    rewrite <- (append_assoc3 (String a h) OsPath.sep rest).
    rewrite startswith_app, drop_app.
    rewrite (join_tilde rest Hrest), expanduser_tilde_slash, Hh.
    now rewrite append_assoc3.
Qed.

Lemma normalize_roundtrip_witness :
  OsPath.expanduser Sample.alice (_normalize Sample.alice "/home/alice/.vimrc")
  = "/home/alice/.vimrc".
Proof.
  exact (normalize_roundtrip Sample.alice ".vimrc" eq_refl eq_refl eq_refl eq_refl).
Defined.

(** ** Running monadic code *)

Lemma bind_Ok {A B} (m : M A) (f : A -> M B) w a w1 e1 :
  m w = (Ok a, w1, e1) ->
  bind m f w = (let '(r, w2, e2) := f a w1 in (r, w2, e1 ++ e2)).
Proof. intros H. unfold bind. now rewrite H. Qed.

Lemma bind_Raise {A B} (m : M A) (f : A -> M B) w x w1 e1 :
  m w = (Raise x, w1, e1) -> bind m f w = (Raise x, w1, e1).
Proof. intros H. unfold bind. now rewrite H. Qed.

Lemma bind_ret {A B} (a : A) (f : A -> M B) w : bind (ret a) f w = f a w.
Proof. unfold bind, ret. destruct (f a w) as [[r w2] e2]. reflexivity. Qed.

Lemma bind_get_world {B} (f : world -> M B) w : bind get_world f w = f w w.
Proof. unfold bind, get_world. destruct (f w w) as [[r w2] e2]. reflexivity. Qed.

Lemma bind_emit {B} (e : event) (f : unit -> M B) w :
  bind (emit e) f w = (let '(r, w2, e2) := f tt w in (r, w2, e :: e2)).
Proof. reflexivity. Qed.

Lemma bind_run {A B} (m : M A) (f : A -> M B) w a w1 e1 r w' evs :
  m w = (Ok a, w1, e1) -> bind m f w = (r, w', evs) ->
  exists e2, f a w1 = (r, w', e2) /\ evs = e1 ++ e2.
Proof.
  intros Hm H. rewrite (bind_Ok _ _ _ Hm) in H.
  destruct (f a w1) as [[r2 w2] e2]. inversion H; subst. eauto.
Qed.

(** Advance [H : bind m f w = ...] past [m], whose run [L] describes. *)
Ltac step H L :=
  let e := fresh "e" in
  eapply bind_run in H; [ destruct H as (e & H & ->) | apply L ].

Lemma set_ignores_run l w :
  set_ignores l w
  = (Ok tt, {| fs := fs w; ignores := l; asked := asked w;
               clock := clock w; tmpseq := tmpseq w |}, []).
Proof. reflexivity. Qed.

Lemma when_dbg_run (c : bool) (msg : string) w :
  when c (log_dbg msg) w = (Ok tt, w, if c then [Log DBG msg] else []).
Proof. destruct c; reflexivity. Qed.

(** What the queries return; none of them changes the world. *)

Section Queries.

Variable X : externals.
Variable self : Updater.

Lemma lexists_run path w :
  lexists path w = (Ok (FS.is_some (stat w path)), w, []).
Proof. reflexivity. Qed.

Lemma path_exists_run path w :
  path_exists path w = (Ok (FS.is_some (stat w path)), w, []).
Proof. reflexivity. Qed.

Lemma isdir_run path w : isdir path w = (Ok (FS.is_dir (stat w path)), w, []).
Proof. reflexivity. Qed.

Lemma is_template_run path w :
  Templategen_is_template X path w = (Ok (is_template X (stat w path)), w, []).
Proof. reflexivity. Qed.

Definition ignore_log (paths : list string) (w : world) : list event :=
  if must_ignore X paths (ignores w) && debug self
  then [Log DBG ("ignoring update for " +++ repr_list paths)] else [].

Lemma ignore_run paths w :
  _ignore X self paths w = (Ok (must_ignore X paths (ignores w)), w, ignore_log paths w).
Proof.
  unfold _ignore, ignore_log. rewrite bind_get_world.
  destruct (must_ignore X paths (ignores w)); [|reflexivity].
  destruct (debug self); reflexivity.
Qed.

End Queries.

(** ** DotfileResolver *)

Section Resolver.

Variable X : externals.
Variable self : Updater.

Let dotfiles := get_dotfiles (conf self) (profile self).

(** Lookup by key: the one match is returned, no match is reported as not
    found, several matches are reported with the source paths of all the
    dotfiles of the profile. *)
Lemma get_dotfile_by_key_spec (k : string) (w : world) :
  let subs := filter (fun d => String.eqb (key d) k) dotfiles in
  _get_dotfile_by_key self k w =
  match subs with
  | [] => (Ok None, w, [Log ERR ("key " +++ quoted k +++ " not found!")])
  | [d] => (Ok (Some d), w, [])
  | _ => (Ok None, w,
          [Log ERR ("multiple dotfiles found: " +++ String.concat "," (map src dotfiles))])
  end.
Proof.
  unfold _get_dotfile_by_key. fold dotfiles. cbv zeta.
  destruct (filter _ dotfiles) as [|d [|d' rest]]; reflexivity.
Qed.

Lemma get_dotfile_by_path_spec (path : string) (w : world) :
  let subs := filter (fun d => String.eqb (dst d) path) dotfiles in
  _get_dotfile_by_path self path w =
  match subs with
  | [] => (Ok None, w, [Log ERR (quoted path +++ " is not managed!")])
  | [d] => (Ok (Some d), w, [])
  | _ => (Ok None, w,
          [Log ERR ("multiple dotfiles found: " +++ String.concat "," (map src dotfiles))])
  end.
Proof.
  unfold _get_dotfile_by_path. fold dotfiles. cbv zeta.
  destruct (filter _ dotfiles) as [|d [|d' rest]]; reflexivity.
Qed.

End Resolver.

(** C6: in a profile where two records share the key [f_vimrc] and a third
    has another key, the ambiguity error of the lookup by key lists the
    source paths of all three records, [app] included, although only
    [vimrc] and [vimrc.old] match. *)
Theorem ambiguous_key_lists_every_dotfile :
  let self := Sample.updater "broken" false false false in
  _get_dotfile_by_key self "f_vimrc" Sample.w0
  = (Ok None, Sample.w0, [Log ERR "multiple dotfiles found: vimrc,vimrc.old,app"])
  /\ map src (filter (fun d => String.eqb (key d) "f_vimrc")
                     (get_dotfiles (conf self) (profile self)))
     = ["vimrc"; "vimrc.old"].
Proof. split; reflexivity. Qed.

Example ambiguous_path_lists_every_dotfile :
  _get_dotfile_by_path (Sample.updater "broken" false false false) "~/.vimrc" Sample.w0
  = (Ok None, Sample.w0, [Log ERR "multiple dotfiles found: vimrc,vimrc.old,app"]).
Proof. reflexivity. Qed.

(** ** Updater entry points *)

(** C9: when nothing exists at the path, [update_path] logs the error and
    returns failure; the world is left as it was and nothing else is
    logged, asked or called. *)
Theorem update_path_missing (X : externals) (self : Updater) (path : string) (w : world) :
  stat w path = None ->
  update_path X self path w
  = (Ok false, w, [Log ERR (quoted path +++ " does not exist!")]).
Proof.
  intros H. unfold update_path.
  rewrite (bind_Ok _ _ _ (lexists_run path w)), H. reflexivity.
Qed.

Lemma update_path_missing_witness :
  update_path (Sample.machine (Sample.always true))
              (Sample.updater "main" false true true) "/home/alice/.zshrc" Sample.w0
  = (Ok false, Sample.w0,
     [Log ERR (quoted "/home/alice/.zshrc" +++ " does not exist!")]).
Proof. apply update_path_missing. reflexivity. Defined.

(** ** FileSync *)

(** The calls that change the deployed or the managed tree. *)
Definition sync_call (e : event) : bool :=
  match e with
  | Copyfile _ _ _ | Copytree _ _ _ | Remove _ _ => true
  | _ => false
  end.

(** Every call that writes to the filesystem, temporary files included. *)
Definition fs_call (e : event) : bool :=
  match e with
  | Copyfile _ _ _ | Copytree _ _ _ | Remove _ _ | Transform _ _ _ _ | WriteTmp _ _ => true
  | _ => false
  end.

Ltac run_in H :=
  cbv beta iota zeta delta
    [_handle_file _ignore _is_template Templategen_is_template _show_patch
     _resolve_template _overwrite _confirm_rm_r write_to_tmpfile get_unique_tmp_name
     filecmp_cmp log_ask try_except_IOError copyfile copytree utils_remove
     isdir path_exists lexists set_ignores
     when log_dbg log_warn log_err log_dry emit raise bind get_world ret app negb] in H;
  cbn [fs ignores asked clock tmpseq] in H.

Ltac run :=
  cbv beta iota zeta delta
    [_handle_file _ignore _is_template Templategen_is_template _show_patch
     _resolve_template _overwrite _confirm_rm_r write_to_tmpfile get_unique_tmp_name
     filecmp_cmp log_ask try_except_IOError copyfile copytree utils_remove
     isdir path_exists lexists set_ignores
     when log_dbg log_warn log_err log_dry emit raise bind get_world ret app negb];
  cbn [fs ignores asked clock tmpseq].

(** Closes [Forall P evs] on an explicit list of events when [P] computes. *)
Ltac forall_events :=
  repeat first [ apply Forall_nil | apply Forall_cons; [reflexivity|] ].

Section FileSync.

Variable X : externals.
Variable self : Updater.

Definition template_warning (right : string) : event :=
  Log WARN (right +++ " uses template, update manually").

Definition patch_recipe (tmp left right : string) : event :=
  Log WARN ("try patching with: "
            +++ quoted (String.concat " " ["diff"; "-u"; tmp; left; "|"; "patch"; right])).

(** C1: when the managed file is a template, [_handle_file] makes no copy
    and no removal, whatever the flags are.  An ignored pair ends as
    [True] before the template check, with the world as it was.
    Otherwise the warning is logged, and: without [showpatch] the result
    is failure and the world is as it was; with [showpatch] the template
    is rendered first, and an exception of the engine leaves the call
    with the world as it was; the rendered text is then written to a
    temporary file, and a failure to create it leaves the call as an
    [OSError]; when both went through, the patch recipe is logged and
    the result is failure, the filesystem being the old one with the
    rendered text at the temporary path. *)
Theorem handle_file_template_never_written
        (left right : string) (compare : bool) (w : world) r w' evs :
  is_template X (stat w right) = true ->
  _handle_file X self left right compare w = (r, w', evs) ->
  Forall (fun e => sync_call e = false) evs
  /\ if must_ignore X [left; right] (ignores w)
     then r = Ok true /\ w' = w
     else
       In (template_warning right) evs
       /\ if showpatch self
          then
            let tmp := tmp_name X (tmpseq w) in
            match generate X self (stat w right) with
            | inr e => r = Raise e /\ w' = w
            | inl content =>
                match FS.write (FS.comps tmp) (File content (clock w)) (fs w) with
                | None =>
                    r = Raise (OSError "cannot create temporary file")
                    /\ fs w' = fs w
                    /\ In (WriteTmp tmp false) evs
                | Some n =>
                    r = Ok false
                    /\ fs w' = n
                    /\ In (WriteTmp tmp true) evs
                    /\ In (patch_recipe tmp left right) evs
                end
            end
          else r = Ok false /\ w' = w.
Proof.
  intros Htpl Hrun. unfold template_warning, patch_recipe. cbv zeta.
  run_in Hrun.
  destruct (must_ignore X [left; right] (ignores w)) eqn:Hign.
  { destruct (debug self); run_in Hrun; inversion Hrun; subst;
      (split; [forall_events | split; reflexivity]). }
  destruct (showpatch self) eqn:Hsp.
  - destruct (debug self); run_in Hrun; rewrite Htpl in Hrun; run_in Hrun;
      (destruct (generate X self (stat w right)) as [content|e]; run_in Hrun;
       [ destruct (FS.write _ _ (fs w)) as [n|] eqn:Hwr; run_in Hrun |]);
      inversion Hrun; subst; clear Hrun;
      (split; [forall_events|]); (split; [cbn; tauto|]);
      repeat split; cbn; tauto.
  - destruct (debug self); run_in Hrun; rewrite Htpl in Hrun; run_in Hrun;
      inversion Hrun; subst; clear Hrun;
      (split; [forall_events|]); (split; [cbn; tauto|]);
      split; reflexivity.
Qed.

Definition overwrite_prompt (left right : string) : string :=
  "Overwrite " +++ quoted right +++ " with " +++ quoted left +++ "?".

(** The two files are found different, or are not compared at all. *)
Definition found_different (w : world) (left right : string) (compare : bool) : Prop :=
  compare = true ->
  exists a b, stat w left = Some a /\ stat w right = Some b /\ cmp_nodes true a b = false.

Lemma copyfile_outcome_asked (w : world) (left right : string) :
  copyfile_outcome
    {| fs := fs w; ignores := ignores w; asked := S (asked w);
       clock := clock w; tmpseq := tmpseq w |} left right
  = copyfile_outcome w left right.
Proof. reflexivity. Qed.

Ltac differing Hdiff Hrun :=
  let a := fresh "a" in let b := fresh "b" in
  let Ha := fresh "Ha" in let Hb := fresh "Hb" in let Hc := fresh "Hc" in
  match type of Hrun with
  | context [if ?c then _ else _] =>
      match type of Hdiff with
      | found_different _ _ _ c =>
          destruct c;
          [ destruct (Hdiff eq_refl) as (a & b & Ha & Hb & Hc);
            run_in Hrun; rewrite Ha, Hb in Hrun; run_in Hrun;
            rewrite Hc in Hrun; run_in Hrun
          | run_in Hrun ]
      end
  end.

(** C10: with safe-mode on, a pair that is not ignored, not a template
    and found different is put to the user before the dry-run flag is
    looked at; when the user declines, the result is failure and nothing
    was written, in dry-run mode and outside it. *)
Theorem handle_file_asks_before_dry_run
        (left right : string) (compare : bool) (w : world) r w' evs :
  safe self = true ->
  must_ignore X [left; right] (ignores w) = false ->
  is_template X (stat w right) = false ->
  found_different w left right compare ->
  _handle_file X self left right compare w = (r, w', evs) ->
  let reply := ask_reply X (asked w) (overwrite_prompt left right) in
  In (Ask (overwrite_prompt left right) reply) evs
  /\ (reply = false ->
      r = Ok false /\ fs w' = fs w /\ Forall (fun e => fs_call e = false) evs).
Proof.
  intros Hsafe Hign Htpl Hdiff Hrun. unfold overwrite_prompt. cbv zeta.
  run_in Hrun. rewrite Hign in Hrun.
  destruct (debug self); run_in Hrun; rewrite Htpl in Hrun; run_in Hrun;
    differing Hdiff Hrun; rewrite Hsafe in Hrun; run_in Hrun;
    destruct (ask_reply X (asked w) _) eqn:Hrep; run_in Hrun;
    try (inversion Hrun; subst; clear Hrun;
         split; [cbn; tauto | intros _; repeat split; forall_events]);
    (split; [| discriminate]);
    destruct (dry self); run_in Hrun;
    try (inversion Hrun; subst; clear Hrun; cbn; tauto);
    rewrite copyfile_outcome_asked in Hrun;
    destruct (copyfile_outcome w left right); run_in Hrun;
    inversion Hrun; subst; clear Hrun; cbn; tauto.
Qed.

Definition copy_failed_warning (left what : string) : event :=
  Log WARN (left +++ " update failed, do manually: " +++ what).

(** C8: when [_handle_file] gets as far as the copy (pair not ignored,
    not a template, found different, overwrite not declined, no
    dry-run), it returns a boolean whatever the copy does: an [OSError]
    from [shutil.copyfile] ends as a warning and the result [False], with
    the filesystem as it was; a copy that goes through ends as [True]. *)
Theorem handle_file_copy_error_caught
        (left right : string) (compare : bool) (w : world) r w' evs :
  must_ignore X [left; right] (ignores w) = false ->
  is_template X (stat w right) = false ->
  found_different w left right compare ->
  (safe self = true -> ask_reply X (asked w) (overwrite_prompt left right) = true) ->
  dry self = false ->
  _handle_file X self left right compare w = (r, w', evs) ->
  match copyfile_outcome w left right with
  | inr what =>
      r = Ok false /\ fs w' = fs w
      /\ In (Copyfile left right false) evs
      /\ In (copy_failed_warning left what) evs
  | inl n =>
      r = Ok true /\ fs w' = n /\ In (Copyfile left right true) evs
  end.
Proof.
  intros Hign Htpl Hdiff Hyes Hdry Hrun. unfold overwrite_prompt, copy_failed_warning in *.
  run_in Hrun. rewrite Hign in Hrun.
  destruct (debug self); run_in Hrun; rewrite Htpl in Hrun; run_in Hrun;
    differing Hdiff Hrun;
    (destruct (safe self);
     [ rewrite (Hyes eq_refl) in Hrun; run_in Hrun; rewrite Hdry in Hrun; run_in Hrun;
       rewrite copyfile_outcome_asked in Hrun
     | run_in Hrun; rewrite Hdry in Hrun; run_in Hrun ]);
    destruct (copyfile_outcome w left right); run_in Hrun;
    inversion Hrun; subst; clear Hrun; cbn; tauto.
Qed.

End FileSync.

(** The claim of C1 as the spec words it: whenever the template check on
    the managed file is reached and is positive, the call returns
    failure after the warning (and after the patch recipe with
    [showpatch]) and makes no copy and no removal. *)
Definition template_sync_fails : Prop :=
  forall X self left right compare w r w' evs,
    is_template X (stat w right) = true ->
    must_ignore X [left; right] (ignores w) = false ->
    _handle_file X self left right compare w = (r, w', evs) ->
    r = Ok false
    /\ In (template_warning right) evs
    /\ (showpatch self = true ->
        In (patch_recipe (tmp_name X (tmpseq w)) left right) evs)
    /\ Forall (fun e => sync_call e = false) evs.

(** C1, counterexample: with [showpatch] the template is rendered for the
    preview, and when the engine raises, the call ends in that
    exception: no failure is returned. *)
Lemma template_sync_counterexample : ~ template_sync_fails.
Proof.
  intros H.
  specialize (H (Sample.unrendered (Sample.always true))
                (Sample.updater "main" false true true)
                "/home/alice/.vimrc" "/repo/vimrc" true Sample.w0 _ _ _
                eq_refl eq_refl eq_refl).
  vm_compute in H. destruct H as [H _]. discriminate H.
Qed.

Lemma handle_file_template_witness :
  Forall (fun e => sync_call e = false)
         (snd (_handle_file (Sample.machine (Sample.always true))
                            (Sample.updater "main" false true true)
                            "/home/alice/.vimrc" "/repo/vimrc" true Sample.w0))
  /\ fst (fst (_handle_file (Sample.machine (Sample.always true))
                            (Sample.updater "main" false true true)
                            "/home/alice/.vimrc" "/repo/vimrc" true Sample.w0))
     = Ok false
  /\ stat (snd (fst (_handle_file (Sample.machine (Sample.always true))
                                  (Sample.updater "main" false true true)
                                  "/home/alice/.vimrc" "/repo/vimrc" true Sample.w0)))
          "/tmp/dotdrop-0"
     = Some (File "rendered {{@@ editor @@}}" 10).
Proof.
  destruct (@handle_file_template_never_written
              (Sample.machine (Sample.always true))
              (Sample.updater "main" false true true)
              "/home/alice/.vimrc" "/repo/vimrc" true Sample.w0 _ _ _
              eq_refl eq_refl) as [Hquiet Hcase].
  split; [exact Hquiet|].
  vm_compute in Hcase. destruct Hcase as (_ & Hr & Hfs & _).
  split; [exact Hr|].
  exact (f_equal (FS.get (FS.comps "/tmp/dotdrop-0")) Hfs).
Defined.

(** The claim of C10 as the spec words it: on every non-template,
    differing pair with safe-mode on, the overwrite prompt is issued, in
    a dry run too, and declining it gives failure with nothing written. *)
Definition prompt_on_every_differing_pair : Prop :=
  forall X self left right compare w r w' evs,
    safe self = true ->
    is_template X (stat w right) = false ->
    found_different w left right compare ->
    _handle_file X self left right compare w = (r, w', evs) ->
    let reply := ask_reply X (asked w) (overwrite_prompt left right) in
    In (Ask (overwrite_prompt left right) reply) evs
    /\ (reply = false ->
        r = Ok false /\ fs w' = fs w /\ Forall (fun e => fs_call e = false) evs).

(** The sample world with the ignore set that [_update] would install for
    a pattern matching the deployed bashrc. *)
Definition w0_ignoring_bashrc : world :=
  {| fs := fs Sample.w0; ignores := ["*/.bashrc"]; asked := 0;
     clock := clock Sample.w0; tmpseq := 0 |}.

(** C10, counterexample: the ignore test comes before everything else in
    [_handle_file]; an ignored pair, although it is no template and
    differs, gets no prompt in safe mode and the call returns [True]. *)
Lemma prompt_counterexample : ~ prompt_on_every_differing_pair.
Proof.
  intros H.
  assert (Hdiff : found_different w0_ignoring_bashrc
                                  "/home/alice/.bashrc" "/repo/bashrc" true).
  { intros _. exists (File "alias l=ls" 4), (File "alias ll=ls" 2).
    repeat split; reflexivity. }
  destruct (H (Sample.machine (Sample.always false))
              (Sample.updater "main" true true false)
              "/home/alice/.bashrc" "/repo/bashrc" true w0_ignoring_bashrc _ _ _
              eq_refl eq_refl Hdiff eq_refl) as [Hask _].
  vm_compute in Hask. exact Hask.
Qed.

Lemma handle_file_asks_before_dry_run_witness :
  In (Ask (overwrite_prompt "/home/alice/.bashrc" "/repo/bashrc") false)
     (snd (_handle_file (Sample.machine (Sample.always false))
                        (Sample.updater "main" true true false)
                        "/home/alice/.bashrc" "/repo/bashrc" true Sample.w0))
  /\ fst (fst (_handle_file (Sample.machine (Sample.always false))
                            (Sample.updater "main" true true false)
                            "/home/alice/.bashrc" "/repo/bashrc" true Sample.w0))
     = Ok false.
Proof.
  assert (Hdiff : found_different Sample.w0 "/home/alice/.bashrc" "/repo/bashrc" true).
  { intros _. exists (File "alias l=ls" 4), (File "alias ll=ls" 2).
    repeat split; reflexivity. }
  destruct (@handle_file_asks_before_dry_run
              (Sample.machine (Sample.always false))
              (Sample.updater "main" true true false)
              "/home/alice/.bashrc" "/repo/bashrc" true Sample.w0 _ _ _
              eq_refl eq_refl eq_refl Hdiff eq_refl) as [Hask Hno].
  split; [exact Hask|]. apply Hno. reflexivity.
Defined.

Lemma handle_file_copy_error_caught_witness :
  fst (fst (_handle_file (Sample.machine (Sample.always true))
                         (Sample.updater "main" false false false)
                         "/home/alice/app" "/repo/bashrc" false Sample.w0))
  = Ok false.
Proof.
  assert (Hdiff : found_different Sample.w0 "/home/alice/app" "/repo/bashrc" false)
    by (intros H; discriminate H).
  pose proof (@handle_file_copy_error_caught
                (Sample.machine (Sample.always true))
                (Sample.updater "main" false false false)
                "/home/alice/app" "/repo/bashrc" false Sample.w0 _ _ _
                eq_refl eq_refl Hdiff (fun H => False_ind _ (diff_false_true H))
                eq_refl eq_refl) as H.
  exact (proj1 H).
Defined.

(** ** A discipline for runs

    [obeys I P m]: started in a world where [I] holds, [m] ends in a world
    where [I] holds and every event it produced satisfies [P].  [yields I m Q]
    says what a normal result looks like. *)

Section Obeys.

Variable I : world -> Prop.
Variable P : event -> Prop.

Definition obeys {A} (m : M A) : Prop :=
  forall w, I w -> I (snd (fst (m w))) /\ Forall P (snd (m w)).

Definition yields {A} (m : M A) (Q : A -> Prop) : Prop :=
  forall w a w' evs, I w -> m w = (Ok a, w', evs) -> Q a.

Lemma obeys_ret {A} (a : A) : obeys (ret a).
Proof. intros w H. split; [exact H | constructor]. Qed.

Lemma obeys_raise {A} (e : exn) : obeys (@raise A e).
Proof. intros w H. split; [exact H | constructor]. Qed.

Lemma obeys_emit (e : event) : P e -> obeys (emit e).
Proof. intros He w H. split; [exact H | repeat constructor; exact He]. Qed.

Lemma obeys_get_world : obeys get_world.
Proof. intros w H. split; [exact H | constructor]. Qed.

Lemma obeys_bind_yields {A B} (m : M A) (f : A -> M B) (Q : A -> Prop) :
  obeys m -> yields m Q -> (forall a, Q a -> obeys (f a)) -> obeys (bind m f).
Proof.
  intros Hm HQ Hf w Hw. unfold bind.
  destruct (Hm w Hw) as [H1 H2]. specialize (HQ w).
  destruct (m w) as [[[a|x] w1] e1]; cbn in *; [|now split].
  destruct (Hf a (HQ a w1 e1 Hw eq_refl) w1 H1) as [H3 H4].
  destruct (f a w1) as [[r w2] e2]; cbn in *.
  split; [exact H3 | apply Forall_app; now split].
Qed.

Lemma obeys_bind {A B} (m : M A) (f : A -> M B) :
  obeys m -> (forall a, obeys (f a)) -> obeys (bind m f).
Proof.
  intros Hm Hf. apply obeys_bind_yields with (Q := fun _ => True); auto.
  intros w a w' evs _ _. exact Logic.I.
Qed.

Lemma obeys_when (c : bool) (m : M unit) : obeys m -> obeys (when c m).
Proof. intros H. destruct c; [exact H | apply obeys_ret]. Qed.

Lemma obeys_forM {A} (body : A -> M unit) (xs : list A) :
  (forall x, In x xs -> obeys (body x)) -> obeys (forM_ body xs).
Proof.
  induction xs as [|x xs IH]; intros H; cbn.
  - apply obeys_ret.
  - apply obeys_bind; [apply H; now left|].
    intros _. apply IH. intros y Hy. apply H. now right.
Qed.

Lemma obeys_try {A} (m : M A) (h : string -> M A) :
  obeys m -> (forall what, obeys (h what)) -> obeys (try_except_IOError m h).
Proof.
  intros Hm Hh w Hw. unfold try_except_IOError.
  destruct (Hm w Hw) as [H1 H2].
  destruct (m w) as [[[a|[what|what]] w1] e1]; cbn in *; try now split.
  destruct (Hh what w1 H1) as [H3 H4].
  destruct (h what w1) as [[r w2] e2]; cbn in *.
  split; [exact H3 | apply Forall_app; now split].
Qed.

End Obeys.

Lemma dircmp_induction (Q : dircmp -> Prop) :
  (forall l r err lo ro df ff cf subs,
      Forall (fun p => Q (snd p)) subs -> Q (Dircmp l r err lo ro df ff cf subs)) ->
  forall d, Q d.
Proof.
  intros H. fix IH 1. intros [l r err lo ro df ff cf subs]. apply H.
  induction subs as [|[x s] subs IHs]; constructor; [apply IH | exact IHs].
Qed.

Lemma obeys_weaken (I : world -> Prop) (P P' : event -> Prop) {A} (m : M A) :
  (forall e, P e -> P' e) -> obeys I P m -> obeys I P' m.
Proof.
  intros H Hm w Hw. destruct (Hm w Hw) as [H1 H2].
  split; [exact H1 | eapply Forall_impl; eauto].
Qed.

Lemma bind_inv {A B} (m : M A) (f : A -> M B) w r w' evs :
  bind m f w = (r, w', evs) ->
  (exists a w1 e1 e2, m w = (Ok a, w1, e1) /\ f a w1 = (r, w', e2) /\ evs = e1 ++ e2)
  \/ (exists x, m w = (Raise x, w', evs) /\ r = Raise x).
Proof.
  unfold bind. destruct (m w) as [[[a|x] w1] e1].
  - destruct (f a w1) as [[r2 w2] e2] eqn:Hf. intros H. inversion H; subst.
    left. exists a, w1, e1, e2. auto.
  - intros H. inversion H; subst. right. exists x. auto.
Qed.

(** ** The ignore set and the dry-run flag guard every copy and removal *)

Section Policy.

Variable X : externals.
Variable self : Updater.
Variable igs : list string.
Variable fs0 : node.

(** Nothing but [_update] sets [self.ignores]; and in a dry run that
    shows no patch the filesystem stays what it was. *)
Definition steady (w : world) : Prop :=
  ignores w = igs /\ (dry self = true -> showpatch self = false -> fs w = fs0).

(** A copy or a removal is made outside dry-run only, and on paths that
    the ignore set does not match. *)
Definition guarded (e : event) : Prop :=
  match e with
  | Copyfile s t _ | Copytree s t _ =>
      dry self = false /\ must_ignore X [s; t] igs = false
  | Remove p _ => dry self = false /\ must_ignore X [p] igs = false
  | _ => True
  end.

Local Abbreviation keeps m := (obeys steady guarded m).

Lemma steady_wet w w' :
  steady w -> ignores w' = ignores w -> dry self = false -> steady w'.
Proof. intros [H1 H2] Hi Hd. split; [congruence | intros; congruence]. Qed.

Lemma steady_patch w w' :
  steady w -> ignores w' = ignores w -> showpatch self = true -> steady w'.
Proof. intros [H1 H2] Hi Hd. split; [congruence | intros; congruence]. Qed.

Lemma keeps_ignore paths : keeps (_ignore X self paths).
Proof.
  intros w Hw. rewrite ignore_run. split; [exact Hw|]. unfold ignore_log.
  destruct (_ && _); repeat constructor.
Qed.

Lemma yields_ignore paths :
  yields steady (_ignore X self paths) (fun a => a = must_ignore X paths igs).
Proof.
  intros w a w' evs [Hw _] H. rewrite ignore_run in H.
  injection H as Ha _ _. rewrite <- Ha. now rewrite Hw.
Qed.

Lemma keeps_log lvl msg : keeps (emit (Log lvl msg)).
Proof. apply obeys_emit. exact Logic.I. Qed.

Lemma keeps_isdir p : keeps (isdir p).
Proof. intros w Hw. split; [exact Hw | constructor]. Qed.

Lemma keeps_path_exists p : keeps (path_exists p).
Proof. intros w Hw. split; [exact Hw | constructor]. Qed.

Lemma keeps_ask msg : keeps (log_ask X msg).
Proof. intros w Hw. split; [exact Hw | repeat constructor]. Qed.

Lemma keeps_copyfile s t :
  dry self = false -> must_ignore X [s; t] igs = false -> keeps (copyfile s t).
Proof.
  intros Hd Hi w Hw. unfold copyfile.
  destruct (copyfile_outcome w s t).
  - split.
    + eapply steady_wet; [exact Hw | reflexivity | assumption].
    + repeat constructor; assumption.
  - split; [exact Hw | repeat constructor; assumption].
Qed.

Lemma keeps_copytree s t :
  dry self = false -> must_ignore X [s; t] igs = false -> keeps (copytree s t).
Proof.
  intros Hd Hi w Hw. unfold copytree.
  destruct (copytree_outcome w s t);
    (split; [first [exact Hw | eapply steady_wet; [exact Hw | reflexivity | assumption]]
            | repeat constructor; assumption]).
Qed.

Lemma keeps_remove p :
  dry self = false -> must_ignore X [p] igs = false -> keeps (utils_remove p).
Proof.
  intros Hd Hi w Hw. unfold utils_remove.
  destruct (FS.erase _ _);
    (split; [first [exact Hw | eapply steady_wet; [exact Hw | reflexivity | assumption]]
            | repeat constructor; assumption]).
Qed.

Lemma keeps_overwrite s t : keeps (_overwrite X self s t).
Proof.
  unfold _overwrite. destruct (safe self); [|apply obeys_ret].
  apply obeys_bind; [apply keeps_ask|]. intros []; apply obeys_ret.
Qed.

Lemma keeps_confirm_rm_r p : keeps (_confirm_rm_r X self p).
Proof.
  unfold _confirm_rm_r. destruct (safe self); [|apply obeys_ret].
  apply obeys_bind; [apply keeps_ask|]. intros []; apply obeys_ret.
Qed.

Lemma keeps_is_template p : keeps (_is_template X p).
Proof.
  intros w Hw. unfold _is_template.
  rewrite (bind_Ok _ _ _ (is_template_run X p w)).
  destruct (is_template X (stat w p)); cbn; (split; [exact Hw | repeat constructor]).
Qed.

Lemma keeps_show_patch t f :
  showpatch self = true -> keeps (_show_patch X self t f).
Proof.
  intros Hsp w Hw. unfold _show_patch. run.
  destruct (generate X self (stat w t)); run;
    [destruct (FS.write _ _ (fs w)) |]; cbn;
    (split; [eapply steady_patch; [exact Hw | reflexivity | assumption]
            | repeat constructor]).
Qed.

Lemma keeps_cmp a b sh : keeps (filecmp_cmp a b sh).
Proof.
  intros w Hw. unfold filecmp_cmp. rewrite bind_get_world.
  destruct (stat w a), (stat w b); (split; [exact Hw | constructor]).
Qed.

Lemma keeps_handle_file left right compare : keeps (_handle_file X self left right compare).
Proof.
  unfold _handle_file.
  eapply obeys_bind_yields; [apply keeps_ignore | apply yields_ignore |].
  intros ign Hign. destruct ign; [apply obeys_ret|].
  apply obeys_bind; [apply obeys_when, keeps_log|]. intros _.
  apply obeys_bind; [apply keeps_is_template|]. intros [|].
  { apply obeys_bind; [apply obeys_when, keeps_log|]. intros _.
    apply obeys_bind; [|intros _; apply obeys_ret].
    destruct (showpatch self) eqn:Hsp; [|apply obeys_ret].
    apply obeys_bind; [now apply keeps_show_patch | intros _; apply obeys_ret]. }
  apply obeys_bind.
  { destruct compare; [apply keeps_cmp | apply obeys_ret]. }
  intros [|].
  { apply obeys_bind; [apply obeys_when, keeps_log | intros _; apply obeys_ret]. }
  apply obeys_bind; [apply keeps_overwrite|]. intros [|]; [|apply obeys_ret].
  apply obeys_try.
  - apply obeys_bind; [|intros _; apply obeys_ret].
    destruct (dry self) eqn:Hdry; [apply keeps_log|].
    apply obeys_bind; [apply obeys_when, keeps_log|]. intros _.
    apply keeps_copyfile; [exact Hdry | now symmetry].
  - intros what. apply obeys_bind; [apply keeps_log | intros _; apply obeys_ret].
Qed.

Lemma keeps_merge_dirs (diff : dircmp) : keeps (_merge_dirs X self diff).
Proof.
  induction diff as [l r err lo ro df ff cf subs IH] using dircmp_induction.
  cbn [_merge_dirs].
  apply obeys_bind; [apply obeys_when, keeps_log|]. intros _.
  apply obeys_bind; [apply keeps_ignore|]. intros [|]; [apply obeys_ret|].
  apply obeys_bind; [destruct err; [apply obeys_raise | apply obeys_ret]|]. intros _.
  apply obeys_bind.
  { apply obeys_forM. intros x _.
    apply obeys_bind; [apply keeps_isdir|]. intros [|]; [|apply obeys_ret].
    eapply obeys_bind_yields; [apply keeps_ignore | apply yields_ignore |].
    intros ign Hign. destruct ign; [apply obeys_ret|].
    destruct (dry self) eqn:Hdry; [apply keeps_log|].
    apply obeys_bind; [apply obeys_when, keeps_log|]. intros _.
    apply keeps_copytree; [exact Hdry | now symmetry]. }
  intros _. apply obeys_bind.
  { apply obeys_forM. intros x _.
    apply obeys_bind; [apply keeps_isdir|]. intros [|]; [|apply obeys_ret].
    eapply obeys_bind_yields; [apply keeps_ignore | apply yields_ignore |].
    intros ign Hign. destruct ign; [apply obeys_ret|].
    destruct (dry self) eqn:Hdry; [apply keeps_log|].
    apply obeys_bind; [apply obeys_when, keeps_log|]. intros _.
    apply obeys_bind; [apply keeps_confirm_rm_r|]. intros [|]; [|apply obeys_ret].
    apply keeps_remove; [exact Hdry | now symmetry]. }
  intros _. apply obeys_bind.
  { apply obeys_forM. intros x _.
    apply obeys_bind; [apply keeps_ignore|]. intros [|]; [apply obeys_ret|].
    destruct (dry self) eqn:Hdry; [apply keeps_log|].
    apply obeys_bind; [apply obeys_when, keeps_log|]. intros _.
    apply obeys_bind; [apply keeps_handle_file | intros _; apply obeys_ret]. }
  intros _. apply obeys_bind.
  { apply obeys_forM. intros x _.
    apply obeys_bind; [apply keeps_isdir|]. intros [|]; [apply obeys_ret|].
    eapply obeys_bind_yields; [apply keeps_ignore | apply yields_ignore |].
    intros ign Hign. destruct ign; [apply obeys_ret|].
    destruct (dry self) eqn:Hdry; [apply keeps_log|].
    apply obeys_bind; [apply obeys_when, keeps_log|]. intros _.
    apply keeps_copyfile; [exact Hdry | now symmetry]. }
  intros _. apply obeys_bind.
  { apply obeys_forM. intros x _.
    apply obeys_bind; [apply keeps_path_exists|]. intros [|]; [|apply obeys_ret].
    apply obeys_bind; [apply keeps_isdir|]. intros [|]; [apply obeys_ret|].
    eapply obeys_bind_yields; [apply keeps_ignore | apply yields_ignore |].
    intros ign Hign. destruct ign; [apply obeys_ret|].
    destruct (dry self) eqn:Hdry; [apply keeps_log|].
    apply obeys_bind; [apply obeys_when, keeps_log|]. intros _.
    apply keeps_remove; [exact Hdry | now symmetry]. }
  intros _. apply obeys_bind; [|intros _; apply obeys_ret].
  apply obeys_forM. intros [x sub] Hin.
  apply obeys_bind; [|intros _; apply obeys_ret].
  rewrite Forall_forall in IH. exact (IH _ Hin).
Qed.

Lemma keeps_dircmp left right : keeps (filecmp_dircmp left right).
Proof.
  intros w Hw. unfold filecmp_dircmp. rewrite bind_get_world.
  destruct (stat w left) as [l|]; [destruct (stat w right) as [[|R]|]|];
    (split; [exact Hw | constructor]).
Qed.

Lemma keeps_handle_dir left right : keeps (_handle_dir X self left right).
Proof.
  unfold _handle_dir.
  apply obeys_bind; [apply obeys_when, keeps_log|]. intros _.
  apply obeys_bind; [apply keeps_ignore|]. intros [|]; [apply obeys_ret|].
  apply obeys_bind; [apply keeps_dircmp|]. intros diff. apply keeps_merge_dirs.
Qed.

End Policy.

(** ** Association lists and trees *)

Lemma lookup_set_same x v es : FS.lookup x (FS.set x v es) = Some v.
Proof.
  induction es as [|[y m] es IH]; cbn.
  - now rewrite String.eqb_refl.
  - destruct (String.eqb x y) eqn:E; cbn; rewrite E; [reflexivity | exact IH].
Qed.

Lemma lookup_set_other x y v es : x <> y -> FS.lookup y (FS.set x v es) = FS.lookup y es.
Proof.
  intros Hxy. induction es as [|[z m] es IH]; cbn.
  - destruct (String.eqb y x) eqn:E; [apply String.eqb_eq in E; congruence | reflexivity].
  - destruct (String.eqb x z) eqn:E; cbn.
    + apply String.eqb_eq in E. subst z.
      destruct (String.eqb y x) eqn:E'; [apply String.eqb_eq in E'; congruence | reflexivity].
    + now rewrite IH.
Qed.

Lemma lookup_unset_same x es : FS.lookup x (FS.unset x es) = None.
Proof.
  induction es as [|[y m] es IH]; cbn; [reflexivity|].
  destruct (String.eqb x y) eqn:E; cbn; [exact IH | now rewrite E].
Qed.

Lemma lookup_unset_other x y es : x <> y -> FS.lookup y (FS.unset x es) = FS.lookup y es.
Proof.
  intros Hxy. induction es as [|[z m] es IH]; cbn; [reflexivity|].
  destruct (String.eqb x z) eqn:E; cbn.
  - apply String.eqb_eq in E. subst z.
    destruct (String.eqb y x) eqn:E'; [apply String.eqb_eq in E'; congruence | exact IH].
  - now rewrite IH.
Qed.

(** What was erased is gone. *)
Lemma get_erase cs : forall n n', FS.erase cs n = Some n' -> FS.get cs n' = None.
Proof.
  induction cs as [|c cs IH]; intros n n' H; cbn in H; [discriminate|].
  destruct n as [|es]; [discriminate|].
  destruct (FS.lookup c es) as [k|] eqn:Hk; [|discriminate].
  destruct cs as [|c' cs'].
  - inversion H; subst. cbn. now rewrite lookup_unset_same.
  - destruct (FS.erase (c' :: cs') k) as [k'|] eqn:Hk'; [|discriminate].
    inversion H; subst. cbn [FS.get]. rewrite lookup_set_same. now apply IH with k.
Qed.

Ltac mon_in H :=
  cbv beta iota zeta delta
    [bind ret get_world when log_dbg log_warn log_err log_dry emit set_ignores
     isdir path_exists lexists raise negb] in H;
  cbn [fs ignores asked clock tmpseq app] in H.

(** ** The orchestrator *)

Section Orchestrator.

Variable X : externals.
Variable self : Updater.

Definition merged_ignores (d : dotfile) : list string :=
  list_set (ignore self ++ upignore d).

Definition deployed (path : string) : string := OsPath.expanduser (os_env X) path.

Definition managed (d : dotfile) : string :=
  OsPath.expanduser (os_env X)
    (OsPath.join (abs_or_rel (conf self) (dotpath self)) (src d)).

(** The temporary path the write transformation is given. *)
Definition transform_tmp (w : world) : string := tmp_name X (tmpseq w).

(** Guarded calls, and the removal of the transformation's temporary
    file. *)
Definition allowed (igs : list string) (tmp : string) (e : event) : Prop :=
  guarded X self igs e \/ exists ok, e = Remove tmp ok.

Lemma ignore_log_quiet (P : event -> Prop) paths w :
  (forall lvl msg, P (Log lvl msg)) -> Forall P (ignore_log X self paths w).
Proof. intros H. unfold ignore_log. destruct (_ && _); repeat constructor. apply H. Qed.

Lemma guarded_allowed igs tmp es :
  Forall (guarded X self igs) es -> Forall (allowed igs tmp) es.
Proof. apply Forall_impl. intros e H. now left. Qed.

Lemma apply_trans_w_cases path d t w r w' evs :
  _apply_trans_w X self path d t w = (r, w', evs) ->
  ignores w' = ignores w
  /\ Forall (allowed (ignores w) (transform_tmp w)) evs
  /\ match r with
     | Ok (Some p) => p = transform_tmp w
     | Ok None => stat w' (transform_tmp w) = None
     | Raise _ => True
     end.
Proof.
  intros H. unfold _apply_trans_w, get_unique_tmp_name, transform, utils_remove in H.
  mon_in H. unfold transform_tmp in *.
  assert (Hlog : forall lvl msg, allowed (ignores w) (tmp_name X (tmpseq w)) (Log lvl msg))
    by (intros; left; exact Logic.I).
  assert (Htr : forall k s p ok,
             allowed (ignores w) (tmp_name X (tmpseq w)) (Transform k s p ok))
    by (intros; left; exact Logic.I).
  assert (Hrm : forall ok,
             allowed (ignores w) (tmp_name X (tmpseq w)) (Remove (tmp_name X (tmpseq w)) ok))
    by (intros; right; eauto).
  destruct (debug self); mon_in H;
    destruct (t_run t (fs w) path (tmp_name X (tmpseq w))) as [[|] out]; mon_in H.
  all: try solve [inversion H; subst; clear H; cbn; repeat split; repeat constructor; auto].
  all: unfold stat, stamp, with_fs in *; cbn [fs ignores] in *;
    match type of H with
    | context [FS.is_some (FS.get ?c ?n)] =>
        set (n1 := n) in *; destruct (FS.get c n1) as [k|] eqn:Hk
    end; cbn [FS.is_some] in H; mon_in H;
    [ destruct (FS.erase (FS.comps (tmp_name X (tmpseq w))) n1) as [n'|] eqn:He; mon_in H | ];
    inversion H; subst; clear H; cbn [fs ignores];
    (split; [reflexivity|]);
    (split; [repeat (apply Forall_cons; [solve [auto]|]); apply Forall_nil|]);
    first [exact Logic.I | exact Hk | exact (get_erase _ _ He)].
Qed.

End Orchestrator.

Section UpdateCases.

Variable X : externals.
Variable self : Updater.

Definition is_log (e : event) : Prop :=
  match e with Log _ _ => True | _ => False end.

Section Post.
Variables (d : dotfile) (w : world) (ign : bool).
Let igs := merged_ignores self d.
Let tmp := transform_tmp X w.

Definition update_post (r : result bool) (w' : world) (evs : list event) : Prop :=
  ignores w' = igs
  /\ Forall (allowed X self igs tmp) evs
  /\ (ign = true ->
      r = Ok true /\ fs w' = fs w /\ Forall (fun e => fs_call e = false) evs)
  /\ (trans_w d = None -> dry self = true -> showpatch self = false -> fs w' = fs w)
  /\ (trans_w d <> None -> stat w tmp = None ->
      forall b, r = Ok b -> stat w' tmp = None).

Lemma update_post_logs r w' e1 e2 :
  Forall is_log e1 -> update_post r w' e2 -> update_post r w' (e1 ++ e2).
Proof.
  intros Hl (H1 & H2 & H3 & H4 & H5). repeat split; auto.
  - apply Forall_app. split; [|exact H2].
    eapply Forall_impl; [|exact Hl]. intros [] He; try contradiction. left. exact Logic.I.
  - now apply H3.
  - now apply H3.
  - apply Forall_app. split; [|now apply H3].
    eapply Forall_impl; [|exact Hl]. intros [] He; try contradiction. reflexivity.
Qed.
End Post.

Lemma cleanup_cases p w r w' evs :
  bind (path_exists p) (fun e => when e (utils_remove p)) w = (r, w', evs) ->
  ignores w' = ignores w
  /\ Forall (fun e => exists ok, e = Remove p ok) evs
  /\ (r = Ok tt -> stat w' p = None).
Proof.
  intros H. rewrite (bind_Ok _ _ _ (path_exists_run p w)) in H.
  unfold when, utils_remove, stat in *. 
  destruct (FS.get (FS.comps p) (fs w)) as [k|] eqn:Hk; cbn [FS.is_some] in H.
  - destruct (FS.erase (FS.comps p) (fs w)) as [n|] eqn:He;
      inversion H; subst; clear H; cbn; repeat split; eauto.
    + intros _. now apply get_erase in He.
    + discriminate.
  - inversion H; subst; clear H. cbn. repeat split; auto.
Qed.

Lemma when_dbg_logs (c : bool) (msg : string) :
  Forall is_log (if c then [Log DBG msg] else []).
Proof. destruct c; repeat constructor. Qed.

Lemma update_cases path d w r w' evs :
  _update X self path d w = (r, w', evs) ->
  update_post d w (must_ignore X [deployed X path; managed X self d] (merged_ignores self d))
              r w' evs.
Proof.
  intros H. unfold _update in H.
  fold (merged_ignores self d) in H.
  fold (deployed X path) in H. fold (managed X self d) in H.
  set (igs := merged_ignores self d) in *.
  set (w1 := {| fs := fs w; ignores := igs; asked := asked w;
                clock := clock w; tmpseq := tmpseq w |}).
  step H set_ignores_run. fold w1 in H.
  rewrite bind_get_world in H. cbn [app].
  step H when_dbg_run.
  apply update_post_logs; [apply when_dbg_logs|].
  step H ignore_run.
  apply update_post_logs; [apply ignore_log_quiet; intros; exact Logic.I|].
  change (ignores w1) with igs in H.
  destruct (must_ignore X [deployed X path; managed X self d] igs) eqn:Hign.
  { inversion H; subst; clear H. repeat split; auto; try constructor. }
  assert (Hbase : forall r0 w0 es,
             ignores w0 = igs ->
             Forall (allowed X self igs (transform_tmp X w)) es ->
             (trans_w d = None -> dry self = true -> showpatch self = false -> fs w0 = fs w) ->
             (trans_w d <> None -> forall b, r0 = Ok b -> stat w0 (transform_tmp X w) = None) ->
             update_post d w false r0 w0 es).
  { intros r0 w0 es H1 H2 H3 H4. unfold update_post.
    split; [exact H1|]. split; [exact H2|]. split; [discriminate|].
    split; [exact H3|]. intros Hne _. now apply H4. }
  assert (Hdispatch : forall (fs0 : node) (c : bool) (l : string),
             obeys (steady self igs fs0) (guarded X self igs)
                   (if c then _handle_dir X self l (managed X self d)
                    else _handle_file X self l (managed X self d) true)).
  { intros fs0 [|] l; [apply keeps_handle_dir | apply keeps_handle_file]. }
  destruct (trans_w d) as [t|] eqn:Ht.
  - (* a write transformation is configured *)
    apply bind_inv in H as [(np & w2 & e5 & e6 & Hm & H & ->) | (x & Hm & ->)];
      apply apply_trans_w_cases in Hm as (Hi & Hev & Hnp);
      change (ignores w1) with igs in *;
      change (transform_tmp X w1) with (transform_tmp X w) in *.
    2:{ apply Hbase; auto; discriminate. }
    destruct np as [p|].
    2:{ inversion H; subst; clear H. rewrite app_nil_r.
        apply Hbase; auto; discriminate. }
    subst p. step H isdir_run. cbn [app].
    specialize (Hdispatch (fs w2) (FS.is_dir (stat w2 (transform_tmp X w)))
                          (transform_tmp X w) w2 (conj Hi (fun _ _ => eq_refl))).
    apply bind_inv in H as [(b & w3 & e7 & e8 & Hd & H & ->) | (x & Hd & ->)];
      rewrite Hd in Hdispatch; cbn [fst snd] in Hdispatch;
      destruct Hdispatch as [[Hi3 _] He7].
    2:{ apply Hbase; auto; try discriminate.
        apply Forall_app. split; [exact Hev | now apply guarded_allowed]. }
    apply bind_inv in H as [(u & w4 & e9 & e10 & Hc & H & ->) | (x & Hc & ->)];
      apply cleanup_cases in Hc as (Hi4 & He9 & Hgone).
    + inversion H; subst; clear H. rewrite app_nil_r. destruct u.
      apply Hbase; auto; try discriminate; try congruence.
      apply Forall_app. split; [exact Hev|].
      apply Forall_app. split; [now apply guarded_allowed|].
      eapply Forall_impl; [|exact He9]. intros ev Hev'. now right.
    + apply Hbase; auto; try discriminate; try congruence.
      apply Forall_app. split; [exact Hev|].
      apply Forall_app. split; [now apply guarded_allowed|].
      eapply Forall_impl; [|exact He9]. intros ev Hev'. now right.
  - (* no transformation *)
    rewrite bind_ret in H. step H isdir_run. cbn [app].
    specialize (Hdispatch (fs w) (FS.is_dir (stat w1 (deployed X path)))
                          (deployed X path) w1 (conj eq_refl (fun _ _ => eq_refl))).
    apply bind_inv in H as [(b & w3 & e7 & e8 & Hd & H & ->) | (x & Hd & ->)];
      rewrite Hd in Hdispatch; cbn [fst snd] in Hdispatch;
      destruct Hdispatch as [[Hi3 Hfs3] He7].
    2:{ apply Hbase; auto; try congruence. now apply guarded_allowed. }
    rewrite bind_ret in H. inversion H; subst; clear H. rewrite app_nil_r.
    apply Hbase; auto; try congruence. now apply guarded_allowed.
Qed.
End UpdateCases.

(** ** Dry run (C4) *)

(** The claim of C4 as the spec words it: with the dry-run flag set no
    call of the update touches the filesystem. *)
Definition dry_run_never_touches_disk : Prop :=
  forall X self path d w r w' evs,
    dry self = true ->
    _update X self path d w = (r, w', evs) ->
    Forall (fun e => fs_call e = false) evs.

(** C4, counterexample: a dry run on a dotfile with a write transformation
    still runs the transformation, which writes its temporary file, and
    removes that file at the end. *)
Lemma dry_run_counterexample : ~ dry_run_never_touches_disk.
Proof.
  intros H.
  specialize (H (Sample.machine (Sample.always true))
                (Sample.updater "main" true false false)
                "~/.bashrc" Sample.bashrc Sample.w0 _ _ _ eq_refl eq_refl).
  vm_compute in H.
  inversion H as [|e es Hcall _]. discriminate Hcall.
Qed.

Example dry_run_with_transformation :
  snd (_update (Sample.machine (Sample.always true))
               (Sample.updater "main" true false false)
               "~/.bashrc" Sample.bashrc Sample.w0)
  = [Transform "cat" "~/.bashrc" "/tmp/dotdrop-0" true;
     Log DRY "would cp /tmp/dotdrop-0 /repo/bashrc";
     Remove "/tmp/dotdrop-0" true].
Proof. reflexivity. Qed.

(** In a dry run the only removal is that of the transformation's
    temporary file, and nothing is copied. *)
Definition only_temporary (tmp : string) (e : event) : Prop :=
  match e with
  | Copyfile _ _ _ | Copytree _ _ _ => False
  | Remove p _ => p = tmp
  | _ => True
  end.

(** C4, amended: with the dry-run flag set, no path of the update copies a
    file or a tree and none removes anything from the deployed or managed
    side; the only filesystem calls left are on temporary files (the
    transformation's output and its removal, the template preview).  With
    no transformation and no patch preview the filesystem is exactly what it
    was. *)
Theorem update_dry_run X self path d w r w' evs :
  dry self = true ->
  _update X self path d w = (r, w', evs) ->
  Forall (only_temporary (transform_tmp X w)) evs
  /\ (trans_w d = None -> showpatch self = false -> fs w' = fs w).
Proof.
  intros Hdry H. apply update_cases in H as (_ & Hall & _ & Hfs & _).
  split; [|auto].
  eapply Forall_impl; [|exact Hall].
  intros e [Hg | [ok ->]]; [|reflexivity].
  destruct e; cbn in *; try exact Logic.I; destruct Hg; congruence.
Qed.

Lemma update_dry_run_witness :
  fs (snd (fst (_update (Sample.machine (Sample.always true))
                        (Sample.updater "main" true false false)
                        "~/app" Sample.app Sample.w0)))
  = fs Sample.w0.
Proof.
  destruct (@update_dry_run (Sample.machine (Sample.always true))
                            (Sample.updater "main" true false false)
                            "~/app" Sample.app Sample.w0 _ _ _ eq_refl eq_refl)
    as [_ Hfs].
  apply Hfs; reflexivity.
Defined.

(** ** Ignore patterns (C5) *)

(** The claim of C5 as the spec words it: what the ignore set matches is
    not written, at any depth. *)
Definition ignored_pairs_never_written : Prop :=
  forall X self path d w r w' evs left right,
    _update X self path d w = (r, w', evs) ->
    must_ignore X [left; right] (ignores w') = true ->
    stat w' right = stat w right.

(** C5, counterexample: with the pattern [*/secret], the deployed-only
    directory [fresh] is copied as a whole and takes [fresh/secret] with it
    into the repository. *)
Lemma ignore_counterexample : ~ ignored_pairs_never_written.
Proof.
  intros H.
  specialize (H (Sample.machine (Sample.always true))
                (Sample.updater "main" false false false)
                "~/app" Sample.app Sample.w0 _ _ _
                "/home/alice/app/fresh/secret" "/repo/app/fresh/secret"
                eq_refl eq_refl).
  vm_compute in H. discriminate H.
Qed.

(** Every copy and every removal in the trees was checked against the
    ignore set first. *)
Definition checked (X : externals) (igs : list string) (tmp : string) (e : event) : Prop :=
  match e with
  | Copyfile s t _ | Copytree s t _ => must_ignore X [s; t] igs = false
  | Remove p _ => p = tmp \/ must_ignore X [p] igs = false
  | _ => True
  end.

(** C5, amended: every pair the update copies (a file, or a deployed-only
    directory as a whole) and every path it removes from the repository
    was checked against the merged ignore set just before and did not
    match; a matching pair is skipped without error.  When the top-level
    pair matches, the update returns success and touches nothing.  What
    lies inside a directory that is copied or removed as a whole is not
    checked entry by entry. *)
Theorem update_checks_ignore X self path d w r w' evs :
  _update X self path d w = (r, w', evs) ->
  Forall (checked X (merged_ignores self d) (transform_tmp X w)) evs
  /\ (must_ignore X [deployed X path; managed X self d] (merged_ignores self d) = true ->
      r = Ok true /\ fs w' = fs w /\ Forall (fun e => fs_call e = false) evs).
Proof.
  intros H. apply update_cases in H as (_ & Hall & Htop & _).
  split; [|exact Htop].
  eapply Forall_impl; [|exact Hall].
  intros e [Hg | [ok ->]]; [|now left].
  destruct e; cbn in *; try exact Logic.I; destruct Hg; auto.
Qed.

Lemma update_checks_ignore_witness :
  Forall (checked (Sample.machine (Sample.always true)) ["*/secret"] "/tmp/dotdrop-0")
         (snd (_update (Sample.machine (Sample.always true))
                       (Sample.updater "main" false false false)
                       "~/app" Sample.app Sample.w0)).
Proof.
  exact (proj1 (@update_checks_ignore (Sample.machine (Sample.always true))
                                      (Sample.updater "main" false false false)
                                      "~/app" Sample.app Sample.w0 _ _ _ eq_refl)).
Defined.

Example top_level_ignored :
  _update (Sample.machine (Sample.always true))
          {| conf := Sample.cfg; dotpath := "/repo"; profile := "main"; variables := [];
             dry := false; safe := false; iskey := false; debug := false;
             ignore := ["/repo/*"]; showpatch := false |}
          "~/app" Sample.app Sample.w0
  = (Ok true,
     {| fs := Sample.disk; ignores := ["/repo/*"; "*/secret"];
        asked := 0; clock := 10; tmpseq := 0 |},
     []).
Proof. reflexivity. Qed.

(** ** Temporary files (C3) *)

(** The claim of C3 as the spec words it: whatever temporary file an
    update creates is gone when the update is over, however it ends. *)
Definition temporary_files_always_removed : Prop :=
  forall X self path d w r w' evs p,
    _update X self path d w = (r, w', evs) ->
    (In (WriteTmp p true) evs \/ exists k s ok, In (Transform k s p ok) evs) ->
    stat w' p = None.

(** C3, counterexample: the preview that [_show_patch] writes for a
    template is still there after the update; the logged patch command
    reads it. *)
Lemma temporary_files_counterexample : ~ temporary_files_always_removed.
Proof.
  intros H.
  specialize (H (Sample.machine (Sample.always true))
                (Sample.updater "main" false false true)
                "~/.vimrc" Sample.vimrc Sample.w0 _ _ _ "/tmp/dotdrop-0" eq_refl).
  cbn in H. specialize (H (or_introl (or_intror (or_introl eq_refl)))).
  vm_compute in H. discriminate H.
Qed.

(** When the managed file is missing, [filecmp.cmp] raises out of the
    dispatch and the transformation's temporary file stays behind. *)
Example exception_leaves_transform_tmp :
  let out := _update (Sample.machine (Sample.always true))
                     (Sample.updater "main" false false false)
                     "~/.bashrc" Sample.lost Sample.w0 in
  fst (fst out) = Raise (OSError "No such file or directory")
  /\ stat (snd (fst out)) "/tmp/dotdrop-0" = Some (File "alias l=ls" 4).
Proof. split; reflexivity. Qed.

(** C3, amended: when an update with a write transformation returns
    (success, sync failure or transformation failure), the temporary file
    of the transformation does not exist afterwards.  The preview written
    for a template is kept for the patch command that was logged. *)
Theorem update_removes_transform_tmp X self path d w b w' evs :
  trans_w d <> None ->
  stat w (transform_tmp X w) = None ->
  _update X self path d w = (Ok b, w', evs) ->
  stat w' (transform_tmp X w) = None.
Proof.
  intros Ht Hfresh H. apply update_cases in H as (_ & _ & _ & _ & Hgone).
  now apply Hgone with b.
Qed.

Lemma update_removes_transform_tmp_witness :
  stat (snd (fst (_update (Sample.machine (Sample.always true))
                          (Sample.updater "main" false false false)
                          "~/.bashrc" Sample.bashrc Sample.w0)))
       "/tmp/dotdrop-0"
  = None.
Proof.
  apply (@update_removes_transform_tmp
           (Sample.machine (Sample.always true))
           (Sample.updater "main" false false false)
           "~/.bashrc" Sample.bashrc Sample.w0 true _
           (snd (_update (Sample.machine (Sample.always true))
                         (Sample.updater "main" false false false)
                         "~/.bashrc" Sample.bashrc Sample.w0))).
  - discriminate.
  - reflexivity.
  - reflexivity.
Defined.

(** * The merge, run twice *)

Unset Implicit Arguments.

(** ** Paths into the tree *)

Lemma set_set x a b es : FS.set x b (FS.set x a es) = FS.set x b es.
Proof.
  induction es as [|[y m] es IH]; cbn.
  - now rewrite String.eqb_refl.
  - destruct (String.eqb x y) eqn:E; cbn; rewrite E; [reflexivity | now rewrite IH].
Qed.

Lemma set_lookup_id x k es : FS.lookup x es = Some k -> FS.set x k es = es.
Proof.
  induction es as [|[y m] es IH]; cbn; [discriminate|].
  destruct (String.eqb x y) eqn:E.
  - intros H. inversion H. reflexivity.
  - intros H. now rewrite IH.
Qed.

Lemma get_app cs x n :
  FS.get (cs ++ [x]) n
  = match FS.get cs n with
    | Some (Dir es) => FS.lookup x es
    | _ => None
    end.
Proof.
  revert n. induction cs as [|c cs IH]; intros n; cbn.
  - destruct n as [|es]; [reflexivity|]. destruct (FS.lookup x es); reflexivity.
  - destruct n as [|es]; [reflexivity|].
    destruct (FS.lookup c es) as [k|]; [apply IH | reflexivity].
Qed.

Lemma write_app cs x m n Rc :
  FS.get cs n = Some (Dir Rc) ->
  FS.write (cs ++ [x]) m n = FS.write cs (Dir (FS.set x m Rc)) n.
Proof.
  revert n. induction cs as [|c cs IH]; intros n H; cbn in *.
  - inversion H; subst. destruct (FS.lookup x Rc); reflexivity.
  - destruct n as [|es]; [discriminate|].
    destruct (FS.lookup c es) as [k|]; [|discriminate].
    now rewrite (IH k H).
Qed.

Lemma erase_app cs x n Rc k :
  FS.get cs n = Some (Dir Rc) -> FS.lookup x Rc = Some k ->
  FS.erase (cs ++ [x]) n = FS.write cs (Dir (FS.unset x Rc)) n.
Proof.
  revert n. induction cs as [|c cs IH]; intros n H Hx; cbn in *.
  - inversion H; subst. now rewrite Hx.
  - destruct n as [|es]; [discriminate|].
    destruct (FS.lookup c es) as [k'|]; [|discriminate].
    rewrite (IH k' H Hx). destruct (cs ++ [x]) eqn:E; [|reflexivity].
    destruct cs; discriminate E.
Qed.

Lemma write_write cs a b : forall n n1,
  FS.write cs a n = Some n1 -> FS.write cs b n1 = FS.write cs b n.
Proof.
  induction cs as [|c cs IH]; intros n n1 H; cbn in *; [reflexivity|].
  destruct n as [|es]; [discriminate|].
  destruct (FS.lookup c es) as [k|] eqn:Hk.
  - destruct (FS.write cs a k) as [k1|] eqn:Hw; [|discriminate].
    inversion H; subst. cbn. rewrite lookup_set_same, (IH _ _ Hw).
    destruct (FS.write cs b k); [now rewrite set_set | reflexivity].
  - destruct cs; [|discriminate]. inversion H; subst. cbn.
    rewrite lookup_set_same. now rewrite set_set.
Qed.

Lemma get_write_same cs a : forall n n1,
  FS.write cs a n = Some n1 -> FS.get cs n1 = Some a.
Proof.
  induction cs as [|c cs IH]; intros n n1 H; cbn in *; [now inversion H|].
  destruct n as [|es]; [discriminate|].
  destruct (FS.lookup c es) as [k|] eqn:Hk.
  - destruct (FS.write cs a k) as [k1|] eqn:Hw; [|discriminate].
    inversion H; subst. cbn. rewrite lookup_set_same. eauto.
  - destruct cs; [|discriminate]. inversion H; subst. cbn.
    now rewrite lookup_set_same.
Qed.

Lemma write_get_id cs a : forall n, FS.get cs n = Some a -> FS.write cs a n = Some n.
Proof.
  induction cs as [|c cs IH]; intros n H; cbn in *; [now inversion H|].
  destruct n as [|es]; [discriminate|].
  destruct (FS.lookup c es) as [k|] eqn:Hk; [|discriminate].
  rewrite (IH _ H). now rewrite (set_lookup_id _ _ _ Hk).
Qed.

Lemma write_defined cs a b : forall n,
  FS.get cs n = Some a -> exists n', FS.write cs b n = Some n'.
Proof.
  induction cs as [|c cs IH]; intros n H; cbn in *; [eauto|].
  destruct n as [|es]; [discriminate|].
  destruct (FS.lookup c es) as [k|] eqn:Hk; [|discriminate].
  destruct (IH _ H) as [k' ->]. eauto.
Qed.

(** Two paths that part ways at some component. *)
Inductive diverge : list string -> list string -> Prop :=
| diverge_here x y a b : x <> y -> diverge (x :: a) (y :: b)
| diverge_next x a b : diverge a b -> diverge (x :: a) (x :: b).

Lemma diverge_sym a b : diverge a b -> diverge b a.
Proof. induction 1; [apply diverge_here | apply diverge_next]; auto. Qed.

Lemma diverge_app a b u v : diverge a b -> diverge (a ++ u) (b ++ v).
Proof. induction 1; cbn; [apply diverge_here | apply diverge_next]; auto. Qed.

Lemma diverge_neq a b : diverge a b -> a <> b.
Proof. induction 1; intros E; inversion E; subst; auto. Qed.

Lemma get_write_diverge a b m : diverge a b -> forall n n',
  FS.write b m n = Some n' -> FS.get a n' = FS.get a n.
Proof.
  induction 1 as [x y a b Hxy | x a b Hd IH]; intros n n' H; cbn in *.
  - destruct n as [|es]; [discriminate|].
    destruct (FS.lookup y es) as [k|] eqn:Hk.
    + destruct (FS.write b m k); [|discriminate]. inversion H; subst. cbn.
      rewrite lookup_set_other; auto.
    + destruct b; [|discriminate]. inversion H; subst. cbn.
      rewrite lookup_set_other; auto.
  - destruct n as [|es]; [discriminate|].
    destruct (FS.lookup x es) as [k|] eqn:Hk.
    + destruct (FS.write b m k) as [k'|] eqn:Hw; [|discriminate]. inversion H; subst. cbn.
      rewrite lookup_set_same. eauto.
    + inversion Hd; subst; discriminate.
Qed.

Lemma get_erase_diverge a b : diverge a b -> forall n n',
  FS.erase b n = Some n' -> FS.get a n' = FS.get a n.
Proof.
  induction 1 as [x y a b Hxy | x a b Hd IH]; intros n n' H; cbn in *.
  - destruct n as [|es]; [discriminate|].
    destruct (FS.lookup y es) as [k|] eqn:Hk; [|discriminate].
    destruct b as [|c b'].
    + inversion H; subst. cbn. rewrite lookup_unset_other; auto.
    + destruct (FS.erase (c :: b') k); [|discriminate]. inversion H; subst. cbn.
      rewrite lookup_set_other; auto.
  - destruct n as [|es]; [discriminate|].
    destruct (FS.lookup x es) as [k|] eqn:Hk; [|discriminate].
    destruct b as [|c b']; [inversion Hd|].
    destruct (FS.erase (c :: b') k) as [k'|] eqn:He; [|discriminate].
    inversion H; subst. cbn [FS.get]. rewrite lookup_set_same. eauto.
Qed.

(** ** Joining a name to a path *)

(** A directory entry's name: not empty, not [.], without a slash. *)
Definition simple (x : string) : Prop :=
  x <> "" /\ x <> "." /\ Str.contains_char OsPath.sepc x = false.

Lemma split_nonempty c s : Str.split c s <> [].
Proof.
  destruct s as [|a s]; cbn; [discriminate|].
  destruct (Ascii.eqb a c); [discriminate|]. destruct (Str.split c s); discriminate.
Qed.

Lemma split_app_sep c p q :
  Str.split c (p +++ String c q) = Str.split c p ++ Str.split c q.
Proof.
  induction p as [|a p IH]; cbn.
  - now rewrite Ascii.eqb_refl.
  - destruct (Ascii.eqb a c); [now rewrite IH|].
    rewrite IH. pose proof (split_nonempty c p) as Hne.
    destruct (Str.split c p); [contradiction | reflexivity].
Qed.

Lemma split_no_sep c x : Str.contains_char c x = false -> Str.split c x = [x].
Proof.
  induction x as [|a x IH]; cbn; [reflexivity|].
  intros H. apply orb_false_iff in H as [Ha Hx]. rewrite Ha, (IH Hx). reflexivity.
Qed.

Lemma endswith_char_app c p :
  Str.endswith_char c p = true -> exists p', p = p' +++ String c "".
Proof.
  induction p as [|a p IH]; cbn; [discriminate|].
  destruct p as [|b p].
  - intros H. apply Ascii.eqb_eq in H. subst. exists "". reflexivity.
  - intros H. destruct (IH H) as [p' Hp']. exists (String a p'). cbn. now rewrite <- Hp'.
Qed.

Lemma comps_simple x : simple x -> FS.comps x = [x].
Proof.
  intros (H1 & H2 & H3). unfold FS.comps. rewrite (split_no_sep _ _ H3). cbn.
  apply String.eqb_neq in H1, H2. now rewrite H1, H2.
Qed.

Lemma comps_app_sep p q : FS.comps (p +++ String OsPath.sepc q) = FS.comps p ++ FS.comps q.
Proof. unfold FS.comps. now rewrite split_app_sep, filter_app. Qed.

Lemma simple_not_abs x : simple x -> Str.startswith OsPath.sep x = false.
Proof.
  intros (H1 & H2 & H3). destruct x as [|a x]; [reflexivity|].
  rewrite startswith_sep_cons. cbn in H3. apply orb_false_iff in H3 as [Ha _].
  now rewrite Ascii.eqb_sym.
Qed.

Lemma comps_join p x : simple x -> FS.comps (OsPath.join p x) = FS.comps p ++ [x].
Proof.
  intros Hx. unfold OsPath.join. rewrite (simple_not_abs x Hx).
  destruct (Str.is_empty p) eqn:Hp; cbn [orb].
  - destruct p; [|discriminate]. cbn. now apply comps_simple.
  - destruct (Str.endswith_char OsPath.sepc p) eqn:He.
    + destruct (endswith_char_app _ _ He) as [p' ->].
      rewrite append_assoc3. cbn [String.append].
      rewrite !comps_app_sep, (comps_simple x Hx). cbn. now rewrite app_nil_r.
    + unfold OsPath.sep. cbn [String.append].
      now rewrite comps_app_sep, (comps_simple x Hx).
Qed.

(** ** Well-formed trees *)

Lemma node_induction (Q : node -> Prop) :
  (forall d m, Q (File d m)) ->
  (forall es, Forall (fun p => Q (snd p)) es -> Q (Dir es)) ->
  forall n, Q n.
Proof.
  intros HF HD. fix IH 1. intros [d m|es]; [apply HF|]. apply HD.
  induction es as [|[x n] es IHes]; constructor; [apply IH | exact IHes].
Qed.

(** No directory lists a name twice, and every name is a plain name. *)
Inductive wf : node -> Prop :=
| wf_file d m : wf (File d m)
| wf_dir es :
    NoDup (FS.names es) -> Forall simple (FS.names es) ->
    Forall (fun p => wf (snd p)) es -> wf (Dir es).

Lemma lookup_In x es v : FS.lookup x es = Some v -> In (x, v) es.
Proof.
  induction es as [|[y m] es IH]; cbn; [discriminate|].
  destruct (String.eqb x y) eqn:E.
  - apply String.eqb_eq in E. subst. intros H. inversion H. now left.
  - intros H. right. auto.
Qed.

Lemma lookup_None_names x es : FS.lookup x es = None <-> ~ In x (FS.names es).
Proof.
  induction es as [|[y m] es IH]; cbn; [tauto|].
  destruct (String.eqb x y) eqn:E.
  - apply String.eqb_eq in E. subst. split; [discriminate | tauto].
  - apply String.eqb_neq in E. rewrite IH. split; [intros H [?|?]; [congruence | tauto] | tauto].
Qed.

Lemma lookup_Some_names x es v : FS.lookup x es = Some v -> In x (FS.names es).
Proof. intros H. apply lookup_In in H. apply (in_map fst) in H. exact H. Qed.

Lemma names_lookup x es : In x (FS.names es) -> exists v, FS.lookup x es = Some v.
Proof.
  intros H. destruct (FS.lookup x es) eqn:E; [eauto|].
  apply lookup_None_names in E. contradiction.
Qed.

Lemma wf_lookup es x v : wf (Dir es) -> FS.lookup x es = Some v -> simple x /\ wf v.
Proof.
  intros H Hx. inversion H as [|es' Hnd Hs Hw]; subst. split.
  - rewrite Forall_forall in Hs. apply Hs. now apply lookup_Some_names with v.
  - rewrite Forall_forall in Hw. apply (Hw (x, v)). now apply lookup_In.
Qed.

Lemma names_set x v es :
  FS.names (FS.set x v es)
  = if FS.is_some (FS.lookup x es) then FS.names es else FS.names es ++ [x].
Proof.
  unfold FS.names. induction es as [|[y m] es IH]; cbn; [reflexivity|].
  destruct (String.eqb x y) eqn:E; cbn; [reflexivity|].
  rewrite IH. destruct (FS.is_some (FS.lookup x es)); reflexivity.
Qed.

Lemma names_unset x es :
  FS.names (FS.unset x es) = filter (fun y => negb (String.eqb x y)) (FS.names es).
Proof.
  unfold FS.names. induction es as [|[y m] es IH]; cbn; [reflexivity|].
  destruct (String.eqb x y) eqn:E; cbn; now rewrite IH.
Qed.

Lemma In_set p x v es : In p (FS.set x v es) -> p = (x, v) \/ In p es.
Proof.
  induction es as [|[y m] es IH]; cbn.
  - intros [<-|[]]. now left.
  - destruct (String.eqb x y) eqn:E; cbn.
    + apply String.eqb_eq in E. subst. intros [<-|H]; auto.
    + intros [<-|H]; auto. destruct (IH H); auto.
Qed.

Lemma In_unset p x es : In p (FS.unset x es) -> In p es.
Proof.
  induction es as [|[y m] es IH]; cbn; [tauto|].
  destruct (String.eqb x y); cbn; intuition.
Qed.

Lemma wf_set es x v : wf (Dir es) -> simple x -> wf v -> wf (Dir (FS.set x v es)).
Proof.
  intros H Hx Hv. inversion H as [|es' Hnd Hs Hw]; subst. constructor.
  - rewrite names_set. destruct (FS.lookup x es) eqn:E; cbn; [exact Hnd|].
    apply lookup_None_names in E. apply NoDup_app; [exact Hnd | repeat constructor; auto |].
    intros y Hy [<-|[]]. contradiction.
  - rewrite names_set. destruct (FS.is_some _); [exact Hs|].
    apply Forall_app. split; [exact Hs | constructor; [exact Hx | constructor]].
  - rewrite Forall_forall in *. intros p Hp. apply In_set in Hp as [->|Hp]; auto.
Qed.

Lemma wf_unset es x : wf (Dir es) -> wf (Dir (FS.unset x es)).
Proof.
  intros H. inversion H as [|es' Hnd Hs Hw]; subst. constructor.
  - rewrite names_unset. now apply NoDup_filter.
  - rewrite names_unset. rewrite Forall_forall in *. intros y Hy.
    apply filter_In in Hy as [Hy _]. auto.
  - rewrite Forall_forall in *. intros p Hp. apply In_unset in Hp. auto.
Qed.

(** ** Loops that touch one entry per round *)

Lemma forM_pointwise {A} (key : A -> string) (body : A -> M unit)
      (T : A -> option node -> option node -> Prop)
      (G : world -> FS.listing -> Prop) (xs : list A) :
  NoDup (map key xs) ->
  forall R0,
  (forall a Rc w, In a xs -> G w Rc ->
     FS.lookup (key a) Rc = FS.lookup (key a) R0 ->
     exists Rc' w' evs,
       body a w = (Ok tt, w', evs) /\ G w' Rc'
       /\ T a (FS.lookup (key a) Rc) (FS.lookup (key a) Rc')
       /\ (forall y, y <> key a -> FS.lookup y Rc' = FS.lookup y Rc)) ->
  forall w, G w R0 ->
    exists R' w' evs,
      forM_ body xs w = (Ok tt, w', evs) /\ G w' R'
      /\ (forall a, In a xs -> T a (FS.lookup (key a) R0) (FS.lookup (key a) R'))
      /\ (forall y, ~ In y (map key xs) -> FS.lookup y R' = FS.lookup y R0).
Proof.
  induction xs as [|a xs IH]; intros Hnd R0 Hbody w HG.
  - exists R0, w, []. cbn. repeat split; auto. intros a [].
  - inversion Hnd as [|k ks Hk Hnd']; subst.
    destruct (Hbody a R0 w (or_introl eq_refl) HG eq_refl)
      as (R1 & w1 & e1 & Hrun & HG1 & HT & Hoth).
    assert (Hne : forall b, In b xs -> key b <> key a).
    { intros b Hb E. apply Hk. rewrite <- E. now apply in_map. }
    destruct (IH Hnd' R1) with (w := w1) as (R' & w' & e2 & Hrun' & HG' & HT' & Hoth'); auto.
    { intros b Rc w0 Hb HGc Hsame.
      apply Hbody; [now right | exact HGc | rewrite Hsame; apply Hoth; now apply Hne]. }
    exists R', w', (e1 ++ e2). split.
    { cbn [forM_]. rewrite (bind_Ok _ _ _ Hrun). fold (forM_ body xs). now rewrite Hrun'. }
    split; [exact HG'|]. split.
    + intros b [<-|Hb].
      * rewrite (Hoth' (key a) Hk). exact HT.
      * rewrite <- (Hoth (key b)); auto.
    + intros y Hy. cbn in Hy. rewrite Hoth'; [|tauto]. apply Hoth. intros E. apply Hy. now left.
Qed.

Lemma forM_noop {A} (body : A -> M unit) (Q : world -> Prop) (P : event -> Prop)
      (xs : list A) :
  (forall a w, In a xs -> Q w ->
     exists w' evs, body a w = (Ok tt, w', evs) /\ Q w' /\ Forall P evs) ->
  forall w, Q w ->
    exists w' evs, forM_ body xs w = (Ok tt, w', evs) /\ Q w' /\ Forall P evs.
Proof.
  induction xs as [|a xs IH]; intros Hbody w HQ.
  - exists w, []. cbn. repeat split; auto.
  - destruct (Hbody a w (or_introl eq_refl) HQ) as (w1 & e1 & Hrun & HQ1 & HP1).
    destruct (IH (fun b w0 Hb => Hbody b w0 (or_intror Hb)) w1 HQ1)
      as (w' & e2 & Hrun' & HQ' & HP2).
    exists w', (e1 ++ e2). split.
    { cbn [forM_]. rewrite (bind_Ok _ _ _ Hrun). fold (forM_ body xs). now rewrite Hrun'. }
    split; [exact HQ' | apply Forall_app; now split].
Qed.

(** ** What [dircmp] lists *)

Arguments hidden : simpl never.
Arguments mem : simpl never.
Arguments visible : simpl never.

Definition subdirs_listed (left right : string) (R : FS.listing)
  : FS.listing -> list (string * dircmp) :=
  fix subs (es : FS.listing) : list (string * dircmp) :=
    match es with
    | [] => []
    | (x, n) :: es' =>
        match n, FS.lookup x R with
        | Dir _, Some (Dir Rx) =>
            if negb (hidden x) && mem x (visible R)
            then (x, dircmp_node (OsPath.join left x) (OsPath.join right x) n Rx)
                   :: subs es'
            else subs es'
        | _, _ => subs es'
        end
    end.

Definition subdirs_of (left right : string) (R es : FS.listing)
  : list (string * dircmp) :=
  sorted_by fst (subdirs_listed left right R es).

Definition left_only_of (L R : FS.listing) : list string :=
  filter (fun x => negb (mem x (visible R))) (visible L).
Definition right_only_of (L R : FS.listing) : list string :=
  filter (fun x => negb (mem x (visible L))) (visible R).
Definition diff_files_of (L R : FS.listing) : list string :=
  filter (fun x => negb (same_of L R x)) (common_files_of L R).
Definition common_funny_of (L R : FS.listing) : list string :=
  filter (fun x => negb (both FS.is_dir L R x) && negb (both FS.is_file L R x)) (common L R).

Lemma dircmp_node_dir left right L R :
  dircmp_node left right (Dir L) R
  = Dircmp left right None (left_only_of L R) (right_only_of L R) (diff_files_of L R) []
           (common_funny_of L R) (subdirs_of left right R L).
Proof. reflexivity. Qed.

Lemma mem_In x ys : mem x ys = true <-> In x ys.
Proof.
  unfold mem. rewrite existsb_exists. split.
  - intros (y & Hy & E). apply String.eqb_eq in E. now subst.
  - intros H. exists x. split; [exact H | apply String.eqb_refl].
Qed.

Lemma mem_false x ys : mem x ys = false <-> ~ In x ys.
Proof. rewrite <- mem_In. destruct (mem x ys); split; congruence. Qed.

Lemma insert_by_perm {A} (key : A -> string) (a : A) (l : list A) :
  Permutation (insert_by key a l) (a :: l).
Proof.
  induction l as [|b l IH]; cbn; [reflexivity|].
  destruct (String.leb (key a) (key b)); [reflexivity|].
  rewrite IH. apply perm_swap.
Qed.

Lemma sorted_by_perm {A} (key : A -> string) (l : list A) :
  Permutation (sorted_by key l) l.
Proof.
  induction l as [|a l IH]; cbn; [reflexivity|].
  rewrite insert_by_perm. now constructor.
Qed.

Lemma in_sorted_by {A} (key : A -> string) (l : list A) (a : A) :
  In a (sorted_by key l) <-> In a l.
Proof.
  split; apply Permutation_in; [|symmetry]; apply sorted_by_perm.
Qed.

Lemma NoDup_sorted_by {A B} (key : A -> string) (f : A -> B) (l : list A) :
  NoDup (map f l) -> NoDup (map f (sorted_by key l)).
Proof.
  apply Permutation_NoDup. symmetry. apply Permutation_map, sorted_by_perm.
Qed.

Lemma in_visible x es :
  In x (visible es) <-> hidden x = false /\ FS.lookup x es <> None.
Proof.
  unfold visible. rewrite in_sorted_by, filter_In, negb_true_iff. split.
  - intros [H1 H2]. split; [exact H2|]. intros E. now apply lookup_None_names in E.
  - intros [H1 H2]. split; [|exact H1].
    destruct (in_dec string_dec x (FS.names es)) as [Hin|Hin]; [exact Hin|].
    apply lookup_None_names in Hin. contradiction.
Qed.

Lemma NoDup_visible es : wf (Dir es) -> NoDup (visible es).
Proof.
  intros H. inversion H; subst. unfold visible.
  rewrite <- (map_id (sorted_by _ _)). apply NoDup_sorted_by. rewrite map_id.
  now apply NoDup_filter.
Qed.

Lemma in_left_only x L R :
  In x (left_only_of L R)
  <-> hidden x = false /\ FS.lookup x L <> None /\ FS.lookup x R = None.
Proof.
  unfold left_only_of. rewrite filter_In, negb_true_iff, mem_false, !in_visible.
  destruct (FS.lookup x R); intuition congruence.
Qed.

Lemma in_right_only x L R :
  In x (right_only_of L R)
  <-> hidden x = false /\ FS.lookup x L = None /\ FS.lookup x R <> None.
Proof.
  unfold right_only_of. rewrite filter_In, negb_true_iff, mem_false, !in_visible.
  destruct (FS.lookup x L); intuition congruence.
Qed.

Lemma in_common x L R :
  In x (common L R)
  <-> hidden x = false /\ FS.lookup x L <> None /\ FS.lookup x R <> None.
Proof. unfold common. rewrite filter_In, mem_In, !in_visible. tauto. Qed.

Lemma in_diff_files x L R :
  In x (diff_files_of L R)
  <-> hidden x = false /\ exists a b,
        FS.lookup x L = Some a /\ FS.lookup x R = Some b
        /\ FS.is_file (Some a) = true /\ FS.is_file (Some b) = true
        /\ cmp_nodes true a b = false.
Proof.
  unfold diff_files_of, common_files_of, same_of, both.
  rewrite !filter_In, in_common, negb_true_iff, andb_true_iff.
  destruct (FS.lookup x L) as [a|], (FS.lookup x R) as [b|]; cbn; split;
    try (intros [[_ [? ?]] _]; congruence);
    try (intros [_ (? & ? & ? & ? & _)]; congruence);
    try (intros [[[? ?] ?] _]; congruence).
  - intros [[[H1 _] [H2 H3]] H4]. split; [exact H1|]. exists a, b. auto.
  - intros [H1 (a' & b' & Ha & Hb & H2 & H3 & H4)]. inversion Ha; inversion Hb; subst.
    repeat split; auto; discriminate.
Qed.

Lemma in_common_funny x L R :
  In x (common_funny_of L R)
  <-> hidden x = false /\ exists a b,
        FS.lookup x L = Some a /\ FS.lookup x R = Some b
        /\ FS.is_dir (Some a) = negb (FS.is_dir (Some b)).
Proof.
  unfold common_funny_of, both. rewrite filter_In, in_common.
  destruct (FS.lookup x L) as [[da ma|La]|], (FS.lookup x R) as [[db mb|Lb]|]; cbn.
  all: split; [intros [[H1 [H2 H3]] H4] | intros [H1 (a' & b' & Ha & Hb & Hc)]].
  all: try congruence.
  all: try (inversion Ha; inversion Hb; subst; cbn in Hc; discriminate).
  all: try (split; [exact H1|]; eexists _, _; repeat split; reflexivity).
  all: repeat split; auto; discriminate.
Qed.

Lemma in_subdirs_listed left right R es x sub :
  In (x, sub) (subdirs_listed left right R es) ->
  exists Lx Rx, In (x, Dir Lx) es /\ FS.lookup x R = Some (Dir Rx) /\ hidden x = false
                /\ sub = dircmp_node (OsPath.join left x) (OsPath.join right x) (Dir Lx) Rx.
Proof.
  induction es as [|[y n] es IH]; cbn; [tauto|].
  assert (Hrest : In (x, sub) (subdirs_listed left right R es) ->
                  exists Lx Rx, ((y, n) = (x, Dir Lx) \/ In (x, Dir Lx) es)
                    /\ FS.lookup x R = Some (Dir Rx) /\ hidden x = false
                    /\ sub = dircmp_node (OsPath.join left x) (OsPath.join right x) (Dir Lx) Rx).
  { intros H. destruct (IH H) as (Lx & Rx & H1 & H2). exists Lx, Rx. tauto. }
  destruct n as [|Ly]; [exact Hrest|].
  destruct (FS.lookup y R) as [[|Ry]|] eqn:Hy; try exact Hrest.
  destruct (negb (hidden y) && mem y (visible R)) eqn:Hc; [|exact Hrest].
  intros [E|H]; [|exact (Hrest H)].
  inversion E; subst. exists Ly, Ry. apply andb_true_iff in Hc as [Hc _].
  apply negb_true_iff in Hc. auto.
Qed.

Lemma subdirs_listed_names left right R es :
  incl (map fst (subdirs_listed left right R es)) (FS.names es).
Proof.
  induction es as [|[y n] es IH]; cbn; [apply incl_refl|].
  assert (Hrest : incl (map fst (subdirs_listed left right R es)) (y :: FS.names es))
    by (apply incl_tl, IH).
  destruct n as [|Ly]; [exact Hrest|].
  destruct (FS.lookup y R) as [[|Ry]|]; try exact Hrest.
  destruct (negb (hidden y) && mem y (visible R)); [|exact Hrest].
  cbn. apply incl_cons; [now left | exact Hrest].
Qed.

Lemma NoDup_subdirs_listed left right R es :
  NoDup (FS.names es) -> NoDup (map fst (subdirs_listed left right R es)).
Proof.
  induction es as [|[y n] es IH]; cbn; [constructor|].
  intros H. inversion H as [|? ? Hy Hnd]; subst. specialize (IH Hnd).
  destruct n as [|Ly]; [exact IH|].
  destruct (FS.lookup y R) as [[|Ry]|]; try exact IH.
  destruct (negb (hidden y) && mem y (visible R)); [|exact IH].
  cbn. constructor; [|exact IH]. intros Hin. apply Hy. now apply (subdirs_listed_names left right R es).
Qed.

Lemma subdirs_listed_complete left right R es x Lx Rx :
  hidden x = false -> FS.lookup x es = Some (Dir Lx) -> FS.lookup x R = Some (Dir Rx) ->
  In (x, dircmp_node (OsPath.join left x) (OsPath.join right x) (Dir Lx) Rx)
     (subdirs_listed left right R es).
Proof.
  intros Hh Hl Hr. induction es as [|[y n] es IH]; cbn in Hl |- *; [discriminate|].
  destruct (String.eqb x y) eqn:E.
  - apply String.eqb_eq in E. subst y. inversion Hl; subst n. rewrite Hr, Hh.
    assert (Hm : mem x (visible R) = true).
    { apply mem_In, in_visible. split; [exact Hh | congruence]. }
    rewrite Hm. cbn. now left.
  - specialize (IH Hl). destruct n as [|Ly]; [exact IH|].
    destruct (FS.lookup y R) as [[|Ry]|]; try exact IH.
    destruct (negb (hidden y) && mem y (visible R)); [now right | exact IH].
Qed.

Lemma in_subdirs_of left right R es x sub :
  In (x, sub) (subdirs_of left right R es) ->
  exists Lx Rx, In (x, Dir Lx) es /\ FS.lookup x R = Some (Dir Rx) /\ hidden x = false
                /\ sub = dircmp_node (OsPath.join left x) (OsPath.join right x) (Dir Lx) Rx.
Proof. intros H. apply in_sorted_by in H. now apply in_subdirs_listed in H. Qed.

Lemma subdirs_names left right R es :
  incl (map fst (subdirs_of left right R es)) (FS.names es).
Proof.
  intros x Hx. apply (subdirs_listed_names left right R es).
  apply in_map_iff in Hx as (p & E & Hp). apply in_sorted_by in Hp.
  apply in_map_iff. eauto.
Qed.

Lemma NoDup_subdirs left right R es :
  NoDup (FS.names es) -> NoDup (map fst (subdirs_of left right R es)).
Proof. intros H. now apply NoDup_sorted_by, NoDup_subdirs_listed. Qed.

Lemma subdirs_complete left right R es x Lx Rx :
  hidden x = false -> FS.lookup x es = Some (Dir Lx) -> FS.lookup x R = Some (Dir Rx) ->
  In (x, dircmp_node (OsPath.join left x) (OsPath.join right x) (Dir Lx) Rx)
     (subdirs_of left right R es).
Proof. intros Hh Hl Hr. apply in_sorted_by. now apply subdirs_listed_complete. Qed.

Lemma in_subdirs_names left right R es x :
  In x (map fst (subdirs_of left right R es)) ->
  exists Lx Rx, In (x, Dir Lx) es /\ FS.lookup x R = Some (Dir Rx).
Proof.
  intros H. apply in_map_iff in H as ([y sub] & E & H). cbn in E. subst y.
  apply in_subdirs_of in H as (Lx & Rx & H1 & H2 & _). eauto.
Qed.

Lemma In_lookup x v es : NoDup (FS.names es) -> In (x, v) es -> FS.lookup x es = Some v.
Proof.
  induction es as [|[y n] es IH]; cbn; [tauto|].
  intros Hnd [E|H]; inversion Hnd as [|? ? Hy Hnd']; subst.
  - inversion E; subst. now rewrite String.eqb_refl.
  - destruct (String.eqb x y) eqn:E; [|now apply IH].
    apply String.eqb_eq in E. subst y. exfalso. apply Hy.
    change x with (fst (x, v)). now apply in_map.
Qed.

(** ** Settled pairs *)

(** The calls that went through and changed the filesystem. *)
Definition performed (e : event) : bool :=
  match e with
  | Copyfile _ _ ok | Copytree _ _ ok | Remove _ ok | WriteTmp _ ok => ok
  | Transform _ _ _ _ => true
  | _ => false
  end.

Definition rm_prompt (directory : string) : string :=
  "Recursively remove " +++ quoted directory +++ "?".

Section Merge.

Variable X : externals.
Variable self : Updater.
Variable igs : list string.

(** No patch preview, and a user who answers the same question the same
    way every time. *)
Hypothesis Hsp : showpatch self = false.
Hypothesis Hreply : forall n m msg, ask_reply X n msg = ask_reply X m msg.

(** Whether the action a prompt guards goes ahead. *)
Definition yes (msg : string) : bool := negb (safe self) || ask_reply X 0 msg.

Definition quiet (evs : list event) : Prop := Forall (fun e => performed e = false) evs.

Lemma confirm_rm_r_run p w :
  exists w' evs,
    _confirm_rm_r X self p w = (Ok (yes (rm_prompt p)), w', evs)
    /\ fs w' = fs w /\ ignores w' = ignores w /\ quiet evs.
Proof.
  unfold _confirm_rm_r, yes, rm_prompt, quiet. destruct (safe self); run.
  - rewrite (Hreply (asked w) 0). destruct (ask_reply X 0 _); run;
      eexists _, _; repeat split; repeat constructor.
  - eexists _, _; repeat split; repeat constructor.
Qed.

Lemma handle_file_nocmp l r w :
  let go := negb (must_ignore X [l; r] (ignores w))
            && negb (is_template X (stat w r))
            && yes (overwrite_prompt l r) && negb (dry self) in
  exists b w' evs,
    _handle_file X self l r false w = (Ok b, w', evs)
    /\ ignores w' = ignores w
    /\ match (if go then copyfile_outcome w l r else inr "") with
       | inl n => fs w' = n
       | inr _ => fs w' = fs w /\ quiet evs
       end.
Proof.
  unfold yes, overwrite_prompt, quiet. cbv zeta. run. rewrite Hsp.
  destruct (must_ignore X [l; r] (ignores w)); run.
  { destruct (debug self); run; eexists _, _, _; repeat split; repeat constructor. }
  destruct (debug self); run;
    (destruct (is_template X (stat w r)); run;
     [ eexists _, _, _; repeat split; repeat constructor | ]);
    (destruct (safe self); run;
     [ rewrite (Hreply (asked w) 0);
       destruct (ask_reply X 0 _); run;
       [ | eexists _, _, _; repeat split; repeat constructor ]
     | ]);
    (destruct (dry self); run;
     [ eexists _, _, _; repeat split; repeat constructor | ]);
    try rewrite copyfile_outcome_asked;
    destruct (copyfile_outcome w l r); run;
    eexists _, _, _; repeat split; repeat constructor.
Qed.

(** *** Runs that change nothing *)

Section Still.

Variable fs1 : node.

Definition still (w : world) : Prop := ignores w = igs /\ fs w = fs1.

(** [m] returns normally, leaves the filesystem alone and performs no
    call; [post] holds of its result. *)
Definition nop {A} (m : M A) (post : A -> Prop) : Prop :=
  forall w, still w ->
    exists a w' evs, m w = (Ok a, w', evs) /\ still w' /\ quiet evs /\ post a.

Lemma nop_ret {A} (a : A) (post : A -> Prop) : post a -> nop (ret a) post.
Proof. intros H w Hw. exists a, w, []. repeat split; auto; try apply Hw. constructor. Qed.

Lemma nop_bind {A B} (m : M A) (f : A -> M B) (mid : A -> Prop) (post : B -> Prop) :
  nop m mid -> (forall a, mid a -> nop (f a) post) -> nop (bind m f) post.
Proof.
  intros Hm Hf w Hw. destruct (Hm w Hw) as (a & w1 & e1 & Hrun & Hw1 & Hq1 & Ha).
  destruct (Hf a Ha w1 Hw1) as (b & w2 & e2 & Hrun2 & Hw2 & Hq2 & Hb).
  exists b, w2, (e1 ++ e2). rewrite (bind_Ok _ _ _ Hrun), Hrun2.
  repeat split; auto; try apply Hw2. apply Forall_app. now split.
Qed.

Lemma nop_weaken {A} (m : M A) (post post' : A -> Prop) :
  (forall a, post a -> post' a) -> nop m post -> nop m post'.
Proof.
  intros H Hm w Hw. destruct (Hm w Hw) as (a & w1 & e1 & Hrun & Hw1 & Hq1 & Ha).
  exists a, w1, e1. auto.
Qed.

Lemma nop_log lvl msg : nop (emit (Log lvl msg)) (fun _ => True).
Proof. intros w Hw. exists tt, w, [Log lvl msg]. repeat split; auto; try apply Hw. repeat constructor. Qed.

Lemma nop_when_dbg c msg : nop (when c (log_dbg msg)) (fun _ => True).
Proof. destruct c; [apply nop_log | now apply nop_ret]. Qed.

Lemma nop_ignore paths :
  nop (_ignore X self paths) (fun a => a = must_ignore X paths igs).
Proof.
  intros w Hw. exists (must_ignore X paths (ignores w)), w, (ignore_log X self paths w).
  rewrite ignore_run. repeat split; auto; try apply Hw.
  - apply ignore_log_quiet. reflexivity.
  - destruct Hw as [-> _]. reflexivity.
Qed.

Lemma nop_isdir p : nop (isdir p) (fun a => a = FS.is_dir (FS.get (FS.comps p) fs1)).
Proof.
  intros w Hw. exists (FS.is_dir (stat w p)), w, []. repeat split; auto; try apply Hw.
  - constructor.
  - unfold stat. destruct Hw as [_ ->]. reflexivity.
Qed.

Lemma nop_path_exists p :
  nop (path_exists p) (fun a => a = FS.is_some (FS.get (FS.comps p) fs1)).
Proof.
  intros w Hw. exists (FS.is_some (stat w p)), w, []. repeat split; auto; try apply Hw.
  - constructor.
  - unfold stat. destruct Hw as [_ ->]. reflexivity.
Qed.

Lemma nop_confirm_rm_r p :
  nop (_confirm_rm_r X self p) (fun a => a = yes (rm_prompt p)).
Proof.
  intros w [Hi Hf]. destruct (confirm_rm_r_run p w) as (w' & evs & Hrun & H1 & H2 & H3).
  exists (yes (rm_prompt p)), w', evs. repeat split; auto; congruence.
Qed.

Lemma nop_forM {A} (body : A -> M unit) xs :
  (forall a, In a xs -> nop (body a) (fun _ => True)) ->
  nop (forM_ body xs) (fun _ => True).
Proof.
  intros H w Hw.
  destruct (@forM_noop A body still (fun e => performed e = false) xs) with (w := w)
    as (w' & evs & Hrun & Hw' & Hq); auto.
  - intros a w0 Ha Hw0. destruct (H a Ha w0 Hw0) as ([] & w1 & e1 & Hr & Hw1 & Hq1 & _).
    eauto.
  - exists tt, w', evs. auto.
Qed.

(** A file sync that is held back, or whose copy cannot go through. *)
Lemma nop_handle_file l r :
  dry self = true
  \/ must_ignore X [l; r] igs = true
  \/ is_template X (FS.get (FS.comps r) fs1) = true
  \/ yes (overwrite_prompt l r) = false
  \/ FS.is_file (FS.get (FS.comps l) fs1) = false
  \/ FS.is_dir (FS.get (FS.comps r) fs1) = true ->
  nop (_handle_file X self l r false) (fun _ => True).
Proof.
  intros Hwhy w [Hi Hf].
  destruct (handle_file_nocmp l r w) as (b & w' & evs & Hrun & Hi' & Hout).
  exists b, w', evs. split; [exact Hrun|].
  assert (Hfail : forall n, copyfile_outcome w l r = inl n ->
             FS.is_file (FS.get (FS.comps l) fs1) = true
             /\ FS.is_dir (FS.get (FS.comps r) fs1) = false).
  { unfold copyfile_outcome, stat. rewrite Hf. intros n.
    destruct (FS.get (FS.comps l) fs1) as [[|]|]; try discriminate.
    destruct (same_path l r); try discriminate.
    destruct (FS.get (FS.comps r) fs1) as [[|]|]; try discriminate; auto. }
  unfold stat in Hout. rewrite Hi, Hf in Hout.
  destruct (negb (must_ignore X [l; r] igs)) eqn:E1; cbn [andb] in Hout;
    [|unfold still; intuition congruence].
  destruct (negb (is_template X (FS.get (FS.comps r) fs1))) eqn:E2; cbn [andb] in Hout;
    [|unfold still; intuition congruence].
  destruct (yes (overwrite_prompt l r)) eqn:E3; cbn [andb] in Hout;
    [|unfold still; intuition congruence].
  destruct (negb (dry self)) eqn:E4; cbn [andb] in Hout;
    [|unfold still; intuition congruence].
  destruct (copyfile_outcome w l r) as [n|what] eqn:E5;
    [|unfold still; intuition congruence].
  exfalso. destruct (Hfail n eq_refl) as [H1 H2].
  apply negb_true_iff in E1, E2, E4.
  destruct Hwhy as [H|[H|[H|[H|[H|H]]]]]; congruence.
Qed.

End Still.

(** *** A settled pair of directories *)

(** Merging [left] (holding [L]) into [right] (holding [R]) returns and
    changes nothing. *)
Definition Noop (left right : string) (L R : FS.listing) : Prop :=
  forall w, ignores w = igs ->
    stat w left = Some (Dir L) -> stat w right = Some (Dir R) ->
    exists w' evs,
      _merge_dirs X self (dircmp_node left right (Dir L) R) w = (Ok true, w', evs)
      /\ fs w' = fs w /\ ignores w' = igs /\ quiet evs.

Definition ign2 (left right x : string) : bool :=
  must_ignore X [OsPath.join left x; OsPath.join right x] igs.
Definition ign1 (right x : string) : bool :=
  must_ignore X [OsPath.join right x] igs.

(** The entry named [x], being [l] on the deployed side and [r] on the
    managed side, asks for nothing. *)
Definition quiet_entry (left right x : string) (l r : option node) : Prop :=
  match l, r with
  | Some (Dir Lx), Some (Dir Rx) =>
      Noop (OsPath.join left x) (OsPath.join right x) Lx Rx
  | Some (File d1 m1), Some (File d2 m2) =>
      cmp_nodes true (File d1 m1) (File d2 m2) = true
      \/ dry self = true \/ ign2 left right x = true
      \/ is_template X r = true
      \/ yes (overwrite_prompt (OsPath.join left x) (OsPath.join right x)) = false
  | Some _, Some _ => True
  | Some _, None => dry self = true \/ ign2 left right x = true
  | None, Some (Dir _) =>
      dry self = true \/ ign1 right x = true
      \/ yes (rm_prompt (OsPath.join right x)) = false
  | None, Some (File _ _) => dry self = true \/ ign1 right x = true
  | None, None => True
  end.

Lemma get_child p x root es :
  FS.get (FS.comps p) root = Some (Dir es) -> simple x ->
  FS.get (FS.comps (OsPath.join p x)) root = FS.lookup x es.
Proof. intros H Hx. now rewrite (comps_join p x Hx), get_app, H. Qed.

Lemma lookup_simple es x : wf (Dir es) -> FS.lookup x es <> None -> simple x.
Proof.
  intros H Hx. destruct (FS.lookup x es) as [v|] eqn:E; [|contradiction].
  now apply (wf_lookup es x v H E).
Qed.

Lemma settled_noop left right L R :
  wf (Dir L) -> wf (Dir R) ->
  (forall x, hidden x = false ->
     quiet_entry left right x (FS.lookup x L) (FS.lookup x R)) ->
  Noop left right L R.
Proof.
  intros HL HR Hq w Hi HsL HsR. unfold stat in HsL, HsR.
  enough (Hnop : nop (fs w) (_merge_dirs X self (dircmp_node left right (Dir L) R))
                     (fun a => a = true)).
  { destruct (Hnop w (conj Hi eq_refl)) as (a & w' & evs & Hrun & [Hi' Hf'] & Hqu & ->).
    exists w', evs. auto. }
  rewrite dircmp_node_dir. cbn [_merge_dirs].
  eapply nop_bind; [apply nop_when_dbg|]. intros _ _.
  eapply nop_bind; [apply nop_ignore|]. intros ign ->.
  destruct (must_ignore X [left; right] igs); [now apply nop_ret|].
  eapply nop_bind; [apply nop_ret with (post := fun _ => True); exact Logic.I|]. intros _ _.
  (* directories only on the deployed side *)
  eapply nop_bind.
  { apply nop_forM. intros x Hx. apply in_left_only in Hx as (Hh & Hl & Hr).
    pose proof (lookup_simple L x HL Hl) as Hsx. specialize (Hq x Hh). rewrite Hr in Hq.
    eapply nop_bind; [apply nop_isdir|]. intros d ->.
    rewrite (get_child left x (fs w) L HsL Hsx).
    destruct (FS.lookup x L) as [[|Lx]|]; cbn [FS.is_dir negb]; try now apply nop_ret.
    eapply nop_bind; [apply nop_ignore|]. intros ign ->.
    fold (ign2 left right x). unfold quiet_entry in Hq.
    destruct (ign2 left right x); [now apply nop_ret|].
    destruct (dry self); [apply nop_log|]. destruct Hq; discriminate. }
  intros _ _.
  (* directories only on the managed side *)
  eapply nop_bind.
  { apply nop_forM. intros x Hx. apply in_right_only in Hx as (Hh & Hl & Hr).
    pose proof (lookup_simple R x HR Hr) as Hsx. specialize (Hq x Hh). rewrite Hl in Hq.
    eapply nop_bind; [apply nop_isdir|]. intros d ->.
    rewrite (get_child right x (fs w) R HsR Hsx).
    destruct (FS.lookup x R) as [[|Rx]|]; cbn [FS.is_dir negb]; try now apply nop_ret.
    eapply nop_bind; [apply nop_ignore|]. intros ign ->.
    fold (ign1 right x). unfold quiet_entry in Hq.
    destruct (ign1 right x); [now apply nop_ret|].
    destruct (dry self); [apply nop_log|].
    eapply nop_bind; [apply nop_when_dbg|]. intros _ _.
    eapply nop_bind; [apply nop_confirm_rm_r|]. intros c ->.
    destruct (yes (rm_prompt (OsPath.join right x))); [|now apply nop_ret].
    destruct Hq as [H|[H|H]]; discriminate. }
  intros _ _.
  (* files that differ, and entries of different kinds *)
  eapply nop_bind.
  { apply nop_forM. intros x Hx. cbn [app] in Hx.
    assert (Hx' : hidden x = false /\ exists a b,
               FS.lookup x L = Some a /\ FS.lookup x R = Some b
               /\ (cmp_nodes true a b = false
                   \/ FS.is_dir (Some a) = negb (FS.is_dir (Some b)))).
    { apply in_app_or in Hx as [Hx|Hx].
      - apply in_diff_files in Hx as (Hh & a & b & Ha & Hb & _ & _ & Hc). eauto 8.
      - apply in_common_funny in Hx as (Hh & a & b & Ha & Hb & Hc). eauto 8. }
    destruct Hx' as (Hh & a & b & Ha & Hb & Hkind).
    assert (Hsx : simple x) by (apply (lookup_simple L x HL); congruence).
    specialize (Hq x Hh). rewrite Ha, Hb in Hq.
    eapply nop_bind; [apply nop_ignore|]. intros ign ->.
    fold (ign2 left right x).
    destruct (ign2 left right x) eqn:Hign; [now apply nop_ret|].
    destruct (dry self) eqn:Hdry; [apply nop_log|].
    eapply nop_bind; [apply nop_when_dbg|]. intros _ _.
    eapply nop_bind; [|intros _ _; now apply nop_ret].
    apply nop_handle_file.
    rewrite (get_child left x (fs w) L HsL Hsx), (get_child right x (fs w) R HsR Hsx), Ha, Hb.
    destruct a as [d1 m1|La]; [|do 4 right; left; reflexivity].
    destruct b as [d2 m2|Rb]; [|do 5 right; reflexivity].
    unfold quiet_entry in Hq. cbn [FS.is_dir negb] in Hkind.
    destruct Hkind as [Hc|Hc]; [|discriminate].
    destruct Hq as [H|[H|[H|[H|H]]]]; try congruence.
    + do 2 right; left. exact H.
    + do 3 right; left. exact H. }
  intros _ _.
  (* files only on the deployed side *)
  eapply nop_bind.
  { apply nop_forM. intros x Hx. apply in_left_only in Hx as (Hh & Hl & Hr).
    pose proof (lookup_simple L x HL Hl) as Hsx. specialize (Hq x Hh). rewrite Hr in Hq.
    eapply nop_bind; [apply nop_isdir|]. intros d ->.
    rewrite (get_child left x (fs w) L HsL Hsx).
    destruct (FS.lookup x L) as [[|Lx]|]; cbn [FS.is_dir negb];
      [ | now apply nop_ret | contradiction ].
    eapply nop_bind; [apply nop_ignore|]. intros ign ->.
    fold (ign2 left right x). unfold quiet_entry in Hq.
    destruct (ign2 left right x); [now apply nop_ret|].
    destruct (dry self); [apply nop_log|]. destruct Hq; discriminate. }
  intros _ _.
  (* files only on the managed side *)
  eapply nop_bind.
  { apply nop_forM. intros x Hx. apply in_right_only in Hx as (Hh & Hl & Hr).
    pose proof (lookup_simple R x HR Hr) as Hsx. specialize (Hq x Hh). rewrite Hl in Hq.
    eapply nop_bind; [apply nop_path_exists|]. intros e ->.
    rewrite (get_child right x (fs w) R HsR Hsx).
    destruct (FS.lookup x R) as [[|Rx]|] eqn:HRx; cbn [FS.is_some negb];
      try now apply nop_ret.
    - eapply nop_bind; [apply nop_isdir|]. intros d ->.
      rewrite (get_child right x (fs w) R HsR Hsx), HRx. cbn [FS.is_dir].
      eapply nop_bind; [apply nop_ignore|]. intros ign ->.
      fold (ign1 right x). unfold quiet_entry in Hq.
      destruct (ign1 right x); [now apply nop_ret|].
      destruct (dry self); [apply nop_log|]. destruct Hq; discriminate.
    - eapply nop_bind; [apply nop_isdir|]. intros d ->.
      rewrite (get_child right x (fs w) R HsR Hsx), HRx. cbn [FS.is_dir].
      now apply nop_ret. }
  intros _ _.
  (* common subdirectories *)
  eapply nop_bind; [|intros _ _; now apply nop_ret].
  apply nop_forM. intros [x sub] Hx.
  apply in_subdirs_of in Hx as (Lx & Rx & HLx & HRx & Hh & ->).
  assert (HlL : FS.lookup x L = Some (Dir Lx)).
  { inversion HL as [|? Hnd _ _]; subst. clear - HLx Hnd.
    induction L as [|[y m] L' IH]; [contradiction|]. cbn in *.
    inversion Hnd as [|? ? Hy Hnd']; subst. destruct HLx as [E|Hin].
    - inversion E; subst. now rewrite String.eqb_refl.
    - destruct (String.eqb x y) eqn:E; [|auto].
      apply String.eqb_eq in E. subst. exfalso. apply Hy.
      now apply (in_map fst _ (y, Dir Lx)). }
  assert (Hsx : simple x) by (apply (lookup_simple L x HL); congruence).
  specialize (Hq x Hh). rewrite HlL, HRx in Hq. unfold quiet_entry in Hq.
  eapply nop_bind with (mid := fun _ => True); [|intros _ _; now apply nop_ret].
  intros w0 [Hi0 Hf0].
  destruct (Hq w0 Hi0) as (w' & evs & Hrun & Hf' & Hi' & Hqu).
  { unfold stat. rewrite Hf0, (get_child left x (fs w) L HsL Hsx). exact HlL. }
  { unfold stat. rewrite Hf0, (get_child right x (fs w) R HsR Hsx). exact HRx. }
  exists true, w', evs. repeat split; auto. congruence.
Qed.

Lemma cmp_same_data d m t : cmp_nodes true (File d m) (File d t) = true.
Proof.
  cbn. rewrite Nat.eqb_refl. cbn. destruct (Nat.eqb m t); [reflexivity|].
  apply String.eqb_refl.
Qed.

(** A tree merged with an exact copy of itself. *)
Lemma same_tree_noop n :
  wf n -> forall left right es, n = Dir es -> Noop left right es es.
Proof.
  induction n as [d m|es IH] using node_induction; intros Hwf left right es' E;
    [discriminate|].
  inversion E; subst es'. clear E.
  apply settled_noop; auto. intros x _.
  destruct (FS.lookup x es) as [[d m|Lx]|] eqn:Hx; cbn; auto.
  - left. rewrite Nat.eqb_refl. cbn. now rewrite Nat.eqb_refl.
  - rewrite Forall_forall in IH. apply (IH (x, Dir Lx)).
    + now apply lookup_In.
    + now apply (wf_lookup es x (Dir Lx) Hwf Hx).
    + reflexivity.
Qed.

Lemma ignored_noop left right L R :
  must_ignore X [left; right] igs = true -> Noop left right L R.
Proof.
  intros Hign w Hi _ _. rewrite dircmp_node_dir. cbn [_merge_dirs].
  rewrite (bind_Ok _ _ _ (when_dbg_run _ _ w)).
  rewrite (bind_Ok _ _ _ (ignore_run X self _ w)). rewrite Hi, Hign. cbn.
  eexists _, _. repeat split; auto.
  apply Forall_app. split; [destruct (debug self); repeat constructor|].
  rewrite app_nil_r. apply ignore_log_quiet. reflexivity.
Qed.

(** *** The six passes of [_merge_dirs] *)

Section Passes.

Variables left right : string.

Definition copy_new_dir (toadd : string) : M unit :=
  let exist := OsPath.join left toadd in
  d <- isdir exist ;;
  if negb d then ret tt else
  let new := OsPath.join right toadd in
  ign <- _ignore X self [exist; new] ;;
  if ign then ret tt else
  if dry self then log_dry ("would cp -r " +++ exist +++ " " +++ new) else
  when (debug self) (log_dbg ("cp -r " +++ exist +++ " " +++ new)) ;;;
  copytree exist new.

Definition remove_old_dir (toremove : string) : M unit :=
  let old := OsPath.join right toremove in
  d <- isdir old ;;
  if negb d then ret tt else
  ign <- _ignore X self [old] ;;
  if ign then ret tt else
  if dry self then log_dry ("would rm -r " +++ old) else
  when (debug self) (log_dbg ("rm -r " +++ old)) ;;;
  c <- _confirm_rm_r X self old ;;
  if negb c then ret tt else
  utils_remove old.

Definition sync_differing (f : string) : M unit :=
  let fleft := OsPath.join left f in
  let fright := OsPath.join right f in
  ign <- _ignore X self [fleft; fright] ;;
  if ign then ret tt else
  if dry self then log_dry ("would cp " +++ fleft +++ " " +++ fright) else
  when (debug self) (log_dbg ("cp " +++ fleft +++ " " +++ fright)) ;;;
  _handle_file X self fleft fright false ;;; ret tt.

Definition copy_new_file (toadd : string) : M unit :=
  let exist := OsPath.join left toadd in
  d <- isdir exist ;;
  if d then ret tt else
  let new := OsPath.join right toadd in
  ign <- _ignore X self [exist; new] ;;
  if ign then ret tt else
  if dry self then log_dry ("would cp " +++ exist +++ " " +++ new) else
  when (debug self) (log_dbg ("cp " +++ exist +++ " " +++ new)) ;;;
  copyfile exist new.

Definition remove_old_file (toremove : string) : M unit :=
  let new := OsPath.join right toremove in
  e <- path_exists new ;;
  if negb e then ret tt else
  d <- isdir new ;;
  if d then ret tt else
  ign <- _ignore X self [new] ;;
  if ign then ret tt else
  if dry self then log_dry ("would rm " +++ new) else
  when (debug self) (log_dbg ("rm " +++ new)) ;;;
  utils_remove new.

Definition descend (sub : string * dircmp) : M unit :=
  let '(_, subdir) := sub in _merge_dirs X self subdir ;;; ret tt.

Lemma merge_dirs_passes err lo ro df ff cf subs :
  _merge_dirs X self (Dircmp left right err lo ro df ff cf subs)
  = (when (debug self) (log_dbg ("sync dir " +++ left +++ " to " +++ right)) ;;;
     ign <- _ignore X self [left; right] ;;
     if ign then ret true else
     match err with Some e => raise e | None => ret tt end ;;;
     forM_ copy_new_dir lo ;;;
     forM_ remove_old_dir ro ;;;
     forM_ sync_differing (df ++ ff ++ cf) ;;;
     forM_ copy_new_file lo ;;;
     forM_ remove_old_file ro ;;;
     forM_ descend subs ;;;
     ret true).
Proof. reflexivity. Qed.

End Passes.

(** Merging [left] (holding [L]) into any managed directory returns, only
    rewrites that directory, and leaves a settled pair. *)
Definition Settles (L : FS.listing) : Prop :=
  forall left right R w,
    wf (Dir R) -> diverge (FS.comps left) (FS.comps right) ->
    ignores w = igs -> stat w left = Some (Dir L) -> stat w right = Some (Dir R) ->
    exists R' w' evs,
      _merge_dirs X self (dircmp_node left right (Dir L) R) w = (Ok true, w', evs)
      /\ FS.write (FS.comps right) (Dir R') (fs w) = Some (fs w')
      /\ ignores w' = igs /\ wf (Dir R') /\ Noop left right L R'.

(** *** One level of the first run *)

Section Level.

Variables (left right : string) (L : FS.listing) (fs0 : node).
Hypothesis HL : wf (Dir L).
Hypothesis Hdiv : diverge (FS.comps left) (FS.comps right).
Hypothesis HgetL : FS.get (FS.comps left) fs0 = Some (Dir L).

(** The managed directory holds [Rc] now, nothing else has changed
    since the level was entered with the tree [fs0]. *)
Definition good (w : world) (Rc : FS.listing) : Prop :=
  FS.write (FS.comps right) (Dir Rc) fs0 = Some (fs w)
  /\ ignores w = igs /\ wf (Dir Rc).

Lemma good_right w Rc : good w Rc -> FS.get (FS.comps right) (fs w) = Some (Dir Rc).
Proof. intros (H & _). eapply get_write_same. exact H. Qed.

Lemma good_left w Rc : good w Rc -> FS.get (FS.comps left) (fs w) = Some (Dir L).
Proof. intros (H & _). rewrite (get_write_diverge _ _ _ Hdiv _ _ H). exact HgetL. Qed.

Lemma good_stat_right w Rc x :
  good w Rc -> simple x -> stat w (OsPath.join right x) = FS.lookup x Rc.
Proof. intros H Hx. unfold stat. now apply get_child, Hx; apply good_right. Qed.

Lemma good_stat_left w Rc x :
  good w Rc -> simple x -> stat w (OsPath.join left x) = FS.lookup x L.
Proof. intros H Hx. unfold stat. now apply get_child, Hx; apply (good_left w Rc). Qed.

Lemma good_same w w' Rc :
  good w Rc -> fs w' = fs w -> ignores w' = ignores w -> good w' Rc.
Proof. intros (H1 & H2 & H3) Hf Hi. repeat split; auto; congruence. Qed.

Lemma good_set w Rc x v :
  good w Rc -> simple x -> wf v ->
  exists n, FS.write (FS.comps (OsPath.join right x)) v (fs w) = Some n
            /\ forall w', fs w' = n -> ignores w' = ignores w ->
                          good w' (FS.set x v Rc).
Proof.
  intros Hg Hx Hv. pose proof (good_right w Rc Hg) as Hr. destruct Hg as (H1 & H2 & H3).
  rewrite (comps_join right x Hx), (write_app _ x v _ Rc Hr).
  destruct (write_defined _ (Dir Rc) (Dir (FS.set x v Rc)) _ Hr) as [n Hn].
  exists n. split; [exact Hn|]. intros w' Hf Hi. repeat split.
  - rewrite Hf, <- Hn. symmetry. eapply write_write. exact H1.
  - congruence.
  - now apply wf_set.
Qed.

Lemma good_unset w Rc x k :
  good w Rc -> simple x -> FS.lookup x Rc = Some k ->
  exists n, FS.erase (FS.comps (OsPath.join right x)) (fs w) = Some n
            /\ forall w', fs w' = n -> ignores w' = ignores w ->
                          good w' (FS.unset x Rc).
Proof.
  intros Hg Hx Hk. pose proof (good_right w Rc Hg) as Hr. destruct Hg as (H1 & H2 & H3).
  rewrite (comps_join right x Hx), (erase_app _ x _ Rc k Hr Hk).
  destruct (write_defined _ (Dir Rc) (Dir (FS.unset x Rc)) _ Hr) as [n Hn].
  exists n. split; [exact Hn|]. intros w' Hf Hi. repeat split.
  - rewrite Hf, <- Hn. symmetry. eapply write_write. exact H1.
  - congruence.
  - now apply wf_unset.
Qed.

Lemma paths_differ x : simple x ->
  same_path (OsPath.join left x) (OsPath.join right x) = false.
Proof.
  intros Hx. unfold same_path. rewrite !(comps_join _ x Hx).
  destruct (list_eq_dec _ _ _) as [E|]; [|reflexivity].
  exfalso. apply (diverge_neq _ _ (diverge_app _ _ [x] [x] Hdiv)). exact E.
Qed.

Let l (x : string) : option node := FS.lookup x L.

(** What each pass may do to the entry [x], from [o] to [o']. *)
Definition T1 (x : string) (o o' : option node) : Prop :=
  (o' = o /\ (FS.is_dir (l x) = true -> dry self = true \/ ign2 left right x = true))
  \/ (FS.is_dir (l x) = true /\ o' = l x).

Definition T2 (x : string) (o o' : option node) : Prop :=
  (o' = o /\ (FS.is_dir o = true ->
              dry self = true \/ ign1 right x = true
              \/ yes (rm_prompt (OsPath.join right x)) = false))
  \/ o' = None.

Definition T3 (x : string) (o o' : option node) : Prop :=
  (o' = o /\ (FS.is_file (l x) = true -> FS.is_dir o = false ->
              dry self = true \/ ign2 left right x = true
              \/ is_template X o = true
              \/ yes (overwrite_prompt (OsPath.join left x) (OsPath.join right x)) = false))
  \/ (exists d m t, l x = Some (File d m) /\ o' = Some (File d t)).

Definition T4 (x : string) (o o' : option node) : Prop :=
  (o' = o /\ (FS.is_file (l x) = true -> dry self = true \/ ign2 left right x = true))
  \/ (exists d m t, l x = Some (File d m) /\ o' = Some (File d t)).

Definition T5 (x : string) (o o' : option node) : Prop :=
  (o' = o /\ (FS.is_file o = true -> dry self = true \/ ign1 right x = true))
  \/ o' = None.

(** [m] returns from [w], leaving a listing and a world that satisfy
    [Post]. *)
Definition lands {A} (m : M A) (w : world)
           (Post : A -> FS.listing -> world -> Prop) : Prop :=
  exists a Rc' w' evs, m w = (Ok a, w', evs) /\ Post a Rc' w'.

Lemma lands_ret {A} (a : A) Rc w (Post : A -> FS.listing -> world -> Prop) :
  Post a Rc w -> lands (ret a) w Post.
Proof. intros H. exists a, Rc, w, []. auto. Qed.

Lemma lands_log lvl msg Rc w (Post : unit -> FS.listing -> world -> Prop) :
  Post tt Rc w -> lands (emit (Log lvl msg)) w Post.
Proof. intros H. exists tt, Rc, w, [Log lvl msg]. auto. Qed.

Lemma lands_step {A B} (m : M A) (f : A -> M B) w a w1 e1
      (Post : B -> FS.listing -> world -> Prop) :
  m w = (Ok a, w1, e1) -> lands (f a) w1 Post -> lands (bind m f) w Post.
Proof.
  intros Hm (b & Rc' & w' & e2 & Hf & HP). exists b, Rc', w', (e1 ++ e2).
  rewrite (bind_Ok _ _ _ Hm), Hf. auto.
Qed.

Lemma lands_seq {A B} (m : M A) (f : A -> M B) w
      (Mid : A -> FS.listing -> world -> Prop)
      (Post : B -> FS.listing -> world -> Prop) :
  lands m w Mid ->
  (forall a Rc1 w1, Mid a Rc1 w1 -> lands (f a) w1 Post) ->
  lands (bind m f) w Post.
Proof.
  intros (a & Rc1 & w1 & e1 & Hm & HM) Hf.
  eapply lands_step; [exact Hm|]. eapply Hf. exact HM.
Qed.

Lemma copytree_run s d w n :
  copytree_outcome w s d = inl n ->
  copytree s d w = (Ok tt, with_fs w n, [Copytree s d true]).
Proof. intros H. unfold copytree. now rewrite H. Qed.

Lemma copyfile_run s d w n :
  copyfile_outcome w s d = inl n ->
  copyfile s d w = (Ok tt, stamp w n, [Copyfile s d true]).
Proof. intros H. unfold copyfile. now rewrite H. Qed.

Lemma remove_run p w n :
  FS.erase (FS.comps p) (fs w) = Some n ->
  utils_remove p w = (Ok tt, with_fs w n, [Remove p true]).
Proof. intros H. unfold utils_remove. now rewrite H. Qed.

Definition frame (x : string) (Rc Rc' : FS.listing) : Prop :=
  forall y, y <> x -> FS.lookup y Rc' = FS.lookup y Rc.

Lemma frame_refl x Rc : frame x Rc Rc.
Proof. intros y _. reflexivity. Qed.

Lemma frame_set x v Rc : frame x Rc (FS.set x v Rc).
Proof. intros y Hy. apply lookup_set_other. congruence. Qed.

Lemma frame_unset x Rc : frame x Rc (FS.unset x Rc).
Proof. intros y Hy. apply lookup_unset_other. congruence. Qed.

Ltac stay Rc Hg :=
  (apply lands_ret with (Rc := Rc) || apply lands_log with (Rc := Rc));
  split; [exact Hg | split; [| apply frame_refl]];
  left; split; [first [reflexivity | assumption]
               | try (cbn; intros; discriminate); auto 6].

Lemma copy_new_dir_step x Rc w :
  good w Rc -> l x <> None -> FS.lookup x Rc = None ->
  lands (copy_new_dir left right x) w
        (fun _ Rc' w' => good w' Rc'
                         /\ T1 x (FS.lookup x Rc) (FS.lookup x Rc') /\ frame x Rc Rc').
Proof.
  intros Hg Hl Hr. pose proof (lookup_simple L x HL Hl) as Hx.
  unfold copy_new_dir, T1. subst l. cbv beta in *.
  eapply lands_step; [apply isdir_run|].
  rewrite (good_stat_left w Rc x Hg Hx).
  destruct (FS.lookup x L) as [[d m|Lx]|] eqn:HLx; cbn [FS.is_dir negb];
    [ | | contradiction ].
  { stay Rc Hg. }
  eapply lands_step; [apply ignore_run|].
  rewrite (proj1 (proj2 Hg)). fold (ign2 left right x).
  destruct (ign2 left right x).
  { stay Rc Hg. }
  destruct (dry self).
  { stay Rc Hg. }
  eapply lands_step; [apply when_dbg_run|].
  destruct (good_set w Rc x (Dir Lx) Hg Hx) as (n & Hn & Hgood).
  { now apply (wf_lookup L x (Dir Lx) HL HLx). }
  exists tt, (FS.set x (Dir Lx) Rc), (with_fs w n), [Copytree (OsPath.join left x) (OsPath.join right x) true].
  split.
  { apply copytree_run. unfold copytree_outcome.
    rewrite (good_stat_left w Rc x Hg Hx), (good_stat_right w Rc x Hg Hx), HLx, Hr, Hn.
    reflexivity. }
  split; [apply Hgood; reflexivity|]. split; [|apply frame_set].
  right. split; [reflexivity | now rewrite lookup_set_same].
Qed.

Lemma remove_old_dir_step x Rc w :
  good w Rc -> simple x ->
  lands (remove_old_dir right x) w
        (fun _ Rc' w' => good w' Rc'
                         /\ T2 x (FS.lookup x Rc) (FS.lookup x Rc') /\ frame x Rc Rc').
Proof.
  intros Hg Hx. unfold remove_old_dir, T2.
  eapply lands_step; [apply isdir_run|].
  rewrite (good_stat_right w Rc x Hg Hx).
  destruct (FS.lookup x Rc) as [[d m|Rx]|] eqn:HRx; cbn [FS.is_dir negb];
    try (stay Rc Hg).
  eapply lands_step; [apply ignore_run|].
  rewrite (proj1 (proj2 Hg)). fold (ign1 right x).
  destruct (ign1 right x).
  { stay Rc Hg. }
  destruct (dry self).
  { stay Rc Hg. }
  eapply lands_step; [apply when_dbg_run|].
  destruct (confirm_rm_r_run (OsPath.join right x) w) as (w1 & e1 & Hrun & Hf1 & Hi1 & _).
  eapply lands_step; [exact Hrun|].
  pose proof (good_same w w1 Rc Hg Hf1 Hi1) as Hg1.
  destruct (yes (rm_prompt (OsPath.join right x))); cbn [negb].
  2:{ stay Rc Hg1. }
  destruct (good_unset w1 Rc x (Dir Rx) Hg1 Hx HRx) as (n & Hn & Hgood).
  exists tt, (FS.unset x Rc), (with_fs w1 n), [Remove (OsPath.join right x) true].
  split; [now apply remove_run|].
  split; [apply Hgood; reflexivity|]. split; [|apply frame_unset].
  right. apply lookup_unset_same.
Qed.

Lemma sync_differing_step x Rc w :
  good w Rc -> simple x ->
  lands (sync_differing left right x) w
        (fun _ Rc' w' => good w' Rc'
                         /\ T3 x (FS.lookup x Rc) (FS.lookup x Rc') /\ frame x Rc Rc').
Proof.
  intros Hg Hx. unfold sync_differing, T3. subst l. cbv beta.
  eapply lands_step; [apply ignore_run|].
  rewrite (proj1 (proj2 Hg)). fold (ign2 left right x).
  destruct (ign2 left right x) eqn:Hign.
  { stay Rc Hg. }
  destruct (dry self) eqn:Hdry.
  { stay Rc Hg. }
  eapply lands_step; [apply when_dbg_run|].
  destruct (handle_file_nocmp (OsPath.join left x) (OsPath.join right x) w)
    as (b & w1 & e1 & Hrun & Hi1 & Hout).
  eapply lands_step; [exact Hrun|]. cbv zeta in Hout.
  rewrite (proj1 (proj2 Hg)) in Hout. fold (ign2 left right x) in Hout.
  rewrite Hign, Hdry, (good_stat_right w Rc x Hg Hx) in Hout. cbn [negb andb] in Hout.
  unfold copyfile_outcome in Hout.
  rewrite (good_stat_left w Rc x Hg Hx), (good_stat_right w Rc x Hg Hx),
    (paths_differ x Hx) in Hout.
  assert (Hstay : fs w1 = fs w ->
             (FS.is_file (FS.lookup x L) = true -> FS.is_dir (FS.lookup x Rc) = false ->
              is_template X (FS.lookup x Rc) = true
              \/ yes (overwrite_prompt (OsPath.join left x) (OsPath.join right x)) = false) ->
             lands (ret tt) w1
               (fun _ Rc' w' => good w' Rc'
                  /\ ((FS.lookup x Rc' = FS.lookup x Rc
                       /\ (FS.is_file (FS.lookup x L) = true ->
                           FS.is_dir (FS.lookup x Rc) = false ->
                           false = true \/ false = true
                           \/ is_template X (FS.lookup x Rc) = true
                           \/ yes (overwrite_prompt (OsPath.join left x)
                                                    (OsPath.join right x)) = false))
                      \/ (exists d m t, FS.lookup x L = Some (File d m)
                                        /\ FS.lookup x Rc' = Some (File d t)))
                  /\ frame x Rc Rc')).
  { intros Hf Hwhy. apply lands_ret with (Rc := Rc).
    split; [now apply (good_same w w1 Rc Hg)|]. split; [|apply frame_refl].
    left. split; [reflexivity|]. intros H1 H2. right. right. now apply Hwhy. }
  destruct (is_template X (FS.lookup x Rc)) eqn:Htpl; cbn [negb andb] in Hout.
  { apply Hstay; [apply Hout | auto]. }
  destruct (yes (overwrite_prompt _ _)) eqn:Hyes; cbn [negb andb] in Hout.
  2:{ apply Hstay; [apply Hout | auto]. }
  destruct (FS.lookup x L) as [[d m|Lx]|] eqn:HLx.
  2,3: apply Hstay; [apply Hout | discriminate].
  destruct (FS.lookup x Rc) as [[d2 m2|Rx]|] eqn:HRx.
  2: apply Hstay; [apply Hout | discriminate].
  all: destruct (good_set w Rc x (File d (clock w)) Hg Hx (wf_file _ _)) as (n & Hn & Hgood);
    rewrite Hn in Hout;
    apply lands_ret with (Rc := FS.set x (File d (clock w)) Rc);
    (split; [now apply Hgood|]); (split; [|apply frame_set]);
    right; exists d, m, (clock w); split; [reflexivity | apply lookup_set_same].
Qed.

Lemma copy_new_file_step x Rc w :
  good w Rc -> l x <> None -> (FS.is_dir (l x) = false -> FS.lookup x Rc = None) ->
  lands (copy_new_file left right x) w
        (fun _ Rc' w' => good w' Rc'
                         /\ T4 x (FS.lookup x Rc) (FS.lookup x Rc') /\ frame x Rc Rc').
Proof.
  intros Hg Hl Hr. pose proof (lookup_simple L x HL Hl) as Hx.
  unfold copy_new_file, T4. subst l. cbv beta in *.
  eapply lands_step; [apply isdir_run|].
  rewrite (good_stat_left w Rc x Hg Hx).
  destruct (FS.lookup x L) as [[d m|Lx]|] eqn:HLx; cbn [FS.is_dir negb];
    [ | | contradiction ].
  2:{ stay Rc Hg. }
  specialize (Hr eq_refl).
  eapply lands_step; [apply ignore_run|].
  rewrite (proj1 (proj2 Hg)). fold (ign2 left right x).
  destruct (ign2 left right x).
  { stay Rc Hg. }
  destruct (dry self).
  { stay Rc Hg. }
  eapply lands_step; [apply when_dbg_run|].
  destruct (good_set w Rc x (File d (clock w)) Hg Hx (wf_file _ _)) as (n & Hn & Hgood).
  exists tt, (FS.set x (File d (clock w)) Rc), (stamp w n),
    [Copyfile (OsPath.join left x) (OsPath.join right x) true].
  split.
  { apply copyfile_run. unfold copyfile_outcome.
    rewrite (good_stat_left w Rc x Hg Hx), (good_stat_right w Rc x Hg Hx), HLx, Hr, Hn,
      (paths_differ x Hx).
    reflexivity. }
  split; [apply Hgood; reflexivity|]. split; [|apply frame_set].
  right. exists d, m, (clock w). split; [reflexivity | apply lookup_set_same].
Qed.

Lemma remove_old_file_step x Rc w :
  good w Rc -> simple x ->
  lands (remove_old_file right x) w
        (fun _ Rc' w' => good w' Rc'
                         /\ T5 x (FS.lookup x Rc) (FS.lookup x Rc') /\ frame x Rc Rc').
Proof.
  intros Hg Hx. unfold remove_old_file, T5.
  eapply lands_step; [apply path_exists_run|].
  rewrite (good_stat_right w Rc x Hg Hx).
  destruct (FS.lookup x Rc) as [[d m|Rx]|] eqn:HRx; cbn [FS.is_some negb].
  3:{ stay Rc Hg. }
  2:{ eapply lands_step; [apply isdir_run|].
      rewrite (good_stat_right w Rc x Hg Hx), HRx. cbn [FS.is_dir].
      stay Rc Hg. }
  eapply lands_step; [apply isdir_run|].
  rewrite (good_stat_right w Rc x Hg Hx), HRx. cbn [FS.is_dir].
  eapply lands_step; [apply ignore_run|].
  rewrite (proj1 (proj2 Hg)). fold (ign1 right x).
  destruct (ign1 right x).
  { stay Rc Hg. }
  destruct (dry self).
  { stay Rc Hg. }
  eapply lands_step; [apply when_dbg_run|].
  destruct (good_unset w Rc x (File d m) Hg Hx HRx) as (n & Hn & Hgood).
  exists tt, (FS.unset x Rc), (with_fs w n), [Remove (OsPath.join right x) true].
  split; [now apply remove_run|].
  split; [apply Hgood; reflexivity|]. split; [|apply frame_unset].
  right. apply lookup_unset_same.
Qed.

Definition T6 (x : string) (o o' : option node) : Prop :=
  exists Lx Rx, l x = Some (Dir Lx) /\ o' = Some (Dir Rx)
                /\ Noop (OsPath.join left x) (OsPath.join right x) Lx Rx.

(** What one run makes of the managed entry [x]: [l] on the deployed side,
    [r] on the managed side before the run and [r'] after it. *)
Definition fate (x : string) (l r r' : option node) : Prop :=
  match l, r with
  | Some (File d _), None =>
      (r' = None /\ (dry self = true \/ ign2 left right x = true))
      \/ exists t, r' = Some (File d t)
  | Some (Dir Lx), None =>
      (r' = None /\ (dry self = true \/ ign2 left right x = true))
      \/ r' = Some (Dir Lx)
  | None, Some (File _ _) =>
      (r' = r /\ (dry self = true \/ ign1 right x = true)) \/ r' = None
  | None, Some (Dir _) =>
      (r' = r /\ (dry self = true \/ ign1 right x = true
                  \/ yes (rm_prompt (OsPath.join right x)) = false))
      \/ r' = None
  | Some (File d m), Some (File d2 m2) =>
      if cmp_nodes true (File d m) (File d2 m2) then r' = r
      else (r' = r /\ (dry self = true \/ ign2 left right x = true
                       \/ is_template X r = true
                       \/ yes (overwrite_prompt (OsPath.join left x)
                                                (OsPath.join right x)) = false))
           \/ exists t, r' = Some (File d t)
  | Some (File d _), Some (Dir _) => r' = r \/ exists t, r' = Some (File d t)
  | Some (Dir _), Some (File _ _) => r' = r
  | Some (Dir _), Some (Dir _) => exists Rx', r' = Some (Dir Rx')
  | None, None => r' = None
  end.

Hypothesis IH : forall x Lx, FS.lookup x L = Some (Dir Lx) -> Settles Lx.

Lemma descend_step x Lx Rx Rc w :
  good w Rc -> FS.lookup x L = Some (Dir Lx) -> FS.lookup x Rc = Some (Dir Rx) ->
  lands (descend (x, dircmp_node (OsPath.join left x) (OsPath.join right x) (Dir Lx) Rx)) w
        (fun _ Rc' w' => good w' Rc'
                         /\ T6 x (FS.lookup x Rc) (FS.lookup x Rc') /\ frame x Rc Rc').
Proof.
  intros Hg HLx HRx.
  assert (Hx : simple x) by (apply (lookup_simple L x HL); congruence).
  assert (HwR : wf (Dir Rx)) by (apply (wf_lookup Rc x (Dir Rx) (proj2 (proj2 Hg)) HRx)).
  destruct (IH x Lx HLx (OsPath.join left x) (OsPath.join right x) Rx w HwR)
    as (R' & w' & evs & Hrun & Hwr & Hi & Hwf & Hnoop).
  { rewrite !(comps_join _ x Hx). now apply diverge_app. }
  { exact (proj1 (proj2 Hg)). }
  { now rewrite (good_stat_left w Rc x Hg Hx). }
  { now rewrite (good_stat_right w Rc x Hg Hx). }
  unfold descend. eapply lands_step; [exact Hrun|].
  destruct (good_set w Rc x (Dir R') Hg Hx Hwf) as (n & Hn & Hgood).
  apply lands_ret with (Rc := FS.set x (Dir R') Rc).
  split; [apply Hgood; [congruence | rewrite (proj1 (proj2 Hg)); exact Hi]|].
  split; [|apply frame_set].
  exists Lx, R'. split; [exact HLx|]. split; [apply lookup_set_same | exact Hnoop].
Qed.

Lemma loop_lands {A} (key : A -> string) (body : A -> M unit)
      (T : A -> option node -> option node -> Prop) (xs : list A) R0 w :
  NoDup (map key xs) ->
  (forall a Rc w, In a xs -> good w Rc ->
     FS.lookup (key a) Rc = FS.lookup (key a) R0 ->
     lands (body a) w
           (fun _ Rc' w' => good w' Rc'
                            /\ T a (FS.lookup (key a) Rc) (FS.lookup (key a) Rc')
                            /\ frame (key a) Rc Rc')) ->
  good w R0 ->
  lands (forM_ body xs) w
        (fun _ R' w' => good w' R'
           /\ (forall a, In a xs -> T a (FS.lookup (key a) R0) (FS.lookup (key a) R'))
           /\ (forall y, ~ In y (map key xs) -> FS.lookup y R' = FS.lookup y R0)).
Proof.
  intros Hnd Hbody Hg.
  destruct (forM_pointwise key body T good xs Hnd R0) with (w := w)
    as (R' & w' & evs & Hrun & H); [|exact Hg|].
  - intros a Rc w0 Ha Hg0 Hsame.
    destruct (Hbody a Rc w0 Ha Hg0 Hsame) as ([] & Rc' & w' & evs & Hrun & H).
    exists Rc', w', evs. split; [exact Hrun | exact H].
  - exists tt, R', w', evs. split; [exact Hrun | exact H].
Qed.

Section Entries.

Variables R R1 R2 R3 R4 R5 R6 : FS.listing.
Hypothesis HR : wf (Dir R).

Let lo := left_only_of L R.
Let ro := right_only_of L R.
Let dl := diff_files_of L R ++ [] ++ common_funny_of L R.
Let subs := subdirs_of left right R L.

Hypothesis F1 : forall x, In x lo -> T1 x (FS.lookup x R) (FS.lookup x R1).
Hypothesis O1 : forall y, ~ In y lo -> FS.lookup y R1 = FS.lookup y R.
Hypothesis F2 : forall x, In x ro -> T2 x (FS.lookup x R1) (FS.lookup x R2).
Hypothesis O2 : forall y, ~ In y ro -> FS.lookup y R2 = FS.lookup y R1.
Hypothesis F3 : forall x, In x dl -> T3 x (FS.lookup x R2) (FS.lookup x R3).
Hypothesis O3 : forall y, ~ In y dl -> FS.lookup y R3 = FS.lookup y R2.
Hypothesis F4 : forall x, In x lo -> T4 x (FS.lookup x R3) (FS.lookup x R4).
Hypothesis O4 : forall y, ~ In y lo -> FS.lookup y R4 = FS.lookup y R3.
Hypothesis F5 : forall x, In x ro -> T5 x (FS.lookup x R4) (FS.lookup x R5).
Hypothesis O5 : forall y, ~ In y ro -> FS.lookup y R5 = FS.lookup y R4.
Hypothesis F6 : forall a, In a subs ->
                          T6 (fst a) (FS.lookup (fst a) R5) (FS.lookup (fst a) R6).
Hypothesis O6 : forall y, ~ In y (map fst subs) -> FS.lookup y R6 = FS.lookup y R5.

Lemma not_lo x : FS.lookup x R <> None -> ~ In x lo.
Proof. intros H Hin. apply in_left_only in Hin. tauto. Qed.

Lemma not_lo' x : FS.lookup x L = None -> ~ In x lo.
Proof. intros H Hin. apply in_left_only in Hin. tauto. Qed.

Lemma not_ro x : FS.lookup x L <> None -> ~ In x ro.
Proof. intros H Hin. apply in_right_only in Hin. tauto. Qed.

Lemma not_ro' x : FS.lookup x R = None -> ~ In x ro.
Proof. intros H Hin. apply in_right_only in Hin. tauto. Qed.

Lemma in_dl x :
  In x dl <->
  hidden x = false /\ exists a b,
    FS.lookup x L = Some a /\ FS.lookup x R = Some b
    /\ (FS.is_dir (Some a) = negb (FS.is_dir (Some b))
        \/ (FS.is_file (Some a) = true /\ FS.is_file (Some b) = true
            /\ cmp_nodes true a b = false)).
Proof.
  unfold dl. rewrite in_app_iff. cbn [app]. rewrite in_diff_files, in_common_funny.
  split.
  - intros [(H & a & b & Ha & Hb & Hc)|(H & a & b & Ha & Hb & Hc)];
      (split; [exact H|]); exists a, b; tauto.
  - intros (H & a & b & Ha & Hb & [Hc|Hc]); [right|left];
      (split; [exact H|]); exists a, b; tauto.
Qed.

Lemma not_dl x : FS.lookup x L = None \/ FS.lookup x R = None -> ~ In x dl.
Proof.
  intros H Hin. apply in_dl in Hin as (_ & a & b & Ha & Hb & _).
  destruct H; congruence.
Qed.

Lemma not_subs x :
  (forall Lx Rx, FS.lookup x L = Some (Dir Lx) -> FS.lookup x R = Some (Dir Rx) -> False) ->
  ~ In x (map fst subs).
Proof.
  intros H Hin. apply in_subdirs_names in Hin as (Lx & Rx & H1 & H2).
  apply (H Lx Rx); [|exact H2]. apply In_lookup; [|exact H1]. now inversion HL.
Qed.

Lemma new_file_absent x :
  In x lo -> FS.is_dir (FS.lookup x L) = false -> FS.lookup x R3 = None.
Proof.
  intros Hlo Hf. pose proof (proj1 (in_left_only x L R) Hlo) as (_ & H1 & H2).
  rewrite O3 by (apply not_dl; now right). rewrite O2 by (now apply not_ro').
  destruct (F1 x Hlo) as [[E _]|[E _]]; [congruence|].
  unfold l in E. congruence.
Qed.

Lemma common_dir_kept x Lx Rx :
  FS.lookup x L = Some (Dir Lx) -> FS.lookup x R = Some (Dir Rx) ->
  FS.lookup x R5 = Some (Dir Rx).
Proof.
  intros HLx HRx.
  rewrite O5 by (apply not_ro; congruence). rewrite O4 by (apply not_lo; congruence).
  rewrite O3, O2, O1; [exact HRx | apply not_lo; congruence | apply not_ro; congruence |].
  intros Hin. apply in_dl in Hin as (_ & a & b & Ha & Hb & [Hc|(Hc & _)]);
    rewrite HLx in Ha; rewrite HRx in Hb; inversion Ha; inversion Hb; subst;
    cbn in Hc; discriminate.
Qed.

Lemma entries_settled x :
  hidden x = false -> quiet_entry left right x (FS.lookup x L) (FS.lookup x R6).
Proof.
  intros Hh.
  pose proof (F1 x) as G1. pose proof (F2 x) as G2. pose proof (F3 x) as G3.
  pose proof (F4 x) as G4. pose proof (F5 x) as G5.
  pose proof (O1 x) as P1. pose proof (O2 x) as P2. pose proof (O3 x) as P3.
  pose proof (O4 x) as P4. pose proof (O5 x) as P5. pose proof (O6 x) as P6.
  pose proof (not_lo x) as N1. pose proof (not_lo' x) as N1'.
  pose proof (not_ro x) as N2. pose proof (not_ro' x) as N2'.
  pose proof (not_dl x) as N3. pose proof (not_subs x) as N6.
  pose proof (proj2 (in_left_only x L R)) as I1.
  pose proof (proj2 (in_right_only x L R)) as I2.
  pose proof (proj2 (in_dl x)) as I3. fold lo in I1. fold ro in I2.
  unfold T1, T2, T3, T4, T5, l in G1, G2, G3, G4, G5.
  destruct (FS.lookup x L) as [a|] eqn:HLx, (FS.lookup x R) as [b|] eqn:HRx.
  - (* on both sides *)
    assert (E1 : FS.lookup x R1 = Some b) by (apply P1, N1; discriminate).
    assert (E2 : FS.lookup x R2 = Some b)
      by (rewrite P2; [exact E1 | apply N2; discriminate]).
    assert (E4 : FS.lookup x R4 = FS.lookup x R3) by (apply P4, N1; discriminate).
    assert (E5 : FS.lookup x R5 = FS.lookup x R3)
      by (rewrite P5; [exact E4 | apply N2; discriminate]).
    rewrite E2 in G3, P3.
    clear G1 G2 G4 G5 P1 P2 P4 P5 I1 I2 N1 N1' N2 N2' E1 E2 E4.
    destruct a as [d m|Lx], b as [d2 m2|Rx].
    + rewrite P6, E5 by (apply N6; discriminate).
      destruct (cmp_nodes true (File d m) (File d2 m2)) eqn:Hcmp.
      * rewrite P3; [unfold quiet_entry; now left|].
        intros Hin. apply in_dl in Hin as (_ & a & b & Ha & Hb & [Hc|(_ & _ & Hc)]);
          rewrite HLx in Ha; rewrite HRx in Hb; inversion Ha; inversion Hb; subst;
          [cbn in Hc; discriminate | congruence].
      * destruct G3 as [[E Hc]|(d' & m' & t & E1 & E2)].
        { apply I3. split; [exact Hh|]. exists (File d m), (File d2 m2).
          repeat split; auto. }
        { rewrite E. unfold quiet_entry. right. now apply Hc. }
        { rewrite E2. inversion E1; subst. unfold quiet_entry. left. apply cmp_same_data. }
    + rewrite P6, E5 by (apply N6; discriminate).
      destruct G3 as [[E Hc]|(d' & m' & t & E1 & E2)].
      { apply I3. split; [exact Hh|]. exists (File d m), (Dir Rx). split; [reflexivity|].
        split; [reflexivity|]. now left. }
      { rewrite E. exact I. }
      { rewrite E2. inversion E1; subst. unfold quiet_entry. left. apply cmp_same_data. }
    + rewrite P6, E5 by (apply N6; discriminate).
      destruct G3 as [[E Hc]|(d' & m' & t & E1 & E2)].
      { apply I3. split; [exact Hh|]. exists (Dir Lx), (File d2 m2). split; [reflexivity|].
        split; [reflexivity|]. now left. }
      { rewrite E. exact I. }
      { discriminate. }
    + assert (Hsame : FS.lookup x R5 = Some (Dir Rx)).
      { rewrite E5. apply P3. intros Hin.
        apply in_dl in Hin as (_ & a & b & Ha & Hb & [Hc|(Hc & _)]);
          rewrite HLx in Ha; rewrite HRx in Hb; inversion Ha; inversion Hb; subst;
          cbn in Hc; discriminate. }
      destruct (F6 (x, dircmp_node (OsPath.join left x) (OsPath.join right x) (Dir Lx) Rx))
        as (Lx' & Rx' & E1 & E2 & Hnoop).
      { now apply subdirs_complete. }
      cbn [fst] in *. rewrite E2. unfold l in E1. rewrite HLx in E1.
      inversion E1; subst. exact Hnoop.
  - (* only deployed *)
    assert (Hlo : In x lo) by (apply I1; repeat split; congruence).
    specialize (G1 Hlo). specialize (G4 Hlo).
    assert (E2 : FS.lookup x R2 = FS.lookup x R1) by (now apply P2, N2').
    assert (E3 : FS.lookup x R3 = FS.lookup x R1)
      by (rewrite P3; [exact E2 | apply N3; now right]).
    assert (E6 : FS.lookup x R6 = FS.lookup x R4).
    { rewrite P6 by (apply N6; intros; congruence). now apply P5, N2'. }
    rewrite E6. rewrite E3 in G4.
    clear G2 G3 G5 P1 P2 P3 P4 P5 P6 I1 I2 I3 N1 N1' N2 N2' N3 N6 E2 E3 E6.
    destruct G1 as [[E1 C1]|[C1 E1]];
      (destruct G4 as [[E4 C4]|(d' & m' & t & E4 & E4')];
       [rewrite E4, E1 | rewrite E4'; inversion E4; subst]).
    + destruct a as [d m|Lx]; unfold quiet_entry; [now apply C4 | now apply C1].
    + unfold quiet_entry. left. apply cmp_same_data.
    + destruct a as [d m|Lx]; [discriminate|]. unfold quiet_entry.
      apply (same_tree_noop (Dir Lx)); [|reflexivity].
      now apply (wf_lookup L x (Dir Lx) HL HLx).
    + discriminate.
  - (* only managed *)
    assert (Hro : In x ro) by (apply I2; repeat split; congruence).
    specialize (G2 Hro). specialize (G5 Hro).
    assert (E1 : FS.lookup x R1 = Some b) by (now apply P1, N1').
    assert (E4 : FS.lookup x R4 = FS.lookup x R2).
    { rewrite P4 by (now apply N1'). apply P3, N3. now left. }
    rewrite P6 by (apply N6; intros; congruence).
    rewrite E1 in G2. rewrite E4 in G5.
    clear G1 G3 G4 P1 P2 P3 P4 P5 P6 I1 I2 I3 N1 N1' N2 N2' N3 N6 E1 E4.
    destruct G2 as [[E2 C2]|E2]; (destruct G5 as [[E5 C5]|E5]; rewrite E5; [|exact I]);
      rewrite E2; [|exact I].
    rewrite E2 in C5.
    destruct b as [d m|Rx]; unfold quiet_entry; [now apply C5 | now apply C2].
  - (* on neither side *)
    rewrite P6 by (apply N6; intros; congruence).
    rewrite P5 by (now apply N2').
    rewrite P4 by (now apply N1').
    rewrite P3 by (apply N3; now left).
    rewrite P2 by (now apply N2').
    rewrite P1 by (now apply N1').
    exact I.
Qed.

Lemma entries_fate x :
  hidden x = false -> fate x (FS.lookup x L) (FS.lookup x R) (FS.lookup x R6).
Proof.
  intros Hh.
  pose proof (F1 x) as G1. pose proof (F2 x) as G2. pose proof (F3 x) as G3.
  pose proof (F4 x) as G4. pose proof (F5 x) as G5.
  pose proof (O1 x) as P1. pose proof (O2 x) as P2. pose proof (O3 x) as P3.
  pose proof (O4 x) as P4. pose proof (O5 x) as P5. pose proof (O6 x) as P6.
  pose proof (not_lo x) as N1. pose proof (not_lo' x) as N1'.
  pose proof (not_ro x) as N2. pose proof (not_ro' x) as N2'.
  pose proof (not_dl x) as N3. pose proof (not_subs x) as N6.
  pose proof (proj2 (in_left_only x L R)) as I1.
  pose proof (proj2 (in_right_only x L R)) as I2.
  pose proof (proj2 (in_dl x)) as I3. fold lo in I1. fold ro in I2.
  unfold T1, T2, T3, T4, T5, l in G1, G2, G3, G4, G5.
  destruct (FS.lookup x L) as [a|] eqn:HLx, (FS.lookup x R) as [b|] eqn:HRx.
  - (* on both sides *)
    assert (E1 : FS.lookup x R1 = Some b) by (apply P1, N1; discriminate).
    assert (E2 : FS.lookup x R2 = Some b)
      by (rewrite P2; [exact E1 | apply N2; discriminate]).
    assert (E4 : FS.lookup x R4 = FS.lookup x R3) by (apply P4, N1; discriminate).
    assert (E5 : FS.lookup x R5 = FS.lookup x R3)
      by (rewrite P5; [exact E4 | apply N2; discriminate]).
    rewrite E2 in G3, P3.
    clear G1 G2 G4 G5 P1 P2 P4 P5 I1 I2 N1 N1' N2 N2' E1 E2 E4.
    destruct a as [d m|Lx], b as [d2 m2|Rx]; unfold fate.
    + rewrite P6, E5 by (apply N6; discriminate).
      destruct (cmp_nodes true (File d m) (File d2 m2)) eqn:Hcmp.
      * apply P3.
        intros Hin. apply in_dl in Hin as (_ & a & b & Ha & Hb & [Hc|(_ & _ & Hc)]);
          rewrite HLx in Ha; rewrite HRx in Hb; inversion Ha; inversion Hb; subst;
          [cbn in Hc; discriminate | congruence].
      * destruct G3 as [[E Hc]|(d' & m' & t & E1 & E2)].
        { apply I3. split; [exact Hh|]. exists (File d m), (File d2 m2).
          repeat split; auto. }
        { left. split; [exact E | now apply Hc]. }
        { right. exists t. inversion E1; subst. exact E2. }
    + rewrite P6, E5 by (apply N6; discriminate).
      destruct G3 as [[E Hc]|(d' & m' & t & E1 & E2)].
      { apply I3. split; [exact Hh|]. exists (File d m), (Dir Rx). split; [reflexivity|].
        split; [reflexivity|]. now left. }
      { left. exact E. }
      { right. exists t. inversion E1; subst. exact E2. }
    + rewrite P6, E5 by (apply N6; discriminate).
      destruct G3 as [[E Hc]|(d' & m' & t & E1 & E2)].
      { apply I3. split; [exact Hh|]. exists (Dir Lx), (File d2 m2). split; [reflexivity|].
        split; [reflexivity|]. now left. }
      { exact E. }
      { discriminate. }
    + destruct (F6 (x, dircmp_node (OsPath.join left x) (OsPath.join right x) (Dir Lx) Rx))
        as (Lx' & Rx' & E1 & E2 & Hnoop).
      { now apply subdirs_complete. }
      cbn [fst] in *. exists Rx'. exact E2.
  - (* only deployed *)
    assert (Hlo : In x lo) by (apply I1; repeat split; congruence).
    specialize (G1 Hlo). specialize (G4 Hlo).
    assert (E2 : FS.lookup x R2 = FS.lookup x R1) by (now apply P2, N2').
    assert (E3 : FS.lookup x R3 = FS.lookup x R1)
      by (rewrite P3; [exact E2 | apply N3; now right]).
    assert (E6 : FS.lookup x R6 = FS.lookup x R4).
    { rewrite P6 by (apply N6; intros; congruence). now apply P5, N2'. }
    rewrite E6. rewrite E3 in G4.
    clear G2 G3 G5 P1 P2 P3 P4 P5 P6 I1 I2 I3 N1 N1' N2 N2' N3 N6 E2 E3 E6.
    destruct G1 as [[E1 C1]|[C1 E1]];
      (destruct G4 as [[E4 C4]|(d' & m' & t & E4 & E4')];
       [rewrite E4, E1 | rewrite E4'; inversion E4; subst]).
    + destruct a as [d m|Lx]; unfold fate; left;
        (split; [reflexivity|]); [now apply C4 | now apply C1].
    + unfold fate. right. now exists t.
    + destruct a as [d m|Lx]; [discriminate|]. unfold fate. now right.
    + discriminate.
  - (* only managed *)
    assert (Hro : In x ro) by (apply I2; repeat split; congruence).
    specialize (G2 Hro). specialize (G5 Hro).
    assert (E1 : FS.lookup x R1 = Some b) by (now apply P1, N1').
    assert (E4 : FS.lookup x R4 = FS.lookup x R2).
    { rewrite P4 by (now apply N1'). apply P3, N3. now left. }
    rewrite P6 by (apply N6; intros; congruence).
    rewrite E1 in G2. rewrite E4 in G5.
    clear G1 G3 G4 P1 P2 P3 P4 P5 P6 I1 I2 I3 N1 N1' N2 N2' N3 N6 E1 E4.
    assert (Hgone : FS.lookup x R5 = None ->
                    fate x None (Some b) (FS.lookup x R5)).
    { intros E. rewrite E. destruct b; unfold fate; now right. }
    destruct G5 as [[E5 C5]|E5]; [|now apply Hgone].
    destruct G2 as [[E2 C2]|E2]; [|apply Hgone; congruence].
    rewrite E5, E2. rewrite E2 in C5.
    destruct b as [d m|Rx]; unfold fate; left; (split; [reflexivity|]);
      [now apply C5 | now apply C2].
  - (* on neither side *)
    rewrite P6 by (apply N6; intros; congruence).
    rewrite P5 by (now apply N2').
    rewrite P4 by (now apply N1').
    rewrite P3 by (apply N3; now left).
    rewrite P2 by (now apply N2').
    rewrite P1 by (now apply N1').
    reflexivity.
Qed.

End Entries.

Lemma NoDup_diff_list R :
  NoDup (diff_files_of L R ++ [] ++ common_funny_of L R).
Proof.
  cbn [app]. apply NoDup_app.
  - unfold diff_files_of, common_files_of, common.
    now apply NoDup_filter, NoDup_filter, NoDup_filter, NoDup_visible.
  - unfold common_funny_of, common. now apply NoDup_filter, NoDup_filter, NoDup_visible.
  - intros x H1 H2. apply in_diff_files in H1 as (_ & a & b & Ha & Hb & Hfa & Hfb & _).
    apply in_common_funny in H2 as (_ & a' & b' & Ha' & Hb' & Hc).
    rewrite Ha in Ha'. rewrite Hb in Hb'. inversion Ha'; inversion Hb'; subst.
    destruct a', b'; cbn in *; discriminate.
Qed.

Lemma level_settles R w :
  good w R ->
  lands (_merge_dirs X self (dircmp_node left right (Dir L) R)) w
        (fun a R' w' => a = true /\ good w' R' /\ Noop left right L R').
Proof.
  intros Hg. pose proof (proj2 (proj2 Hg)) as HR.
  rewrite dircmp_node_dir, merge_dirs_passes.
  eapply lands_step; [apply when_dbg_run|].
  eapply lands_step; [apply ignore_run|]. rewrite (proj1 (proj2 Hg)).
  destruct (must_ignore X [left; right] igs) eqn:Hign.
  { apply lands_ret with (Rc := R). split; [reflexivity|]. split; [exact Hg|].
    now apply ignored_noop. }
  eapply lands_step; [reflexivity|].
  eapply lands_seq.
  { apply (loop_lands (fun x => x) (copy_new_dir left right) T1 (left_only_of L R) R w).
    - rewrite map_id. now apply NoDup_filter, NoDup_visible.
    - intros x Rc w0 Hx Hgc Hsame. apply in_left_only in Hx as (_ & H1 & H2).
      apply copy_new_dir_step; [exact Hgc | exact H1 | congruence].
    - exact Hg. }
  intros [] R1 w1 (Hg1 & F1 & O1). rewrite map_id in O1.
  eapply lands_seq.
  { apply (loop_lands (fun x => x) (remove_old_dir right) T2 (right_only_of L R) R1 w1).
    - rewrite map_id. now apply NoDup_filter, NoDup_visible.
    - intros x Rc w0 Hx Hgc _. apply in_right_only in Hx as (_ & _ & H2).
      apply remove_old_dir_step; [exact Hgc | apply (lookup_simple R x HR H2)].
    - exact Hg1. }
  intros [] R2 w2 (Hg2 & F2 & O2). rewrite map_id in O2.
  eapply lands_seq.
  { apply (loop_lands (fun x => x) (sync_differing left right) T3
                      (diff_files_of L R ++ [] ++ common_funny_of L R) R2 w2).
    - rewrite map_id. apply NoDup_diff_list.
    - intros x Rc w0 Hx Hgc _. apply in_dl in Hx as (_ & a & b & Ha & _).
      apply sync_differing_step; [exact Hgc | apply (lookup_simple L x HL); congruence].
    - exact Hg2. }
  intros [] R3 w3 (Hg3 & F3 & O3). rewrite map_id in O3.
  eapply lands_seq.
  { apply (loop_lands (fun x => x) (copy_new_file left right) T4 (left_only_of L R) R3 w3).
    - rewrite map_id. now apply NoDup_filter, NoDup_visible.
    - intros x Rc w0 Hx Hgc Hsame.
      apply copy_new_file_step; [exact Hgc | apply in_left_only in Hx; tauto |].
      intros Hf. rewrite Hsame. now apply (new_file_absent R R1 R2 R3 F1 O2 O3).
    - exact Hg3. }
  intros [] R4 w4 (Hg4 & F4 & O4). rewrite map_id in O4.
  eapply lands_seq.
  { apply (loop_lands (fun x => x) (remove_old_file right) T5 (right_only_of L R) R4 w4).
    - rewrite map_id. now apply NoDup_filter, NoDup_visible.
    - intros x Rc w0 Hx Hgc _. apply in_right_only in Hx as (_ & _ & H2).
      apply remove_old_file_step; [exact Hgc | apply (lookup_simple R x HR H2)].
    - exact Hg4. }
  intros [] R5 w5 (Hg5 & F5 & O5). rewrite map_id in O5.
  eapply lands_seq.
  { apply (loop_lands fst (descend) (fun a => T6 (fst a)) (subdirs_of left right R L) R5 w5).
    - apply NoDup_subdirs. now inversion HL.
    - intros [x sub] Rc w0 Hx Hgc Hsame. cbn [fst] in *.
      apply in_subdirs_of in Hx as (Lx & Rx & H1 & H2 & _ & ->).
      assert (HLx : FS.lookup x L = Some (Dir Lx)).
      { apply In_lookup; [now inversion HL | exact H1]. }
      apply descend_step; [exact Hgc | exact HLx |].
      rewrite Hsame.
      now apply (common_dir_kept R R1 R2 R3 R4 R5 O1 O2 O3 O4 O5 x Lx Rx).
    - exact Hg5. }
  intros [] R6 w6 (Hg6 & F6 & O6).
  apply lands_ret with (Rc := R6). split; [reflexivity|]. split; [exact Hg6|].
  apply settled_noop; [exact HL | exact (proj2 (proj2 Hg6)) |].
  intros x Hh.
  now apply (entries_settled R R1 R2 R3 R4 R5 R6 F1 O1 F2 O2 F3 O3 F4 O4 F5 O5 F6 O6).
Qed.

Lemma level_fate R w :
  good w R -> must_ignore X [left; right] igs = false ->
  lands (_merge_dirs X self (dircmp_node left right (Dir L) R)) w
        (fun a R' w' => a = true /\ good w' R'
           /\ forall x, hidden x = false ->
                         fate x (FS.lookup x L) (FS.lookup x R) (FS.lookup x R')).
Proof.
  intros Hg Hign. pose proof (proj2 (proj2 Hg)) as HR.
  rewrite dircmp_node_dir, merge_dirs_passes.
  eapply lands_step; [apply when_dbg_run|].
  eapply lands_step; [apply ignore_run|]. rewrite (proj1 (proj2 Hg)).
  rewrite Hign.
  eapply lands_step; [reflexivity|].
  eapply lands_seq.
  { apply (loop_lands (fun x => x) (copy_new_dir left right) T1 (left_only_of L R) R w).
    - rewrite map_id. now apply NoDup_filter, NoDup_visible.
    - intros x Rc w0 Hx Hgc Hsame. apply in_left_only in Hx as (_ & H1 & H2).
      apply copy_new_dir_step; [exact Hgc | exact H1 | congruence].
    - exact Hg. }
  intros [] R1 w1 (Hg1 & F1 & O1). rewrite map_id in O1.
  eapply lands_seq.
  { apply (loop_lands (fun x => x) (remove_old_dir right) T2 (right_only_of L R) R1 w1).
    - rewrite map_id. now apply NoDup_filter, NoDup_visible.
    - intros x Rc w0 Hx Hgc _. apply in_right_only in Hx as (_ & _ & H2).
      apply remove_old_dir_step; [exact Hgc | apply (lookup_simple R x HR H2)].
    - exact Hg1. }
  intros [] R2 w2 (Hg2 & F2 & O2). rewrite map_id in O2.
  eapply lands_seq.
  { apply (loop_lands (fun x => x) (sync_differing left right) T3
                      (diff_files_of L R ++ [] ++ common_funny_of L R) R2 w2).
    - rewrite map_id. apply NoDup_diff_list.
    - intros x Rc w0 Hx Hgc _. apply in_dl in Hx as (_ & a & b & Ha & _).
      apply sync_differing_step; [exact Hgc | apply (lookup_simple L x HL); congruence].
    - exact Hg2. }
  intros [] R3 w3 (Hg3 & F3 & O3). rewrite map_id in O3.
  eapply lands_seq.
  { apply (loop_lands (fun x => x) (copy_new_file left right) T4 (left_only_of L R) R3 w3).
    - rewrite map_id. now apply NoDup_filter, NoDup_visible.
    - intros x Rc w0 Hx Hgc Hsame.
      apply copy_new_file_step; [exact Hgc | apply in_left_only in Hx; tauto |].
      intros Hf. rewrite Hsame. now apply (new_file_absent R R1 R2 R3 F1 O2 O3).
    - exact Hg3. }
  intros [] R4 w4 (Hg4 & F4 & O4). rewrite map_id in O4.
  eapply lands_seq.
  { apply (loop_lands (fun x => x) (remove_old_file right) T5 (right_only_of L R) R4 w4).
    - rewrite map_id. now apply NoDup_filter, NoDup_visible.
    - intros x Rc w0 Hx Hgc _. apply in_right_only in Hx as (_ & _ & H2).
      apply remove_old_file_step; [exact Hgc | apply (lookup_simple R x HR H2)].
    - exact Hg4. }
  intros [] R5 w5 (Hg5 & F5 & O5). rewrite map_id in O5.
  eapply lands_seq.
  { apply (loop_lands fst (descend) (fun a => T6 (fst a)) (subdirs_of left right R L) R5 w5).
    - apply NoDup_subdirs. now inversion HL.
    - intros [x sub] Rc w0 Hx Hgc Hsame. cbn [fst] in *.
      apply in_subdirs_of in Hx as (Lx & Rx & H1 & H2 & _ & ->).
      assert (HLx : FS.lookup x L = Some (Dir Lx)).
      { apply In_lookup; [now inversion HL | exact H1]. }
      apply descend_step; [exact Hgc | exact HLx |].
      rewrite Hsame.
      now apply (common_dir_kept R R1 R2 R3 R4 R5 O1 O2 O3 O4 O5 x Lx Rx).
    - exact Hg5. }
  intros [] R6 w6 (Hg6 & F6 & O6).
  apply lands_ret with (Rc := R6). split; [reflexivity|]. split; [exact Hg6|].
  intros x Hh.
  now apply (entries_fate R R1 R2 R3 R4 R5 R6 F1 O1 F2 O2 F3 O3 F4 O4 F5 O5 F6 O6).
Qed.

End Level.

End Merge.

(** ** The pair is settled after one run *)

Section Settled.

Variable X : externals.
Variable self : Updater.
Variable igs : list string.

Hypothesis Hsp : showpatch self = false.
Hypothesis Hreply : forall n m msg, ask_reply X n msg = ask_reply X m msg.

Lemma merge_settles n : wf n -> forall L, n = Dir L -> Settles X self igs L.
Proof.
  induction n as [d m|es IH] using node_induction; intros Hwf L E; [discriminate|].
  inversion E; subst L. clear E.
  intros left right R w HR Hdiv Hi HsL HsR.
  destruct (level_settles X self igs Hsp Hreply left right es (fs w) Hwf Hdiv HsL) with (R := R) (w := w)
    as (a & R' & w' & evs & Hrun & -> & Hg & Hnoop).
  - intros x Lx Hx. rewrite Forall_forall in IH. apply (IH (x, Dir Lx)).
    + now apply lookup_In.
    + now apply (wf_lookup es x (Dir Lx) Hwf Hx).
    + reflexivity.
  - split; [now apply write_get_id | split; [exact Hi | exact HR]].
  - exists R', w', evs. split; [exact Hrun|]. destruct Hg as (H1 & H2 & H3). auto.
Qed.

End Settled.

(** ** Checking a tree and a pair of paths by evaluation *)

Definition simpleb (x : string) : bool :=
  negb (String.eqb x "") && negb (String.eqb x ".")
  && negb (Str.contains_char OsPath.sepc x).

Fixpoint nodupb (xs : list string) : bool :=
  match xs with
  | [] => true
  | x :: xs' => negb (mem x xs') && nodupb xs'
  end.

Fixpoint wfb (n : node) : bool :=
  match n with
  | File _ _ => true
  | Dir es =>
      nodupb (FS.names es) && forallb simpleb (FS.names es)
      && forallb (fun p => wfb (snd p)) es
  end.

Fixpoint divergeb (a b : list string) : bool :=
  match a, b with
  | x :: a', y :: b' => if String.eqb x y then divergeb a' b' else true
  | _, _ => false
  end.

Lemma simpleb_simple x : simpleb x = true -> simple x.
Proof.
  unfold simpleb, simple. rewrite !andb_true_iff, !negb_true_iff, !String.eqb_neq. tauto.
Qed.

Lemma nodupb_NoDup xs : nodupb xs = true -> NoDup xs.
Proof.
  induction xs as [|x xs IH]; cbn; [constructor|].
  rewrite andb_true_iff, negb_true_iff, mem_false. intros [H1 H2]. constructor; auto.
Qed.

Lemma wfb_wf n : wfb n = true -> wf n.
Proof.
  induction n as [d m|es IH] using node_induction; [constructor|].
  cbn [wfb]. rewrite !andb_true_iff, !forallb_forall. intros [[H1 H2] H3]. constructor.
  - now apply nodupb_NoDup.
  - apply Forall_forall. intros x Hx. now apply simpleb_simple, H2.
  - rewrite Forall_forall in *. intros p Hp. apply IH; auto.
Qed.

Lemma divergeb_diverge a : forall b, divergeb a b = true -> diverge a b.
Proof.
  induction a as [|x a IH]; intros [|y b]; cbn; try discriminate.
  destruct (String.eqb x y) eqn:E.
  - apply String.eqb_eq in E. subst y. intros H. now apply diverge_next, IH.
  - apply String.eqb_neq in E. intros _. now apply diverge_here.
Qed.

(** ** The cache of [filecmp] *)

(** Every file of the tree was last written before time [t]. *)
Inductive older (t : nat) : node -> Prop :=
| older_file d m : m < t -> older t (File d m)
| older_dir es : Forall (fun p => older t (snd p)) es -> older t (Dir es).

Fixpoint olderb (t : nat) (n : node) : bool :=
  match n with
  | File _ m => Nat.ltb m t
  | Dir es => forallb (fun p => olderb t (snd p)) es
  end.

Lemma olderb_older t n : olderb t n = true -> older t n.
Proof.
  induction n as [d m|es IH] using node_induction; cbn [olderb]; intros H.
  - constructor. now apply Nat.ltb_lt.
  - constructor. rewrite forallb_forall in H. rewrite Forall_forall in *.
    intros p Hp. apply IH; auto.
Qed.

(** No verdict of the cache was given for a second file stamped [t] or
    later. *)
Definition stamped_before (t : nat) (c : verdicts) : Prop :=
  Forall (fun e => snd (snd (fst e)) < t) c.

Lemma sig_eqb_eq s t : sig_eqb s t = true -> s = t.
Proof.
  destruct s as [[r1 z1] m1], t as [[r2 z2] m2]. cbn.
  rewrite !andb_true_iff. intros [[H1 H2] H3].
  apply Bool.eqb_prop in H1. apply Nat.eqb_eq in H2, H3. now subst.
Qed.

Lemma cache_get_In k c o :
  cache_get k c = Some o -> exists k', In (k', o) c /\ key_eqb k k' = true.
Proof.
  induction c as [|[k' o'] c IH]; cbn; [discriminate|].
  destruct (key_eqb k k') eqn:E.
  - intros H. inversion H; subst. exists k'. auto.
  - intros H. destruct (IH H) as (k2 & H1 & H2). exists k2. auto.
Qed.

(** The comparison with the cache answers as [cmp_nodes] does whenever the
    verdict it finds under the key, if there is one, is that of the bytes. *)
Lemma cmp_with_cache_sound c f1 f2 sh a b :
  (forall o, cache_get (f1, f2, _sig a, _sig b) c = Some o -> o = _do_cmp a b) ->
  fst (cmp_with_cache c f1 f2 sh a b) = cmp_nodes sh a b.
Proof.
  intros Hc. destruct a as [d1 m1|L], b as [d2 m2|R]; try reflexivity.
  unfold cmp_with_cache, cmp_nodes. cbn [_sig fst snd negb orb sig_eqb Bool.eqb andb].
  cbn [_sig] in Hc.
  destruct (Nat.eqb (String.length d1) (String.length d2)) eqn:Hz;
    destruct sh; destruct (Nat.eqb m1 m2); cbn [andb negb fst]; try reflexivity;
    (destruct (cache_get _ c) as [o|]; cbn [fst]; [exact (Hc o eq_refl) | reflexivity]).
Qed.

(** A file stamped [t] finds nothing in a cache stamped before [t]: after
    a write, the comparison is the one of the bytes. *)
Lemma cmp_with_cache_after_write c f1 f2 sh a d t :
  stamped_before t c ->
  fst (cmp_with_cache c f1 f2 sh a (File d t)) = cmp_nodes sh a (File d t).
Proof.
  intros Hc. apply cmp_with_cache_sound. intros o Hg.
  apply cache_get_In in Hg as ([[[g1 g2] t1] t2] & Hin & Hk).
  unfold stamped_before in Hc. rewrite Forall_forall in Hc.
  specialize (Hc _ Hin). cbn [fst snd] in Hc. unfold key_eqb in Hk.
  rewrite !andb_true_iff in Hk. destruct Hk as [_ Hk].
  apply sig_eqb_eq in Hk. subst t2. cbn in Hc. lia.
Qed.

(** Comparing a second file older than [t] keeps the cache stamped before
    [t]. *)
Lemma cmp_with_cache_stamps c f1 f2 sh a b t :
  stamped_before t c -> older t b ->
  stamped_before t (snd (cmp_with_cache c f1 f2 sh a b)).
Proof.
  intros Hc Hb. unfold cmp_with_cache.
  destruct b as [d m|es].
  2:{ cbn [_sig fst snd negb]. rewrite orb_true_r. exact Hc. }
  inversion Hb; subst.
  destruct (negb (fst (fst (_sig a))) || negb (fst (fst (_sig (File d m))))); [exact Hc|].
  destruct (sh && sig_eqb (_sig a) (_sig (File d m))); [exact Hc|].
  destruct (negb (Nat.eqb _ _)); [exact Hc|].
  destruct (cache_get _ c); [exact Hc|]. cbn [snd].
  apply Forall_cons; [cbn; assumption|].
  destruct (Nat.ltb 100 (length c)); [constructor | exact Hc].
Qed.

(** *** The comparison of two directories, with the cache *)

Definition todo_listed (left right : string) (R : FS.listing)
  : FS.listing -> list (string * (verdicts -> dircmp * verdicts)) :=
  fix subs (es : FS.listing) : list (string * (verdicts -> dircmp * verdicts)) :=
    match es with
    | [] => []
    | (x, n) :: es' =>
        match n, FS.lookup x R with
        | Dir _, Some (Dir Rx) =>
            if negb (hidden x) && mem x (visible R)
            then (x, fun c' =>
                       dircmp_node_with_cache
                         c' (OsPath.join left x) (OsPath.join right x) n Rx)
                   :: subs es'
            else subs es'
        | _, _ => subs es'
        end
    end.

Lemma dircmp_node_with_cache_dir c left right L R :
  dircmp_node_with_cache c left right (Dir L) R
  = let '(diff_files, c1) :=
      cmpfiles_with_cache c left right L R (common_files_of L R) in
    let '(subdirs, c2) :=
      subdirs_in_turn c1 (sorted_by fst (todo_listed left right R L)) in
    (Dircmp left right None (left_only_of L R) (right_only_of L R) diff_files []
            (common_funny_of L R) subdirs, c2).
Proof. reflexivity. Qed.

Section Cache.

Variables cl cr : list string.
Variable n : node.
Variable t : nat.

(** The verdicts the cache holds for the two sides of an entry of the
    pair, under the signatures the two files have now, are those of their
    bytes.  Only verdicts under two different signatures count: [cmp] is
    shallow in the updater and does not ask the cache otherwise. *)
Definition mirror_sound (c : verdicts) : Prop :=
  forall f1 f2 xs d1 m1 d2 m2 o,
    FS.comps f1 = cl ++ xs -> FS.comps f2 = cr ++ xs ->
    FS.get (FS.comps f1) n = Some (File d1 m1) ->
    FS.get (FS.comps f2) n = Some (File d2 m2) ->
    sig_eqb (_sig (File d1 m1)) (_sig (File d2 m2)) = false ->
    cache_get (f1, f2, _sig (File d1 m1), _sig (File d2 m2)) c = Some o ->
    o = String.eqb d1 d2.

Definition kept (c : verdicts) : Prop := mirror_sound c /\ stamped_before t c.

Lemma key_eqb_eq k k' : key_eqb k k' = true -> k = k'.
Proof.
  destruct k as [[[f1 f2] s1] s2], k' as [[[g1 g2] t1] t2]. unfold key_eqb.
  rewrite !andb_true_iff. intros [[[H1 H2] H3] H4].
  apply String.eqb_eq in H1, H2. apply sig_eqb_eq in H3, H4. now subst.
Qed.

Lemma cmp_with_cache_kept c q q' xs a b :
  kept c -> older t b ->
  FS.comps q = cl ++ xs -> FS.comps q' = cr ++ xs ->
  FS.get (FS.comps q) n = Some a -> FS.get (FS.comps q') n = Some b ->
  exists c', cmp_with_cache c q q' true a b = (cmp_nodes true a b, c') /\ kept c'.
Proof.
  intros [Hs Hst] Hb Hq Hq' Ha Hb'.
  assert (Hst' : stamped_before t (snd (cmp_with_cache c q q' true a b)))
    by now apply cmp_with_cache_stamps.
  destruct a as [d1 m1|La], b as [d2 m2|Lb];
    try (exists c; split; [reflexivity | now split]).
  unfold cmp_with_cache in *. unfold cmp_nodes.
  cbn [_sig fst snd negb orb andb] in *.
  destruct (sig_eqb (true, String.length d1, m1) (true, String.length d2, m2)) eqn:Hsig.
  - exists c. split; [|now split].
    cbn in Hsig. apply andb_true_iff in Hsig as [Hz Hm]. cbn in Hz.
    now rewrite Hz, Hm.
  - assert (Hsh : (Nat.eqb (String.length d1) (String.length d2) && Nat.eqb m1 m2) = false)
      by exact Hsig.
    destruct (Nat.eqb (String.length d1) (String.length d2)) eqn:Hz; cbn [negb andb] in *.
    2:{ exists c. split; [reflexivity | now split]. }
    rewrite Hsh.
    destruct (cache_get _ c) as [o|] eqn:Hg.
    + exists c. split; [|now split]. f_equal.
      apply (Hs q q' xs d1 m1 d2 m2 o Hq Hq' Ha Hb'); [|exact Hg].
      cbn. cbn in Hz. now rewrite Hz, Hsh.
    + eexists. split; [reflexivity|]. split; [|exact Hst'].
      intros f1 f2 ys e1 k1 e2 k2 o Hf1 Hf2 Hg1 Hg2 Hne Hget.
      cbn [cache_get] in Hget.
      destruct (key_eqb _ _) eqn:Hk.
      * apply key_eqb_eq in Hk. inversion Hk; subst.
        rewrite Ha in Hg1. rewrite Hb' in Hg2. inversion Hg1; inversion Hg2; subst.
        now inversion Hget.
      * destruct (Nat.ltb 100 (length c)); [discriminate|].
        now apply (Hs f1 f2 ys e1 k1 e2 k2 o).
Qed.


Lemma older_lookup es x v : older t (Dir es) -> FS.lookup x es = Some v -> older t v.
Proof.
  intros H Hx. inversion H as [|es' Hall]; subst. rewrite Forall_forall in Hall.
  apply (Hall (x, v)). now apply lookup_In.
Qed.

Lemma cmpfiles_with_cache_kept q q' rel L R :
  FS.comps q = cl ++ rel -> FS.comps q' = cr ++ rel ->
  FS.get (FS.comps q) n = Some (Dir L) -> FS.get (FS.comps q') n = Some (Dir R) ->
  wf (Dir L) -> older t (Dir R) ->
  forall xs c, kept c ->
    exists c', cmpfiles_with_cache c q q' L R xs
               = (filter (fun x => negb (same_of L R x)) xs, c')
               /\ kept c'.
Proof.
  intros Hq Hq' HL HR Hwf Hold.
  induction xs as [|x xs IH]; intros c Hc; cbn [cmpfiles_with_cache filter].
  - exists c. now split.
  - unfold same_of at 1.
    destruct (FS.lookup x L) as [a|] eqn:Ha.
    2:{ destruct (IH c Hc) as (c' & -> & Hc'). exists c'. now split. }
    destruct (FS.lookup x R) as [b|] eqn:Hb.
    2:{ destruct (IH c Hc) as (c' & -> & Hc'). exists c'. now split. }
    assert (Hx : simple x) by exact (proj1 (wf_lookup L x a Hwf Ha)).
    destruct (cmp_with_cache_kept c (OsPath.join q x) (OsPath.join q' x) (rel ++ [x]) a b)
      as (c1 & -> & Hc1); auto.
    + now apply older_lookup with R x.
    + now rewrite (comps_join q x Hx), Hq, app_assoc.
    + now rewrite (comps_join q' x Hx), Hq', app_assoc.
    + now rewrite (get_child q x n L HL Hx).
    + now rewrite (get_child q' x n R HR Hx).
    + destruct (IH c1 Hc1) as (c2 & -> & Hc2). exists c2. split; [|exact Hc2].
      now destruct (cmp_nodes true a b).
Qed.

(** The comparison of one common directory, whatever cache it is handed. *)
Definition turn (p : string * (verdicts -> dircmp * verdicts)) (p' : string * dircmp) : Prop :=
  fst p = fst p'
  /\ forall c, kept c -> exists c', snd p c = (snd p', c') /\ kept c'.

Lemma insert_by_turn a a' l l' :
  turn a a' -> Forall2 turn l l' ->
  Forall2 turn (insert_by fst a l) (insert_by fst a' l').
Proof.
  intros Ha H. induction H as [|b b' l l' Hb H IH]; cbn.
  - constructor; [exact Ha | constructor].
  - rewrite <- (proj1 Ha), <- (proj1 Hb).
    destruct (String.leb (fst a) (fst b)).
    + constructor; [exact Ha|]. constructor; [exact Hb | exact H].
    + constructor; [exact Hb | exact IH].
Qed.

Lemma sorted_by_turn l l' :
  Forall2 turn l l' -> Forall2 turn (sorted_by fst l) (sorted_by fst l').
Proof.
  induction 1 as [|a a' l l' Ha H IH]; cbn; [constructor|].
  now apply insert_by_turn.
Qed.

Lemma subdirs_in_turn_kept todo subs :
  Forall2 turn todo subs ->
  forall c, kept c -> exists c', subdirs_in_turn c todo = (subs, c') /\ kept c'.
Proof.
  induction 1 as [|[x run] [y d] todo subs [Hxy Hrun] H IH]; intros c Hc;
    cbn [subdirs_in_turn].
  - exists c. now split.
  - cbn in Hxy, Hrun. subst y. destruct (Hrun c Hc) as (c1 & -> & Hc1).
    destruct (IH c1 Hc1) as (c2 & -> & Hc2). exists c2. now split.
Qed.

Lemma dircmp_node_with_cache_kept l :
  forall c q q' rel R,
    wf l -> wf (Dir R) -> older t (Dir R) ->
    FS.comps q = cl ++ rel -> FS.comps q' = cr ++ rel ->
    FS.get (FS.comps q) n = Some l -> FS.get (FS.comps q') n = Some (Dir R) ->
    kept c ->
    exists c', dircmp_node_with_cache c q q' l R = (dircmp_node q q' l R, c') /\ kept c'.
Proof.
  induction l as [d m|L IH] using node_induction;
    intros c q q' rel R Hwf HwfR Hold Hq Hq' HL HR Hc.
  - exists c. now split.
  - rewrite dircmp_node_with_cache_dir, dircmp_node_dir.
    destruct (cmpfiles_with_cache_kept q q' rel L R Hq Hq' HL HR Hwf Hold
                                       (common_files_of L R) c Hc)
      as (c1 & -> & Hc1).
    assert (Hturn : forall es, incl es L ->
               Forall2 turn (todo_listed q q' R es) (subdirs_listed q q' R es)).
    { induction es as [|[x k] es IHes]; intros Hsub; cbn; [constructor|].
      assert (Hes : incl es L) by (intros p Hp; apply Hsub; now right).
      specialize (IHes Hes).
      destruct k as [|Lx]; [exact IHes|].
      destruct (FS.lookup x R) as [[|Rx]|] eqn:HRx; try exact IHes.
      destruct (negb (hidden x) && mem x (visible R)); [|exact IHes].
      constructor; [|exact IHes]. split; [reflexivity|]. cbn [snd].
      assert (Hin : In (x, Dir Lx) L) by (apply Hsub; now left).
      inversion Hwf as [|L' Hnd Hs Hw]; subst.
      assert (Hx : simple x).
      { rewrite Forall_forall in Hs. apply Hs.
        change x with (fst (x, Dir Lx)). now apply in_map. }
      assert (HLx : FS.lookup x L = Some (Dir Lx)) by now apply In_lookup.
      intros c0 Hc0. rewrite Forall_forall in IH.
      apply (IH (x, Dir Lx) Hin c0 (OsPath.join q x) (OsPath.join q' x) (rel ++ [x]) Rx).
      - rewrite Forall_forall in Hw. exact (Hw (x, Dir Lx) Hin).
      - exact (proj2 (wf_lookup R x (Dir Rx) HwfR HRx)).
      - now apply older_lookup with R x.
      - now rewrite (comps_join q x Hx), Hq, app_assoc.
      - now rewrite (comps_join q' x Hx), Hq', app_assoc.
      - now rewrite (get_child q x n L HL Hx).
      - now rewrite (get_child q' x n R HR Hx).
      - exact Hc0. }
    specialize (Hturn L (incl_refl L)). apply sorted_by_turn in Hturn.
    destruct (subdirs_in_turn_kept _ _ Hturn c1 Hc1) as (c2 & Hrun & Hc2).
    unfold subdirs_of. rewrite Hrun.
    exists c2. split; [reflexivity | exact Hc2].
Qed.

End Cache.

(** ** Merging twice (C2) *)

(** One run of the merge on a pair of directories: a fresh comparison handed
    to [_merge_dirs], as [_handle_dir] does. *)
Definition merge_pair (X : externals) (self : Updater) (left right : string) : M bool :=
  diff <- filecmp_dircmp left right ;;
  _merge_dirs X self diff.

(** One run of the merge with the cache of [filecmp]. *)
Definition merge_pair_with_cache (X : externals) (self : Updater) (left right : string)
           (c : verdicts) (w : world) : result bool * world * list event * verdicts :=
  match stat w left, stat w right with
  | Some l, Some (Dir R) =>
      let '(diff, c') := dircmp_node_with_cache c left right l R in
      (_merge_dirs X self diff w, c')
  | _, _ =>
      (_merge_dirs X self
         (Dircmp left right (Some (OSError "cannot list directory")) [] [] [] [] [] []) w,
       c)
  end.

Lemma dircmp_run left right l R w :
  stat w left = Some l -> stat w right = Some (Dir R) ->
  filecmp_dircmp left right w = (Ok (dircmp_node left right l R), w, []).
Proof. intros H1 H2. unfold filecmp_dircmp, bind, get_world. now rewrite H1, H2. Qed.

(** The claim of C2 as the spec words it: after a run that returned, a second
    run on the same pair performs no copy and no removal. *)
Definition merge_twice_is_quiet : Prop :=
  forall X self left right w r1 w1 e1 r2 w2 e2,
    FS.is_dir (stat w left) = true -> FS.is_dir (stat w right) = true ->
    merge_pair X self left right w = (Ok r1, w1, e1) ->
    merge_pair X self left right w1 = (r2, w2, e2) ->
    Forall (fun e => performed e = false) e2.

(** C2, counterexample: in safe mode a directory whose removal was declined
    in the first run is removed by the second run once the prompt is
    accepted. *)
Lemma merge_twice_counterexample : ~ merge_twice_is_quiet.
Proof.
  intros H.
  specialize (H (Sample.machine Sample.hesitant) (Sample.updater "main" false true false)
                "/home/alice/app" "/repo/app" Sample.w0 _ _ _ _ _ _
                eq_refl eq_refl eq_refl eq_refl).
  vm_compute in H. inversion H as [|e es H1 H2]; subst.
  inversion H2 as [|e' es' H3 H4]; subst. discriminate H3.
Qed.

(** A managed directory that lies inside the deployed one never settles:
    each run copies the managed directory into itself once more. *)
Example merge_into_itself :
  let X := Sample.machine (Sample.always true) in
  let self := Sample.updater "main" false false false in
  let w := {| fs := Dir [("a", Dir [("b", Dir [("g", File "g" 1)]); ("f", File "f" 2)])];
              ignores := []; asked := 0; clock := 5; tmpseq := 0 |} in
  let first := merge_pair X self "/a" "/a/b" w in
  fst (fst first) = Ok true
  /\ snd (merge_pair X self "/a" "/a/b" (snd (fst first)))
     = [Copytree "/a/b/b" "/a/b/b/b" true; Copyfile "/a/b/f" "/a/b/b/f" true;
        Remove "/a/b/b/g" true].
Proof. split; reflexivity. Qed.

(** With the preview switched on, every run writes one more temporary file
    for a managed template. *)
Example preview_written_on_every_run :
  let X := Sample.machine (Sample.always true) in
  let self := Sample.updater "main" false false true in
  let w := {| fs := Dir [("d", Dir [("t", File "x" 1)]);
                         ("r", Dir [("t", File "{{@@ x @@}}" 2)]);
                         ("tmp", Dir [])];
              ignores := []; asked := 0; clock := 5; tmpseq := 0 |} in
  let first := merge_pair X self "/d" "/r" w in
  fst (fst first) = Ok true
  /\ In (WriteTmp "/tmp/dotdrop-1" true)
        (snd (merge_pair X self "/d" "/r" (snd (fst first)))).
Proof. split; [reflexivity | right; left; reflexivity]. Qed.

(** * More of the updater *)


(** ** Entry points that find no dotfile *)

Definition key_matches (self : Updater) (k : string) : list dotfile :=
  filter (fun d => String.eqb (key d) k) (get_dotfiles (conf self) (profile self)).

Definition path_matches (self : Updater) (path : string) : list dotfile :=
  filter (fun d => String.eqb (dst d) path) (get_dotfiles (conf self) (profile self)).

Definition all_sources (self : Updater) : string :=
  String.concat "," (map src (get_dotfiles (conf self) (profile self))).

(** X1: unless exactly one dotfile of the profile has the key, [update_key]
    logs one error (not found, or the ambiguity) and returns [False]; the
    world is as it was and nothing was looked at or called. *)
Theorem update_key_unresolved (X : externals) (self : Updater) (k : string) (w : world) :
  length (key_matches self k) <> 1 ->
  update_key X self k w
  = (Ok false, w,
     [Log ERR match key_matches self k with
              | [] => "key " +++ quoted k +++ " not found!"
              | _ => "multiple dotfiles found: " +++ all_sources self
              end]).
Proof.
  intros H. unfold update_key, bind. rewrite get_dotfile_by_key_spec.
  unfold key_matches, all_sources in *. cbv zeta.
  destruct (filter _ _) as [|d [|d' rest]]; [reflexivity | now contradiction H | reflexivity].
Qed.

Lemma update_key_unresolved_witness :
  update_key (Sample.machine (Sample.always true)) (Sample.updater "main" false false false)
             "f_zshrc" Sample.w0
  = (Ok false, Sample.w0, [Log ERR ("key " +++ quoted "f_zshrc" +++ " not found!")]).
Proof.
  apply (update_key_unresolved (Sample.machine (Sample.always true))
           (Sample.updater "main" false false false) "f_zshrc" Sample.w0).
  discriminate.
Defined.

(** X2: a path that exists but that no dotfile, or more than one, has as
    its destination once normalised: [update_path] logs one error, naming
    the normalised path, and returns [False] with the world as it was. *)
Theorem update_path_unresolved (X : externals) (self : Updater) (path : string) (w : world) :
  stat w path <> None ->
  length (path_matches self (_normalize (os_env X) path)) <> 1 ->
  update_path X self path w
  = (Ok false, w,
     [Log ERR match path_matches self (_normalize (os_env X) path) with
              | [] => quoted (_normalize (os_env X) path) +++ " is not managed!"
              | _ => "multiple dotfiles found: " +++ all_sources self
              end]).
Proof.
  intros He H. unfold update_path.
  rewrite (bind_Ok _ _ _ (lexists_run path w)).
  destruct (stat w path) as [n|]; [|contradiction]. cbn [FS.is_some negb].
  unfold bind, _normalize_path. rewrite get_dotfile_by_path_spec.
  unfold path_matches, all_sources in *. cbv zeta.
  destruct (filter _ _) as [|d [|d' rest]]; [reflexivity | now contradiction H | reflexivity].
Qed.

Lemma update_path_unresolved_witness :
  update_path (Sample.machine (Sample.always true)) (Sample.updater "main" false false false)
              "/home/alice/app/a.txt" Sample.w0
  = (Ok false, Sample.w0, [Log ERR (quoted "~/app/a.txt" +++ " is not managed!")]).
Proof.
  apply (update_path_unresolved (Sample.machine (Sample.always true))
           (Sample.updater "main" false false false) "/home/alice/app/a.txt" Sample.w0).
  - discriminate.
  - discriminate.
Defined.

(** ** What a run returns *)

(** Every normal result of [m] satisfies [Q]. *)
Definition returns {A} (m : M A) (Q : A -> Prop) : Prop :=
  forall w a w' evs, m w = (Ok a, w', evs) -> Q a.

Lemma returns_ret {A} (a : A) (Q : A -> Prop) : Q a -> returns (ret a) Q.
Proof. intros H w b w' evs E. inversion E; subst. exact H. Qed.

Lemma returns_bind {A B} (m : M A) (f : A -> M B) (Q : B -> Prop) :
  (forall a, returns (f a) Q) -> returns (bind m f) Q.
Proof.
  intros H w b w' evs E.
  apply bind_inv in E as [(a & w1 & e1 & e2 & _ & E & _) | (x & _ & E)]; [|discriminate].
  exact (H a w1 b w' e2 E).
Qed.

Lemma merge_dirs_returns (X : externals) (self : Updater) (diff : dircmp) :
  returns (_merge_dirs X self diff) (fun b => b = true).
Proof.
  destruct diff as [l r err lo ro df ff cf subs]. cbn [_merge_dirs].
  apply returns_bind; intros _. apply returns_bind; intros [|]; [now apply returns_ret|].
  do 7 (apply returns_bind; intros _). now apply returns_ret.
Qed.

(** X3: [_handle_dir] has no failure result.  Whenever it returns, it
    returns [True]: what [_handle_file] answers for a file of the directory
    (a template left alone, an overwrite declined, a copy that failed) and
    what the merge of a subdirectory answers are dropped by [_merge_dirs]. *)
Theorem handle_dir_returns_true (X : externals) (self : Updater)
        (left right : string) (w : world) (b : bool) (w' : world) (evs : list event) :
  _handle_dir X self left right w = (Ok b, w', evs) -> b = true.
Proof.
  revert w b w' evs. change (returns (_handle_dir X self left right) (fun b => b = true)).
  unfold _handle_dir.
  apply returns_bind; intros _. apply returns_bind; intros [|]; [now apply returns_ret|].
  apply returns_bind; intros diff. apply merge_dirs_returns.
Qed.

Lemma handle_dir_returns_true_witness :
  fst (fst (_handle_dir (Sample.machine (Sample.always false))
                        (Sample.updater "main" false true false)
                        "/home/alice/app" "/repo/app" Sample.w0))
  = Ok true.
Proof.
  destruct (_handle_dir (Sample.machine (Sample.always false))
                        (Sample.updater "main" false true false)
                        "/home/alice/app" "/repo/app" Sample.w0) as [[r w'] evs] eqn:E.
  assert (Hr : exists b, r = Ok b) by (vm_compute in E; inversion E; eauto).
  destruct Hr as [b ->]. cbn [fst].
  now rewrite (handle_dir_returns_true _ _ _ _ _ _ _ _ E).
Defined.

(** ** Runs that only look and log *)

(** [m] ends with [r] from [w], leaving the world as it was and only log
    lines behind. *)
Definition quietly {A} (m : M A) (w : world) (r : result A) : Prop :=
  exists evs, m w = (r, w, evs) /\ Forall is_log evs.

Lemma quietly_ret {A} (a : A) w : quietly (ret a) w (Ok a).
Proof. exists []. split; [reflexivity | constructor]. Qed.

Lemma quietly_raise {A} (e : exn) w : quietly (@raise A e) w (Raise e).
Proof. exists []. split; [reflexivity | constructor]. Qed.

Lemma quietly_bind {A B} (m : M A) (f : A -> M B) w a e1 r :
  m w = (Ok a, w, e1) -> Forall is_log e1 -> quietly (f a) w r -> quietly (bind m f) w r.
Proof.
  intros Hm H1 (e2 & Hf & H2). exists (e1 ++ e2).
  rewrite (bind_Ok _ _ _ Hm), Hf. split; [reflexivity | apply Forall_app; now split].
Qed.

Lemma quietly_bind_raise {A B} (m : M A) (f : A -> M B) w x :
  quietly m w (Raise x) -> quietly (bind m f) w (Raise x).
Proof. intros (e & Hm & H). exists e. now rewrite (bind_Raise _ _ _ Hm). Qed.

Lemma quietly_log {B} lvl msg (f : unit -> M B) w r :
  quietly (f tt) w r -> quietly (bind (emit (Log lvl msg)) f) w r.
Proof. apply quietly_bind with (e1 := [Log lvl msg]); [reflexivity | repeat constructor]. Qed.

Lemma quietly_when_dbg {B} c msg (f : unit -> M B) w r :
  quietly (f tt) w r -> quietly (bind (when c (log_dbg msg)) f) w r.
Proof. eapply quietly_bind; [apply when_dbg_run | apply when_dbg_logs]. Qed.

Lemma quietly_get_world {B} (f : world -> M B) w r :
  quietly (f w) w r -> quietly (bind get_world f) w r.
Proof. apply quietly_bind with (e1 := []); [reflexivity | constructor]. Qed.

Lemma quietly_ignore {B} X self paths (f : bool -> M B) w r :
  quietly (f (must_ignore X paths (ignores w))) w r ->
  quietly (bind (_ignore X self paths) f) w r.
Proof.
  eapply quietly_bind; [apply ignore_run|].
  apply ignore_log_quiet. intros; exact I.
Qed.

Lemma quietly_is_template {B} X path (f : bool -> M B) w r :
  quietly (f false) w r -> is_template X (stat w path) = false ->
  quietly (bind (_is_template X path) f) w r.
Proof.
  intros H Ht. apply quietly_bind with (e1 := []) (a := false); [|constructor | exact H].
  unfold _is_template. rewrite (bind_Ok _ _ _ (is_template_run X path w)), Ht. reflexivity.
Qed.

Lemma handle_file_same (X : externals) (self : Updater)
      (left right : string) (a b : node) (w : world) :
  must_ignore X [left; right] (ignores w) = false ->
  is_template X (stat w right) = false ->
  stat w left = Some a -> stat w right = Some b ->
  cmp_nodes true a b = true ->
  quietly (_handle_file X self left right true) w (Ok true).
Proof.
  intros Hign Htpl Ha Hb Hcmp. unfold _handle_file.
  apply quietly_ignore. rewrite Hign.
  apply quietly_when_dbg, quietly_is_template; [|exact Htpl].
  eapply quietly_bind with (a := true) (e1 := []); [|constructor|].
  { unfold filecmp_cmp. rewrite bind_get_world, Ha, Hb, Hcmp. reflexivity. }
  apply quietly_when_dbg, quietly_ret.
Qed.

(** ** A managed side that is not there *)

Lemma cmp_same_signature (d1 d2 : string) (m : nat) :
  String.length d1 = String.length d2 -> cmp_nodes true (File d1 m) (File d2 m) = true.
Proof. intros H. cbn. now rewrite H, !Nat.eqb_refl. Qed.

Section Missing.

Variable X : externals.
Variable self : Updater.

(** X4: when the managed path is not a directory (it does not exist, or it
    is a regular file), [_handle_dir] on a pair that is not ignored ends in an
    [OSError] of the directory comparison; the directory is not created and
    nothing else is touched. *)
Theorem handle_dir_managed_missing (left right : string) (w : world) :
  let l := OsPath.expanduser (os_env X) left in
  let r := OsPath.expanduser (os_env X) right in
  must_ignore X [l; r] (ignores w) = false ->
  FS.is_dir (stat w r) = false ->
  exists what evs,
    _handle_dir X self left right w = (Raise (OSError what), w, evs)
    /\ Forall is_log evs.
Proof.
  intros l r Hign Hr. exists "cannot list directory".
  change (quietly (_handle_dir X self left right) w
                  (Raise (OSError "cannot list directory"))).
  unfold _handle_dir. fold l r.
  apply quietly_when_dbg, quietly_ignore. rewrite Hign.
  eapply quietly_bind with (e1 := []); [|constructor|].
  { unfold filecmp_dircmp. rewrite bind_get_world.
    instantiate (1 := Dircmp l r (Some (OSError "cannot list directory")) [] [] [] [] [] []).
    destruct (stat w l) as [n|]; [|reflexivity].
    destruct (stat w r) as [[d m|R]|]; [reflexivity | discriminate | reflexivity]. }
  cbn [_merge_dirs]. apply quietly_when_dbg, quietly_ignore. rewrite Hign.
  apply quietly_bind_raise, quietly_raise.
Qed.

(** X5: [_handle_file] with the comparison on, for a pair that is not
    ignored and whose managed file does not exist: the comparison raises
    [OSError]; the file is not created. *)
Theorem handle_file_managed_missing (left right : string) (w : world) :
  must_ignore X [left; right] (ignores w) = false ->
  stat w right = None ->
  is_template X None = false ->
  exists evs,
    _handle_file X self left right true w
    = (Raise (OSError "No such file or directory"), w, evs)
    /\ Forall is_log evs.
Proof.
  intros Hign Hr Htpl.
  change (quietly (_handle_file X self left right true) w
                  (Raise (OSError "No such file or directory"))).
  unfold _handle_file.
  apply quietly_ignore. rewrite Hign.
  apply quietly_when_dbg, quietly_is_template; [|now rewrite Hr].
  apply quietly_bind_raise. unfold filecmp_cmp. apply quietly_get_world. rewrite Hr.
  destruct (stat w left); apply quietly_raise.
Qed.

(** X6: [_handle_file] compares with [shallow=True]: two regular files of
    the same size and the same modification time count as identical
    whatever their bytes are, and so do files with the same bytes and
    different times; the result is [True] and nothing is asked, copied or
    written. *)
Theorem handle_file_identical (left right : string) (d1 d2 : string) (m1 m2 : nat)
        (w : world) :
  must_ignore X [left; right] (ignores w) = false ->
  is_template X (stat w right) = false ->
  stat w left = Some (File d1 m1) -> stat w right = Some (File d2 m2) ->
  (String.length d1 = String.length d2 /\ m1 = m2) \/ d1 = d2 ->
  exists evs,
    _handle_file X self left right true w = (Ok true, w, evs) /\ Forall is_log evs.
Proof.
  intros Hign Htpl Ha Hb Hcmp.
  apply (handle_file_same X self left right (File d1 m1) (File d2 m2)); auto.
  destruct Hcmp as [[Hl ->]| ->]; [now apply cmp_same_signature | apply cmp_same_data].
Qed.

End Missing.

Lemma handle_dir_managed_missing_witness :
  exists what evs,
    _handle_dir (Sample.machine (Sample.always true)) (Sample.updater "main" false false false)
                "/home/alice/app" "/repo/nothing" Sample.w0
    = (Raise (OSError what), Sample.w0, evs)
    /\ Forall is_log evs.
Proof.
  apply (handle_dir_managed_missing (Sample.machine (Sample.always true))
           (Sample.updater "main" false false false)
           "/home/alice/app" "/repo/nothing" Sample.w0); reflexivity.
Defined.

Lemma handle_file_managed_missing_witness :
  exists evs,
    _handle_file (Sample.machine (Sample.always true)) (Sample.updater "main" false false false)
                 "/home/alice/.bashrc" "/repo/missing" true Sample.w0
    = (Raise (OSError "No such file or directory"), Sample.w0, evs)
    /\ Forall is_log evs.
Proof.
  apply (handle_file_managed_missing (Sample.machine (Sample.always true))
           (Sample.updater "main" false false false)
           "/home/alice/.bashrc" "/repo/missing" Sample.w0); reflexivity.
Defined.

(** Same size, same time, other bytes. *)
Lemma handle_file_identical_witness :
  let w := with_fs Sample.w0 (Dir [("d", File "abc" 3); ("r", File "xyz" 3)]) in
  exists evs,
    _handle_file (Sample.machine (Sample.always true)) (Sample.updater "main" false false false)
                 "/d" "/r" true w = (Ok true, w, evs)
    /\ Forall is_log evs.
Proof.
  apply (handle_file_identical (Sample.machine (Sample.always true))
           (Sample.updater "main" false false false)
           "/d" "/r" "abc" "xyz" 3 3); try reflexivity.
  left. split; reflexivity.
Defined.

(** ** The home marker *)

Section Marker.

Variable e : OsPath.environ.
Variable rest : string.

Let home := Str.rstrip OsPath.sepc (OsPath.HOME e).
Let p := home +++ OsPath.sep +++ rest.
Let marked := String "~"%char (String OsPath.sepc rest).

Hypothesis Hhome : home <> "".
Hypothesis Habs : OsPath.isabs p = true.
Hypothesis Hrest : Str.startswith OsPath.sep rest = false.
Hypothesis Hvars : OsPath.expandvars e p = p.
Hypothesis Hnorm : OsPath.normpath p = p.

Lemma expanduser_marked : OsPath.expanduser e marked = p.
Proof. apply expanduser_tilde_slash. Qed.

Lemma normalize_under_home : _normalize e p = marked.
Proof.
  unfold _normalize.
  rewrite (expanduser_abs e p Habs), Hvars.
  unfold OsPath.abspath. rewrite Habs, Hnorm.
  unfold TILD. cbn [OsPath.expanduser Str.break Str.is_empty].
  subst p. fold home. destruct home as [|a h] eqn:Hh; [contradiction|].
  rewrite append_empty_r. cbn [Str.or_else].
  rewrite <- (append_assoc3 (String a h) OsPath.sep rest).
  rewrite startswith_app, drop_app. now apply join_tilde.
Qed.

Lemma normalize_marked : _normalize e marked = marked.
Proof.
  rewrite <- normalize_under_home at 2. unfold _normalize.
  now rewrite expanduser_marked, (expanduser_abs e p Habs).
Qed.

End Marker.

(** X7: a path under the home directory that is in normal form is
    normalised to its home-marker form [~/rest], and the home-marker form is
    normalised to itself: the destination a dotfile is configured with is
    the string [update_path] looks the spelled-out path up by. *)
Theorem normalize_home_marker (e : OsPath.environ) (rest : string) :
  let home := Str.rstrip OsPath.sepc (OsPath.HOME e) in
  let p := home +++ OsPath.sep +++ rest in
  let marked := String "~"%char (String OsPath.sepc rest) in
  home <> "" ->
  OsPath.isabs p = true ->
  Str.startswith OsPath.sep rest = false ->
  OsPath.expandvars e p = p ->
  OsPath.normpath p = p ->
  _normalize e p = marked /\ _normalize e marked = marked.
Proof.
  intros home p marked H1 H2 H3 H4 H5. split.
  - now apply normalize_under_home.
  - now apply normalize_marked.
Qed.

Lemma normalize_home_marker_witness :
  _normalize Sample.alice "/home/alice/.vimrc" = "~/.vimrc"
  /\ _normalize Sample.alice "~/.vimrc" = "~/.vimrc".
Proof.
  apply (normalize_home_marker Sample.alice ".vimrc");
    [discriminate | reflexivity | reflexivity | reflexivity | reflexivity].
Defined.

(** ** By key or by path *)

Lemma update_same_left (X : externals) (self : Updater) (path path' : string) (d : dotfile) :
  trans_w d = None ->
  OsPath.expanduser (os_env X) path = OsPath.expanduser (os_env X) path' ->
  _update X self path d = _update X self path' d.
Proof. intros Ht E. unfold _update. rewrite Ht, E. reflexivity. Qed.

(** X8: for a dotfile without write transformation that is the only one
    with its key and the only one with its destination [~/rest], updating by
    the spelled-out path of the destination and updating by the key are the
    same run (debug logging off: the debug line names the way in).  The
    home directory is not the root, [rest] does not begin with a slash,
    and the spelled-out path [home/rest] is absolute, exists, and is what
    [expandvars] and [normpath] make of it. *)
Theorem update_path_as_update_key (X : externals) (self : Updater)
        (rest : string) (d : dotfile) (w : world) :
  let home := Str.rstrip OsPath.sepc (OsPath.HOME (os_env X)) in
  let p := home +++ OsPath.sep +++ rest in
  let marked := String "~"%char (String OsPath.sepc rest) in
  home <> "" ->
  OsPath.isabs p = true ->
  Str.startswith OsPath.sep rest = false ->
  OsPath.expandvars (os_env X) p = p ->
  OsPath.normpath p = p ->
  stat w p <> None ->
  key_matches self (key d) = [d] ->
  path_matches self marked = [d] ->
  trans_w d = None ->
  debug self = false ->
  update_path X self p w = update_key X self (key d) w.
Proof.
  cbv zeta. intros H1 H2 H3 H4 H5 He Hk Hp Ht Hdbg.
  pose proof (normalize_under_home (os_env X) rest H1 H2 H3 H4 H5) as Hn.
  pose proof (normalize_marked (os_env X) rest H1 H2 H3 H4 H5) as Hm.
  pose proof (expanduser_marked (os_env X) rest) as Hx.
  set (p := Str.rstrip OsPath.sepc (OsPath.HOME (os_env X)) +++ OsPath.sep +++ rest) in *.
  set (marked := String "~"%char (String OsPath.sepc rest)) in *.
  assert (Hdst : dst d = marked).
  { assert (Hin : In d (path_matches self marked)) by (rewrite Hp; now left).
    apply filter_In in Hin as [_ Hin]. now apply String.eqb_eq in Hin. }
  unfold update_path, update_key, _normalize_path.
  rewrite (bind_Ok _ _ _ (lexists_run p w)).
  destruct (stat w p) as [n|]; [|contradiction]. cbn [FS.is_some negb app].
  rewrite Hn.
  unfold bind at 1 3. rewrite get_dotfile_by_path_spec, get_dotfile_by_key_spec. cbv zeta.
  unfold key_matches, path_matches in Hk, Hp. rewrite Hk, Hp, Hdbg, Hdst, Hm.
  change (when false ?m) with (ret tt). rewrite !bind_ret.
  rewrite (update_same_left X self (OsPath.expanduser (os_env X) marked) marked d Ht).
  - destruct (_update X self marked d w) as [[r w'] evs]. reflexivity.
  - rewrite Hx. now apply expanduser_abs.
Qed.

Lemma update_path_as_update_key_witness :
  update_path (Sample.machine (Sample.always true)) (Sample.updater "main" false false false)
              "/home/alice/.vimrc" Sample.w0
  = update_key (Sample.machine (Sample.always true)) (Sample.updater "main" false false false)
               "f_vimrc" Sample.w0.
Proof.
  apply (update_path_as_update_key (Sample.machine (Sample.always true))
           (Sample.updater "main" false false false) ".vimrc" Sample.vimrc Sample.w0);
    try reflexivity; discriminate.
Defined.

(** ** The calls a run may make *)

Section Walk.

Variable X : externals.
Variable self : Updater.

(** What an event has to satisfy, given which copies ([C]) and which
    removals ([Rm]) are in order. *)
Variable P : event -> Prop.
Variable C : string -> string -> Prop.
Variable Rm : string -> Prop.

Hypothesis P_log : forall lvl msg, P (Log lvl msg).
Hypothesis P_ask : safe self = true -> forall msg r, P (Ask msg r).
Hypothesis P_tmp : showpatch self = true -> forall p ok, P (WriteTmp p ok).
Hypothesis P_copyfile : forall s t ok, C s t -> P (Copyfile s t ok).
Hypothesis P_copytree : forall s t ok, C s t -> P (Copytree s t ok).
Hypothesis P_remove : forall p ok, Rm p -> P (Remove p ok).

Definition walks {A} (m : M A) : Prop := obeys (fun _ => True) P m.

Lemma walks_events {A} (m : M A) : (forall w, Forall P (snd (m w))) -> walks m.
Proof. intros H w _. split; [exact I | apply H]. Qed.

Lemma walks_log lvl msg : walks (emit (Log lvl msg)).
Proof. apply obeys_emit, P_log. Qed.

Lemma walks_when_dbg c msg : walks (when c (log_dbg msg)).
Proof. apply obeys_when, walks_log. Qed.

Lemma walks_ignore paths : walks (_ignore X self paths).
Proof.
  apply walks_events. intros w. rewrite ignore_run. cbn [snd].
  apply ignore_log_quiet, P_log.
Qed.

Lemma walks_isdir p : walks (isdir p).
Proof. apply walks_events. intros w. constructor. Qed.

Lemma walks_path_exists p : walks (path_exists p).
Proof. apply walks_events. intros w. constructor. Qed.

Lemma walks_ask msg : safe self = true -> walks (log_ask X msg).
Proof. intros H. apply walks_events. intros w. repeat constructor. now apply P_ask. Qed.

Lemma walks_copyfile s t : C s t -> walks (copyfile s t).
Proof.
  intros H. apply walks_events. intros w. unfold copyfile.
  destruct (copyfile_outcome w s t); repeat constructor; now apply P_copyfile.
Qed.

Lemma walks_copytree s t : C s t -> walks (copytree s t).
Proof.
  intros H. apply walks_events. intros w. unfold copytree.
  destruct (copytree_outcome w s t); repeat constructor; now apply P_copytree.
Qed.

Lemma walks_remove p : Rm p -> walks (utils_remove p).
Proof.
  intros H. apply walks_events. intros w. unfold utils_remove.
  destruct (FS.erase _ _); repeat constructor; now apply P_remove.
Qed.

Lemma walks_overwrite s t : walks (_overwrite X self s t).
Proof.
  unfold _overwrite. case_eq (safe self); intros Hs; [|apply obeys_ret].
  apply obeys_bind; [now apply walks_ask|]. intros []; apply obeys_ret.
Qed.

Lemma walks_confirm_rm_r p : walks (_confirm_rm_r X self p).
Proof.
  unfold _confirm_rm_r. case_eq (safe self); intros Hs; [|apply obeys_ret].
  apply obeys_bind; [now apply walks_ask|]. intros []; apply obeys_ret.
Qed.

Lemma walks_is_template p : walks (_is_template X p).
Proof.
  apply walks_events. intros w. unfold _is_template.
  rewrite (bind_Ok _ _ _ (is_template_run X p w)).
  destruct (is_template X (stat w p)); cbn; repeat constructor. apply P_log.
Qed.

Lemma walks_show_patch t f : showpatch self = true -> walks (_show_patch X self t f).
Proof.
  intros Hsp. apply walks_events. intros w.
  unfold _show_patch. run.
  destruct (generate X self (stat w t)); run;
    [destruct (FS.write _ _ (fs w)) |]; cbn [snd app];
    repeat (apply Forall_cons; [first [now apply P_tmp | apply P_log]|]); apply Forall_nil.
Qed.

Lemma walks_cmp a b sh : walks (filecmp_cmp a b sh).
Proof.
  apply walks_events. intros w. unfold filecmp_cmp. rewrite bind_get_world.
  destruct (stat w a), (stat w b); constructor.
Qed.

Lemma walks_dircmp left right : walks (filecmp_dircmp left right).
Proof.
  apply walks_events. intros w. unfold filecmp_dircmp. rewrite bind_get_world.
  destruct (stat w left) as [l|]; [destruct (stat w right) as [[|R]|]|]; constructor.
Qed.

Lemma walks_handle_file left right compare :
  C left right -> walks (_handle_file X self left right compare).
Proof.
  intros HC. unfold _handle_file.
  apply obeys_bind; [apply walks_ignore|]. intros [|]; [apply obeys_ret|].
  apply obeys_bind; [apply walks_when_dbg|]. intros _.
  apply obeys_bind; [apply walks_is_template|]. intros [|].
  { apply obeys_bind; [apply walks_when_dbg|]. intros _.
    apply obeys_bind; [|intros _; apply obeys_ret].
    case_eq (showpatch self); intros Hsp; [|apply obeys_ret].
    apply obeys_bind; [now apply walks_show_patch | intros _; apply obeys_ret]. }
  apply obeys_bind.
  { destruct compare; [apply walks_cmp | apply obeys_ret]. }
  intros [|].
  { apply obeys_bind; [apply walks_when_dbg | intros _; apply obeys_ret]. }
  apply obeys_bind; [apply walks_overwrite|]. intros [|]; [|apply obeys_ret].
  apply obeys_try.
  - apply obeys_bind; [|intros _; apply obeys_ret].
    destruct (dry self); [apply walks_log|].
    apply obeys_bind; [apply walks_when_dbg|]. intros _. now apply walks_copyfile.
  - intros what. apply obeys_bind; [apply walks_log | intros _; apply obeys_ret].
Qed.

(** A comparison whose every entry is in order. *)
Inductive fits : dircmp -> Prop :=
| fits_intro l r err lo ro df ff cf subs :
    (forall x, In x lo -> C (OsPath.join l x) (OsPath.join r x)) ->
    (forall x, In x ro -> Rm (OsPath.join r x)) ->
    (forall x, In x (df ++ ff ++ cf) -> C (OsPath.join l x) (OsPath.join r x)) ->
    (forall p, In p subs -> fits (snd p)) ->
    fits (Dircmp l r err lo ro df ff cf subs).

Lemma walks_merge_dirs (diff : dircmp) : fits diff -> walks (_merge_dirs X self diff).
Proof.
  induction diff as [l r err lo ro df ff cf subs IH] using dircmp_induction.
  intros Hfit. inversion Hfit as [? ? ? ? ? ? ? ? ? Hlo Hro Hdl Hsubs]; subst.
  cbn [_merge_dirs].
  apply obeys_bind; [apply walks_when_dbg|]. intros _.
  apply obeys_bind; [apply walks_ignore|]. intros [|]; [apply obeys_ret|].
  apply obeys_bind; [destruct err; [apply obeys_raise | apply obeys_ret]|]. intros _.
  apply obeys_bind.
  { apply obeys_forM. intros x Hx.
    apply obeys_bind; [apply walks_isdir|]. intros [|]; [|apply obeys_ret].
    apply obeys_bind; [apply walks_ignore|]. intros [|]; [apply obeys_ret|].
    destruct (dry self); [apply walks_log|].
    apply obeys_bind; [apply walks_when_dbg|]. intros _. now apply walks_copytree, Hlo. }
  intros _. apply obeys_bind.
  { apply obeys_forM. intros x Hx.
    apply obeys_bind; [apply walks_isdir|]. intros [|]; [|apply obeys_ret].
    apply obeys_bind; [apply walks_ignore|]. intros [|]; [apply obeys_ret|].
    destruct (dry self); [apply walks_log|].
    apply obeys_bind; [apply walks_when_dbg|]. intros _.
    apply obeys_bind; [apply walks_confirm_rm_r|]. intros [|]; [|apply obeys_ret].
    now apply walks_remove, Hro. }
  intros _. apply obeys_bind.
  { apply obeys_forM. intros x Hx.
    apply obeys_bind; [apply walks_ignore|]. intros [|]; [apply obeys_ret|].
    destruct (dry self); [apply walks_log|].
    apply obeys_bind; [apply walks_when_dbg|]. intros _.
    apply obeys_bind; [now apply walks_handle_file, Hdl | intros _; apply obeys_ret]. }
  intros _. apply obeys_bind.
  { apply obeys_forM. intros x Hx.
    apply obeys_bind; [apply walks_isdir|]. intros [|]; [apply obeys_ret|].
    apply obeys_bind; [apply walks_ignore|]. intros [|]; [apply obeys_ret|].
    destruct (dry self); [apply walks_log|].
    apply obeys_bind; [apply walks_when_dbg|]. intros _. now apply walks_copyfile, Hlo. }
  intros _. apply obeys_bind.
  { apply obeys_forM. intros x Hx.
    apply obeys_bind; [apply walks_path_exists|]. intros [|]; [|apply obeys_ret].
    apply obeys_bind; [apply walks_isdir|]. intros [|]; [apply obeys_ret|].
    apply obeys_bind; [apply walks_ignore|]. intros [|]; [apply obeys_ret|].
    destruct (dry self); [apply walks_log|].
    apply obeys_bind; [apply walks_when_dbg|]. intros _. now apply walks_remove, Hro. }
  intros _. apply obeys_bind; [|intros _; apply obeys_ret].
  apply obeys_forM. intros [x sub] Hin.
  apply obeys_bind; [|intros _; apply obeys_ret].
  rewrite Forall_forall in IH. apply (IH _ Hin). exact (Hsubs _ Hin).
Qed.

(** Runs of the whole update, when every copy and every removal is in
    order. *)
Section Whole.

Hypothesis C_all : forall s t, C s t.
Hypothesis Rm_all : forall p, Rm p.
Hypothesis P_transform : forall k s p ok, P (Transform k s p ok).

Lemma fits_all (diff : dircmp) : fits diff.
Proof.
  induction diff as [l r err lo ro df ff cf subs IH] using dircmp_induction.
  constructor; auto. intros p Hp. rewrite Forall_forall in IH. now apply IH.
Qed.

Lemma walks_handle_dir left right : walks (_handle_dir X self left right).
Proof.
  unfold _handle_dir.
  apply obeys_bind; [apply walks_when_dbg|]. intros _.
  apply obeys_bind; [apply walks_ignore|]. intros [|]; [apply obeys_ret|].
  apply obeys_bind; [apply walks_dircmp|]. intros diff. apply walks_merge_dirs, fits_all.
Qed.

Lemma walks_cleanup p : walks (e <- path_exists p ;; when e (utils_remove p)).
Proof.
  apply obeys_bind; [apply walks_path_exists|]. intros e.
  apply obeys_when, walks_remove, Rm_all.
Qed.

Lemma walks_apply_trans_w path d t : walks (_apply_trans_w X self path d t).
Proof.
  unfold _apply_trans_w.
  apply obeys_bind; [apply walks_when_dbg|]. intros _.
  apply obeys_bind; [apply walks_events; intros w; constructor|]. intros tmp.
  apply obeys_bind.
  { apply walks_events. intros w. unfold transform.
    destruct (t_run t (fs w) path tmp) as [ok out]. repeat constructor. apply P_transform. }
  intros [|]; [apply obeys_ret|].
  apply obeys_bind; [apply walks_log|]. intros _.
  apply obeys_bind; [apply walks_path_exists|]. intros e.
  apply obeys_bind; [apply obeys_when, walks_remove, Rm_all | intros _; apply obeys_ret].
Qed.

Lemma walks_update path d : walks (_update X self path d).
Proof.
  unfold _update.
  apply obeys_bind; [apply walks_events; intros w; constructor|]. intros _.
  apply obeys_bind; [apply obeys_get_world|]. intros w0.
  apply obeys_bind; [apply walks_when_dbg|]. intros _.
  apply obeys_bind; [apply walks_ignore|]. intros [|]; [apply obeys_ret|].
  apply obeys_bind.
  { destruct (trans_w d); [apply walks_apply_trans_w | apply obeys_ret]. }
  intros np.
  assert (Hgo : walks (isd <- isdir match np with
                                    | Some p => p
                                    | None => OsPath.expanduser (os_env X) path
                                    end ;;
                       r <- (if isd
                             then _handle_dir X self
                                    match np with
                                    | Some p => p
                                    | None => OsPath.expanduser (os_env X) path
                                    end
                                    (OsPath.expanduser (os_env X)
                                       (OsPath.join (abs_or_rel (conf self) (dotpath self))
                                                    (src d)))
                             else _handle_file X self
                                    match np with
                                    | Some p => p
                                    | None => OsPath.expanduser (os_env X) path
                                    end
                                    (OsPath.expanduser (os_env X)
                                       (OsPath.join (abs_or_rel (conf self) (dotpath self))
                                                    (src d)))
                                    true) ;;
                       match np with
                       | Some p => e <- path_exists p ;; when e (utils_remove p)
                       | None => ret tt
                       end ;;;
                       ret r)).
  { apply obeys_bind; [apply walks_isdir|]. intros isd.
    apply obeys_bind.
    { destruct isd; [apply walks_handle_dir | apply walks_handle_file, C_all]. }
    intros r. apply obeys_bind; [|intros _; apply obeys_ret].
    destruct np; [apply walks_cleanup | apply obeys_ret]. }
  destruct (trans_w d), np; first [exact Hgo | apply obeys_ret].
Qed.

Lemma walks_get_dotfile_by_key k : walks (_get_dotfile_by_key self k).
Proof.
  apply walks_events. intros w. rewrite get_dotfile_by_key_spec. cbv zeta.
  destruct (filter _ _) as [|d [|d' rest]]; repeat constructor; apply P_log.
Qed.

Lemma walks_get_dotfile_by_path path : walks (_get_dotfile_by_path self path).
Proof.
  apply walks_events. intros w. rewrite get_dotfile_by_path_spec. cbv zeta.
  destruct (filter _ _) as [|d [|d' rest]]; repeat constructor; apply P_log.
Qed.

Lemma walks_update_key k : walks (update_key X self k).
Proof.
  unfold update_key.
  apply obeys_bind; [apply walks_get_dotfile_by_key|]. intros [d|]; [|apply obeys_ret].
  apply obeys_bind; [apply walks_when_dbg | intros _; apply walks_update].
Qed.

Lemma walks_update_path path : walks (update_path X self path).
Proof.
  unfold update_path.
  apply obeys_bind; [apply walks_events; intros w; constructor|]. intros [|]; cbn [negb].
  2:{ apply obeys_bind; [apply walks_log | intros _; apply obeys_ret]. }
  apply obeys_bind; [apply walks_get_dotfile_by_path|]. intros [d|]; [|apply obeys_ret].
  apply obeys_bind; [apply walks_when_dbg | intros _; apply walks_update].
Qed.

End Whole.

End Walk.

(** ** Prompts and previews *)

(** Prompts belong to safe mode, preview files to [showpatch]. *)
Definition consented (self : Updater) (e : event) : Prop :=
  match e with
  | Ask _ _ => safe self = true
  | WriteTmp _ _ => showpatch self = true
  | _ => True
  end.

(** X9: whatever an update does, by key or by path, it puts a question to
    the user only in safe mode and writes a preview file only with
    [showpatch]: outside safe mode an update never waits for an answer. *)
Theorem update_asks_in_safe_mode_only (X : externals) (self : Updater)
        (arg : string) (w : world) :
  Forall (consented self) (snd (update_key X self arg w))
  /\ Forall (consented self) (snd (update_path X self arg w)).
Proof.
  assert (Hk : forall m : string -> M bool,
             (forall a, walks (consented self) (m a)) ->
             Forall (consented self) (snd (m arg w))).
  { intros m Hm. exact (proj2 (Hm arg w I)). }
  split; apply Hk; intros a.
  - apply walks_update_key with (C := fun _ _ => True) (Rm := fun _ => True);
      cbn; auto.
  - apply walks_update_path with (C := fun _ _ => True) (Rm := fun _ => True);
      cbn; auto.
Qed.

(** ** Copies go from an entry to its mirror image *)

Lemma wf_get cs : forall n k, wf n -> FS.get cs n = Some k -> wf k.
Proof.
  induction cs as [|c cs IH]; intros n k Hn H; cbn in H.
  - inversion H; subst. exact Hn.
  - destruct n as [|es]; [discriminate|].
    destruct (FS.lookup c es) as [v|] eqn:Hv; [|discriminate].
    apply (IH v k); [|exact H]. exact (proj2 (wf_lookup es c v Hn Hv)).
Qed.

(** [starts J P m]: from a world where [J] holds, every event of [m]
    satisfies [P]; nothing is said of the world [m] ends in. *)
Definition starts {A} (J : world -> Prop) (P : event -> Prop) (m : M A) : Prop :=
  forall w, J w -> Forall P (snd (m w)).

Lemma starts_obeys {A} (J : world -> Prop) (P : event -> Prop) (m : M A) :
  obeys (fun _ => True) P m -> starts J P m.
Proof. intros H w _. exact (proj2 (H w I)). Qed.

Lemma starts_bind {A B} (J : world -> Prop) (P : event -> Prop)
      (m : M A) (f : A -> M B) (Q : A -> Prop) :
  obeys J P m -> yields J m Q -> (forall a, Q a -> starts J P (f a)) ->
  starts J P (bind m f).
Proof.
  intros Hm HQ Hf w Hw. unfold bind.
  destruct (Hm w Hw) as [H1 H2]. specialize (HQ w).
  destruct (m w) as [[[a|x] w1] e1]; cbn in *; [|exact H2].
  pose proof (Hf a (HQ a w1 e1 Hw eq_refl) w1 H1) as H3.
  destruct (f a w1) as [[r w2] e2]; cbn in *.
  apply Forall_app; now split.
Qed.

(** A way down a tree: plain names, none of them one [dircmp] hides. *)
Definition way_down (rel : list string) : Prop :=
  Forall (fun x => simple x /\ hidden x = false) rel.

Section Mirror.

Variables left right : string.

(** [s] and [t] name the entry at the same relative path, at least one
    name deep, below [left] and below [right]; a path counts for the
    components the filesystem walks along. *)
Definition below (s t : string) : Prop :=
  exists rel, rel <> [] /\ way_down rel
              /\ FS.comps s = FS.comps left ++ rel
              /\ FS.comps t = FS.comps right ++ rel.

(** The two sides of one comparison, at any depth. *)
Definition reach (q q' : string) : Prop :=
  exists rel, way_down rel
              /\ FS.comps q = FS.comps left ++ rel
              /\ FS.comps q' = FS.comps right ++ rel.

Lemma reach_top : reach left right.
Proof. exists []. rewrite !app_nil_r. repeat split. constructor. Qed.

Lemma reach_below q q' x :
  reach q q' -> simple x -> hidden x = false ->
  below (OsPath.join q x) (OsPath.join q' x).
Proof.
  intros (rel & Hrel & Hq & Hq') Hs Hh. exists (rel ++ [x]). split; [|split; [|split]].
  - destruct rel; discriminate.
  - apply Forall_app. split; [exact Hrel|]. apply Forall_cons; [now split | apply Forall_nil].
  - now rewrite (comps_join q x Hs), Hq, app_assoc.
  - now rewrite (comps_join q' x Hs), Hq', app_assoc.
Qed.

Lemma below_reach s t : below s t -> reach s t.
Proof. intros (rel & _ & H). exists rel. exact H. Qed.

(** [p] is an entry, at least one name deep, below [right]. *)
Definition managed_entry (p : string) : Prop :=
  exists rel, rel <> [] /\ way_down rel /\ FS.comps p = FS.comps right ++ rel.

Lemma below_managed s t : below s t -> managed_entry t.
Proof. intros (rel & H1 & H2 & _ & H3). exists rel. auto. Qed.

Lemma simple_listed x es : wf (Dir es) -> FS.lookup x es <> None -> simple x.
Proof.
  intros Hw Hx. destruct (FS.lookup x es) as [v|] eqn:E; [|contradiction].
  exact (proj1 (wf_lookup es x v Hw E)).
Qed.

Lemma fits_dircmp_node (n : node) :
  forall q q' R, wf n -> wf (Dir R) -> reach q q' ->
                 fits below managed_entry (dircmp_node q q' n R).
Proof.
  induction n as [d m|L IH] using node_induction; intros q q' R HL HR Hq.
  - constructor; intros x [].
  - rewrite dircmp_node_dir. constructor.
    + intros x Hx. apply in_left_only in Hx as (Hh & Hl & _).
      apply reach_below; [exact Hq | now apply simple_listed with L | exact Hh].
    + intros x Hx. apply in_right_only in Hx as (Hh & _ & Hr).
      apply below_managed with (OsPath.join q x).
      apply reach_below; [exact Hq | now apply simple_listed with R | exact Hh].
    + intros x Hx. cbn [app] in Hx. apply in_app_iff in Hx as [Hx|Hx].
      * apply in_diff_files in Hx as (Hh & a & b & Ha & _).
        apply reach_below; [exact Hq | | exact Hh].
        apply simple_listed with L; [exact HL | congruence].
      * apply in_common_funny in Hx as (Hh & a & b & Ha & _).
        apply reach_below; [exact Hq | | exact Hh].
        apply simple_listed with L; [exact HL | congruence].
    + intros [x sub] Hx. apply in_subdirs_of in Hx as (Lx & Rx & Hin & HRx & Hh & ->).
      rewrite Forall_forall in IH. cbn [snd].
      assert (HLx : wf (Dir Lx)).
      { inversion HL as [|es' _ _ Hw]; subst. rewrite Forall_forall in Hw.
        exact (Hw (x, Dir Lx) Hin). }
      assert (Hsx : simple x).
      { inversion HL as [|es' _ Hs _]; subst. rewrite Forall_forall in Hs.
        apply Hs. change x with (fst (x, Dir Lx)). now apply in_map. }
      apply (IH (x, Dir Lx) Hin).
      * exact HLx.
      * exact (proj2 (wf_lookup R x (Dir Rx) HR HRx)).
      * apply below_reach. now apply reach_below.
Qed.

End Mirror.

(** What [_handle_dir] may do on the pair [left], [right]. *)
Definition in_order (self : Updater) (left right : string) (e : event) : Prop :=
  match e with
  | Log _ _ => True
  | Ask _ _ => safe self = true
  | WriteTmp _ _ => showpatch self = true
  | Copyfile s t _ | Copytree s t _ => below left right s t
  | Remove p _ => managed_entry right p
  | Transform _ _ _ _ => False
  end.

(** The copy or the removal of the event stays out of [left]: the path
    written to parts ways with it. *)
Definition spares (left : string) (e : event) : Prop :=
  match e with
  | Copyfile _ t _ | Copytree _ t _ | Remove t _ =>
      diverge (FS.comps left) (FS.comps t)
  | _ => True
  end.

Lemma in_order_spares self left right e :
  diverge (FS.comps left) (FS.comps right) -> in_order self left right e -> spares left e.
Proof.
  intros Hd. destruct e as [| | s t ok | s t ok | p ok | |]; cbn; auto.
  - intros (rel & _ & _ & _ & ->).
    rewrite <- (app_nil_r (FS.comps left)). now apply diverge_app.
  - intros (rel & _ & _ & _ & ->).
    rewrite <- (app_nil_r (FS.comps left)). now apply diverge_app.
  - intros (rel & _ & _ & ->).
    rewrite <- (app_nil_r (FS.comps left)). now apply diverge_app.
Qed.

(** X10: on a filesystem whose directories list plain names, each once,
    every copy [_handle_dir] makes goes from the entry at some relative
    path below the deployed directory to the entry at the same relative
    path below the managed directory, and every removal is of an entry
    below the managed directory; the relative path is at least one name
    long and none of its names is one [dircmp] hides.  It runs no
    transformation, asks only in safe mode and writes a preview only with
    [showpatch].  When the two directories part ways, no copy and no
    removal is made on the deployed directory, on an entry below it or on
    a directory above it. *)
Theorem handle_dir_in_order (X : externals) (self : Updater)
        (left right : string) (w : world) :
  let l := OsPath.expanduser (os_env X) left in
  let r := OsPath.expanduser (os_env X) right in
  wf (fs w) ->
  Forall (in_order self l r) (snd (_handle_dir X self left right w))
  /\ (diverge (FS.comps l) (FS.comps r) ->
      Forall (spares l) (snd (_handle_dir X self left right w))).
Proof.
  intros l r Hwf.
  assert (Hlog : forall lvl msg, in_order self l r (Log lvl msg)) by (intros; exact I).
  assert (Hall : Forall (in_order self l r) (snd (_handle_dir X self left right w))).
  { revert w Hwf.
    change (starts (fun w => wf (fs w)) (in_order self l r) (_handle_dir X self left right)).
    unfold _handle_dir. fold l r.
    apply starts_bind with (Q := fun _ => True).
    { apply obeys_when, obeys_emit, Hlog. }
    { intros w a w' evs _ _. exact I. }
    intros _ _. apply starts_bind with (Q := fun _ => True).
    { intros w Hw. rewrite ignore_run. cbn [fst snd].
      split; [exact Hw | apply ignore_log_quiet, Hlog]. }
    { intros w a w' evs _ _. exact I. }
    intros [|] _; [apply starts_obeys, obeys_ret|].
    apply starts_bind with (Q := fits (below l r) (managed_entry r)).
    - intros w Hw. split; [|exact (proj2 (walks_dircmp (in_order self l r) l r w I))].
      unfold filecmp_dircmp. rewrite bind_get_world.
      destruct (stat w l) as [n|]; [destruct (stat w r) as [[d m|R]|]|]; exact Hw.
    - intros w diff w' evs Hw. unfold filecmp_dircmp. rewrite bind_get_world.
      destruct (stat w l) as [n|] eqn:El; [destruct (stat w r) as [[d m|R]|] eqn:Er|];
        intros E; inversion E; subst;
        first [ apply fits_dircmp_node;
                [ exact (wf_get _ _ _ Hw El) | exact (wf_get _ _ _ Hw Er) | apply reach_top ]
              | constructor; intros x [] ].
    - intros diff Hfit. apply starts_obeys.
      apply walks_merge_dirs with (C := below l r) (Rm := managed_entry r); cbn; auto. }
  split; [exact Hall|].
  intros Hd. eapply Forall_impl; [|exact Hall].
  intros e. now apply in_order_spares.
Qed.

Lemma handle_dir_in_order_witness :
  Forall (in_order (Sample.updater "main" false false false) "/home/alice/app" "/repo/app")
         (snd (_handle_dir (Sample.machine (Sample.always true))
                           (Sample.updater "main" false false false)
                           "~/app" "/repo/app" Sample.w0))
  /\ Forall (spares "/home/alice/app")
            (snd (_handle_dir (Sample.machine (Sample.always true))
                              (Sample.updater "main" false false false)
                              "~/app" "/repo/app" Sample.w0)).
Proof.
  destruct (handle_dir_in_order (Sample.machine (Sample.always true))
                                (Sample.updater "main" false false false)
                                "~/app" "/repo/app" Sample.w0
                                (wfb_wf (fs Sample.w0) eq_refl)) as [H1 H2].
  split; [exact H1|]. apply H2. apply divergeb_diverge. reflexivity.
Defined.

(** ** Merging twice, with the cache of [filecmp] (C2) *)

(** A regular file found after a write was there before it, or lies in
    what was written. *)
Lemma get_write_file b v : forall a n n' d t,
  FS.write b v n = Some n' -> FS.get a n' = Some (File d t) ->
  (exists ys, a = b ++ ys /\ FS.get ys v = Some (File d t))
  \/ FS.get a n = Some (File d t).
Proof.
  induction b as [|c b IH]; intros a n n' d t Hw Hg; cbn in Hw.
  - inversion Hw; subst. left. exists a. now split.
  - destruct n as [|es]; [discriminate|].
    destruct a as [|x a]; cbn [FS.get] in Hg.
    { exfalso. destruct (FS.lookup c es) as [k|].
      - destruct (FS.write b v k); [|discriminate]. inversion Hw; subst. discriminate.
      - destruct b; [|discriminate]. inversion Hw; subst. discriminate. }
    destruct (string_dec c x) as [->|Hcx].
    + destruct (FS.lookup x es) as [k|] eqn:Hk.
      * destruct (FS.write b v k) as [k'|] eqn:Hk'; [|discriminate].
        inversion Hw; subst. cbn [FS.get] in Hg. rewrite lookup_set_same in Hg.
        destruct (IH a k k' d t Hk' Hg) as [(ys & -> & Hys)|Hold].
        -- left. exists ys. now split.
        -- right. cbn [FS.get]. now rewrite Hk.
      * destruct b; [|discriminate]. inversion Hw; subst.
        cbn [FS.get] in Hg. rewrite lookup_set_same in Hg.
        left. exists a. now split.
    + right. cbn [FS.get].
      assert (Hn : exists es', n' = Dir es' /\ FS.lookup x es' = FS.lookup x es).
      { destruct (FS.lookup c es) as [k|].
        - destruct (FS.write b v k); [|discriminate]. inversion Hw; subst.
          eexists. split; [reflexivity|]. now apply lookup_set_other.
        - destruct b; [|discriminate]. inversion Hw; subst.
          eexists. split; [reflexivity|]. now apply lookup_set_other. }
      destruct Hn as (es' & -> & Hx). cbn [FS.get] in Hg. now rewrite Hx in Hg.
Qed.

(** A regular file found after a removal was there before it. *)
Lemma get_erase_file b : forall a n n' d t,
  FS.erase b n = Some n' -> FS.get a n' = Some (File d t) -> FS.get a n = Some (File d t).
Proof.
  induction b as [|c b IH]; intros a n n' d t He Hg; cbn in He; [discriminate|].
  destruct n as [|es]; [discriminate|].
  destruct (FS.lookup c es) as [k|] eqn:Hk; [|discriminate].
  destruct a as [|x a].
  { exfalso. destruct b.
    - inversion He; subst. discriminate.
    - destruct (FS.erase _ k); [|discriminate]. inversion He; subst. discriminate. }
  destruct (string_dec c x) as [->|Hcx].
  - destruct b as [|c' b'].
    + inversion He; subst. cbn [FS.get] in Hg. now rewrite lookup_unset_same in Hg.
    + destruct (FS.erase (c' :: b') k) as [k'|] eqn:Hk'; [|discriminate].
      inversion He; subst. cbn [FS.get] in Hg |- *. rewrite lookup_set_same in Hg.
      rewrite Hk. now apply (IH a k k').
  - assert (Hn : exists es', n' = Dir es' /\ FS.lookup x es' = FS.lookup x es).
    { destruct b as [|c' b'].
      - inversion He; subst. eexists. split; [reflexivity|]. now apply lookup_unset_other.
      - destruct (FS.erase (c' :: b') k); [|discriminate]. inversion He; subst.
        eexists. split; [reflexivity|]. now apply lookup_set_other. }
    destruct Hn as (es' & -> & Hx). cbn [FS.get] in Hg |- *. now rewrite Hx in Hg.
Qed.

Lemma all_pass (evs : list event) : Forall (fun _ => True) evs.
Proof. apply Forall_forall. intros; exact I. Qed.

(** *** A run of the merge keeps what its copies and removals keep *)

Section Tracks.

Variable X : externals.
Variable self : Updater.
Hypothesis Hsp : showpatch self = false.

Variable J : world -> Prop.
Variable C : string -> string -> Prop.
Variable Rm : string -> Prop.

Hypothesis J_asked : forall w,
  J w -> J {| fs := fs w; ignores := ignores w; asked := S (asked w);
              clock := clock w; tmpseq := tmpseq w |}.
Hypothesis J_copyfile : forall s t w n,
  C s t -> J w -> copyfile_outcome w s t = inl n -> J (stamp w n).
Hypothesis J_copytree : forall s t w n,
  C s t -> J w -> copytree_outcome w s t = inl n -> J (with_fs w n).
Hypothesis J_remove : forall p w n,
  Rm p -> J w -> FS.erase (FS.comps p) (fs w) = Some n -> J (with_fs w n).

Definition tracks {A} (m : M A) : Prop := obeys J (fun _ => True) m.

Lemma tracks_still {A} (m : M A) : (forall w, snd (fst (m w)) = w) -> tracks m.
Proof. intros H w Hw. split; [now rewrite H | apply all_pass]. Qed.

Lemma tracks_log lvl msg : tracks (emit (Log lvl msg)).
Proof. now apply obeys_emit. Qed.

Lemma tracks_when_dbg c msg : tracks (when c (log_dbg msg)).
Proof. apply obeys_when, tracks_log. Qed.

Lemma tracks_ignore paths : tracks (_ignore X self paths).
Proof. apply tracks_still. intros w. now rewrite ignore_run. Qed.

Lemma tracks_isdir p : tracks (isdir p).
Proof. now apply tracks_still. Qed.

Lemma tracks_path_exists p : tracks (path_exists p).
Proof. now apply tracks_still. Qed.

Lemma tracks_ask msg : tracks (log_ask X msg).
Proof. intros w Hw. split; [now apply J_asked | apply all_pass]. Qed.

Lemma tracks_copyfile s t : C s t -> tracks (copyfile s t).
Proof.
  intros H w Hw. unfold copyfile.
  destruct (copyfile_outcome w s t) eqn:E; (split; [|apply all_pass]); cbn;
    [now apply (J_copyfile s t) | exact Hw].
Qed.

Lemma tracks_copytree s t : C s t -> tracks (copytree s t).
Proof.
  intros H w Hw. unfold copytree.
  destruct (copytree_outcome w s t) eqn:E; (split; [|apply all_pass]); cbn;
    [now apply (J_copytree s t) | exact Hw].
Qed.

Lemma tracks_remove p : Rm p -> tracks (utils_remove p).
Proof.
  intros H w Hw. unfold utils_remove.
  destruct (FS.erase _ _) eqn:E; (split; [|apply all_pass]); cbn;
    [now apply (J_remove p) | exact Hw].
Qed.

Lemma tracks_overwrite s t : tracks (_overwrite X self s t).
Proof.
  unfold _overwrite. destruct (safe self); [|apply obeys_ret].
  apply obeys_bind; [apply tracks_ask|]. intros []; apply obeys_ret.
Qed.

Lemma tracks_confirm_rm_r p : tracks (_confirm_rm_r X self p).
Proof.
  unfold _confirm_rm_r. destruct (safe self); [|apply obeys_ret].
  apply obeys_bind; [apply tracks_ask|]. intros []; apply obeys_ret.
Qed.

Lemma tracks_is_template p : tracks (_is_template X p).
Proof.
  apply tracks_still. intros w. unfold _is_template.
  rewrite (bind_Ok _ _ _ (is_template_run X p w)).
  destruct (is_template X (stat w p)); reflexivity.
Qed.

Lemma tracks_cmp a b sh : tracks (filecmp_cmp a b sh).
Proof.
  apply tracks_still. intros w. unfold filecmp_cmp. rewrite bind_get_world.
  destruct (stat w a), (stat w b); reflexivity.
Qed.

Lemma tracks_handle_file left right compare :
  C left right -> tracks (_handle_file X self left right compare).
Proof.
  intros HC. unfold _handle_file.
  apply obeys_bind; [apply tracks_ignore|]. intros [|]; [apply obeys_ret|].
  apply obeys_bind; [apply tracks_when_dbg|]. intros _.
  apply obeys_bind; [apply tracks_is_template|]. intros [|].
  { apply obeys_bind; [apply tracks_when_dbg|]. intros _.
    apply obeys_bind; [|intros _; apply obeys_ret].
    rewrite Hsp. apply obeys_ret. }
  apply obeys_bind.
  { destruct compare; [apply tracks_cmp | apply obeys_ret]. }
  intros [|].
  { apply obeys_bind; [apply tracks_when_dbg | intros _; apply obeys_ret]. }
  apply obeys_bind; [apply tracks_overwrite|]. intros [|]; [|apply obeys_ret].
  apply obeys_try.
  - apply obeys_bind; [|intros _; apply obeys_ret].
    destruct (dry self); [apply tracks_log|].
    apply obeys_bind; [apply tracks_when_dbg|]. intros _. now apply tracks_copyfile.
  - intros what. apply obeys_bind; [apply tracks_log | intros _; apply obeys_ret].
Qed.

Lemma tracks_merge_dirs (diff : dircmp) :
  fits C Rm diff -> tracks (_merge_dirs X self diff).
Proof.
  induction diff as [l r err lo ro df ff cf subs IH] using dircmp_induction.
  intros Hfit. inversion Hfit as [? ? ? ? ? ? ? ? ? Hlo Hro Hdl Hsubs]; subst.
  cbn [_merge_dirs].
  apply obeys_bind; [apply tracks_when_dbg|]. intros _.
  apply obeys_bind; [apply tracks_ignore|]. intros [|]; [apply obeys_ret|].
  apply obeys_bind; [destruct err; [apply obeys_raise | apply obeys_ret]|]. intros _.
  apply obeys_bind.
  { apply obeys_forM. intros x Hx.
    apply obeys_bind; [apply tracks_isdir|]. intros [|]; [|apply obeys_ret].
    apply obeys_bind; [apply tracks_ignore|]. intros [|]; [apply obeys_ret|].
    destruct (dry self); [apply tracks_log|].
    apply obeys_bind; [apply tracks_when_dbg|]. intros _. now apply tracks_copytree, Hlo. }
  intros _. apply obeys_bind.
  { apply obeys_forM. intros x Hx.
    apply obeys_bind; [apply tracks_isdir|]. intros [|]; [|apply obeys_ret].
    apply obeys_bind; [apply tracks_ignore|]. intros [|]; [apply obeys_ret|].
    destruct (dry self); [apply tracks_log|].
    apply obeys_bind; [apply tracks_when_dbg|]. intros _.
    apply obeys_bind; [apply tracks_confirm_rm_r|]. intros [|]; [|apply obeys_ret].
    now apply tracks_remove, Hro. }
  intros _. apply obeys_bind.
  { apply obeys_forM. intros x Hx.
    apply obeys_bind; [apply tracks_ignore|]. intros [|]; [apply obeys_ret|].
    destruct (dry self); [apply tracks_log|].
    apply obeys_bind; [apply tracks_when_dbg|]. intros _.
    apply obeys_bind; [now apply tracks_handle_file, Hdl | intros _; apply obeys_ret]. }
  intros _. apply obeys_bind.
  { apply obeys_forM. intros x Hx.
    apply obeys_bind; [apply tracks_isdir|]. intros [|]; [apply obeys_ret|].
    apply obeys_bind; [apply tracks_ignore|]. intros [|]; [apply obeys_ret|].
    destruct (dry self); [apply tracks_log|].
    apply obeys_bind; [apply tracks_when_dbg|]. intros _. now apply tracks_copyfile, Hlo. }
  intros _. apply obeys_bind.
  { apply obeys_forM. intros x Hx.
    apply obeys_bind; [apply tracks_path_exists|]. intros [|]; [|apply obeys_ret].
    apply obeys_bind; [apply tracks_isdir|]. intros [|]; [apply obeys_ret|].
    apply obeys_bind; [apply tracks_ignore|]. intros [|]; [apply obeys_ret|].
    destruct (dry self); [apply tracks_log|].
    apply obeys_bind; [apply tracks_when_dbg|]. intros _. now apply tracks_remove, Hro. }
  intros _. apply obeys_bind; [|intros _; apply obeys_ret].
  apply obeys_forM. intros [x sub] Hin.
  apply obeys_bind; [|intros _; apply obeys_ret].
  rewrite Forall_forall in IH. apply (IH _ Hin). exact (Hsubs _ Hin).
Qed.

End Tracks.

Lemma older_mono t t' n : t <= t' -> older t n -> older t' n.
Proof.
  intros Hle. induction n as [d m|es IH] using node_induction; intros H;
    inversion H; subst; constructor; [lia|].
  rewrite Forall_forall in *. intros p Hp. apply IH; auto.
Qed.

Lemma older_some n : exists t, older t n.
Proof.
  induction n as [d m|es IH] using node_induction.
  - exists (S m). constructor. lia.
  - induction es as [|[x k] es IHes].
    + exists 0. constructor. constructor.
    + inversion IH as [|? ? [t1 H1] IH']; subst.
      destruct (IHes IH') as [t2 H2]. exists (Nat.max t1 t2). constructor.
      constructor.
      * cbn. apply older_mono with t1; [lia | exact H1].
      * inversion H2 as [|? Hall]; subst. rewrite Forall_forall in *.
        intros p Hp. apply older_mono with t2; [lia | now apply Hall].
Qed.

Lemma stamped_before_mono t t' c : t <= t' -> stamped_before t c -> stamped_before t' c.
Proof.
  intros Hle H. unfold stamped_before in *. rewrite Forall_forall in *.
  intros e He. specialize (H e He). lia.
Qed.

Lemma stamped_before_some c : exists t, stamped_before t c.
Proof.
  induction c as [|e c [t H]].
  - exists 0. constructor.
  - exists (Nat.max t (S (snd (snd (fst e))))). constructor;
      [eapply Nat.lt_le_trans; [apply Nat.lt_succ_diag_r | apply Nat.le_max_r]|].
    apply stamped_before_mono with t; [lia | exact H].
Qed.

(** *** Where the files of the managed side come from *)

Section Prov.

Variables left right : string.
Variable fs0 : node.
Variable t0 : nat.

Hypothesis Hdiv : diverge (FS.comps left) (FS.comps right).

(** Since the tree was [fs0], at time [t0]: nothing outside the managed
    directory has changed, and a file of the managed directory that
    carries a stamp from before [t0] is the file that was there, or the
    file at the same place of the deployed directory. *)
Definition prov (w : world) : Prop :=
  t0 <= clock w
  /\ (forall cs, diverge cs (FS.comps right) -> FS.get cs (fs w) = FS.get cs fs0)
  /\ (forall xs d t,
        FS.get (FS.comps right ++ xs) (fs w) = Some (File d t) -> t < t0 ->
        FS.get (FS.comps right ++ xs) fs0 = Some (File d t)
        \/ FS.get (FS.comps left ++ xs) fs0 = Some (File d t)).

Lemma diverge_left xs : diverge (FS.comps left ++ xs) (FS.comps right).
Proof. rewrite <- (app_nil_r (FS.comps right)). now apply diverge_app. Qed.

Lemma diverge_right cs xs :
  diverge cs (FS.comps right) -> diverge cs (FS.comps right ++ xs).
Proof. intros H. rewrite <- (app_nil_r cs). now apply diverge_app. Qed.

Lemma prov_asked w :
  prov w -> prov {| fs := fs w; ignores := ignores w; asked := S (asked w);
                    clock := clock w; tmpseq := tmpseq w |}.
Proof. intros H. exact H. Qed.

Lemma get_file_below d m ys k :
  FS.get ys (File d m) = Some k -> ys = [] /\ k = File d m.
Proof. destruct ys; cbn; [intros H; inversion H; auto | discriminate]. Qed.

Lemma prov_copyfile s t w n :
  below left right s t -> prov w -> copyfile_outcome w s t = inl n -> prov (stamp w n).
Proof.
  intros (rel & Hne & Hrel & Hs & Ht) (Hc & Hout & Hin) Hcopy.
  unfold copyfile_outcome, stat in Hcopy.
  destruct (FS.get (FS.comps s) (fs w)) as [[data ms|]|]; try discriminate.
  destruct (same_path s t); [discriminate|].
  assert (Hw : FS.write (FS.comps t) (File data (clock w)) (fs w) = Some n).
  { destruct (FS.get (FS.comps t) (fs w)) as [[|]|]; try discriminate;
      destruct (FS.write _ _ (fs w)); inversion Hcopy; reflexivity. }
  clear Hcopy. rewrite Ht in Hw. repeat split; cbn [clock fs stamp].
  - lia.
  - intros cs Hcs. rewrite <- (Hout cs Hcs).
    eapply get_write_diverge; [|exact Hw]. now apply diverge_right.
  - intros xs d tm Hg Hold.
    destruct (get_write_file _ _ _ _ _ _ _ Hw Hg) as [(ys & E & Hys)|Hprev].
    + apply get_file_below in Hys as [_ Hys]. inversion Hys; subst. lia.
    + now apply Hin.
Qed.

Lemma prov_copytree s t w n :
  below left right s t -> prov w -> copytree_outcome w s t = inl n -> prov (with_fs w n).
Proof.
  intros (rel & Hne & Hrel & Hs & Ht) (Hc & Hout & Hin) Hcopy.
  unfold copytree_outcome, stat in Hcopy.
  destruct (FS.get (FS.comps s) (fs w)) as [[|es]|] eqn:Hsrc; try discriminate.
  destruct (FS.get (FS.comps t) (fs w)); [discriminate|].
  destruct (FS.write (FS.comps t) (Dir es) (fs w)) as [n'|] eqn:Hw; [|discriminate].
  inversion Hcopy; subst n'. clear Hcopy. rewrite Ht in Hw. rewrite Hs in Hsrc.
  repeat split; cbn [clock fs with_fs].
  - exact Hc.
  - intros cs Hcs. rewrite <- (Hout cs Hcs).
    eapply get_write_diverge; [|exact Hw]. now apply diverge_right.
  - intros xs d tm Hg Hold.
    destruct (get_write_file _ _ _ _ _ _ _ Hw Hg) as [(ys & E & Hys)|Hprev].
    + right. rewrite <- app_assoc in E. apply app_inv_head in E. subst xs.
      rewrite <- (Hout _ (diverge_left (rel ++ ys))), app_assoc.
      clear - Hsrc Hys. revert Hsrc Hys. generalize (FS.comps left ++ rel) as cs.
      generalize (fs w) as root.
      intros root cs. revert root. induction cs as [|c cs IH]; intros root H1 H2; cbn in *.
      * inversion H1; subst. exact H2.
      * destruct root as [|rs]; [discriminate|].
        destruct (FS.lookup c rs); [|discriminate]. now apply IH.
    + now apply Hin.
Qed.

Lemma prov_remove p w n :
  managed_entry right p -> prov w -> FS.erase (FS.comps p) (fs w) = Some n ->
  prov (with_fs w n).
Proof.
  intros (rel & Hne & Hrel & Hp) (Hc & Hout & Hin) He. rewrite Hp in He.
  repeat split; cbn [clock fs with_fs].
  - exact Hc.
  - intros cs Hcs. rewrite <- (Hout cs Hcs).
    eapply get_erase_diverge; [|exact He]. now apply diverge_right.
  - intros xs d tm Hg Hold. apply Hin; [|exact Hold].
    now apply (get_erase_file _ _ _ _ _ _ He).
Qed.

End Prov.

(** A cache that was right for the files of the pair before the run, and
    holds no verdict given for a managed file stamped [t0] or later, is
    right for the files after the run. *)
Lemma mirror_sound_after left right w w1 c :
  diverge (FS.comps left) (FS.comps right) ->
  mirror_sound (FS.comps left) (FS.comps right) (fs w) c ->
  stamped_before (clock w) c ->
  prov left right (fs w) (clock w) w1 ->
  mirror_sound (FS.comps left) (FS.comps right) (fs w1) c.
Proof.
  intros Hdiv Hs Hst (Hc & Hout & Hin) f1 f2 xs d1 m1 d2 m2 o Hf1 Hf2 Hg1 Hg2 Hne Hget.
  rewrite Hf1 in Hg1. rewrite Hf2 in Hg2.
  rewrite (Hout _ (diverge_left left right Hdiv xs)) in Hg1.
  assert (Hm : m2 < clock w).
  { apply cache_get_In in Hget as (k & Hk & E). apply key_eqb_eq in E. subst k.
    unfold stamped_before in Hst. rewrite Forall_forall in Hst.
    exact (Hst _ Hk). }
  destruct (Hin xs d2 m2 Hg2 Hm) as [Hwas|Htwin].
  - apply (Hs f1 f2 xs d1 m1 d2 m2 o); auto; congruence.
  - rewrite Hg1 in Htwin. inversion Htwin; subst.
    cbn in Hne. rewrite !Nat.eqb_refl in Hne. discriminate.
Qed.

Lemma merge_pair_plain X self left right l R w :
  stat w left = Some l -> stat w right = Some (Dir R) ->
  merge_pair X self left right w = _merge_dirs X self (dircmp_node left right l R) w.
Proof.
  intros H1 H2. unfold merge_pair.
  rewrite (bind_Ok _ _ _ (dircmp_run left right l R w H1 H2)).
  now destruct (_merge_dirs X self _ w) as [[r w2] e2].
Qed.

(** With a cache that is right for the files of the pair, the run with
    the cache is the run without it. *)
Lemma merge_pair_with_cache_plain X self left right L R w c t :
  wf (Dir L) -> wf (Dir R) -> older t (Dir R) ->
  stat w left = Some (Dir L) -> stat w right = Some (Dir R) ->
  mirror_sound (FS.comps left) (FS.comps right) (fs w) c ->
  stamped_before t c ->
  exists c',
    merge_pair_with_cache X self left right c w = (merge_pair X self left right w, c')
    /\ mirror_sound (FS.comps left) (FS.comps right) (fs w) c'
    /\ stamped_before t c'.
Proof.
  intros HL HR Hold HsL HsR Hs Hst.
  destruct (dircmp_node_with_cache_kept (FS.comps left) (FS.comps right) (fs w) t (Dir L)
              c left right [] R HL HR Hold) as (c' & Hrun & Hs' & Hst');
    rewrite ?app_nil_r; auto; [now split|].
  exists c'. split; [|now split].
  unfold merge_pair_with_cache. rewrite HsL, HsR, Hrun.
  now rewrite (merge_pair_plain X self left right (Dir L) R w HsL HsR).
Qed.

(** C2, amended: for a deployed directory and a managed directory whose
    trees list plain names, each once, on paths that part ways, with the
    preview of templates switched off, prompts that get the same answer
    whenever they are asked, every file of the managed directory last
    written before the first run begins, and a cache of [filecmp] that, as
    the first run begins, is right for the files of the pair and holds no
    verdict given for a managed file stamped then or later (an empty
    cache, for one): the first run returns [True] and leaves a cache of
    that kind; a second run, started with the cache the first one left or
    with any other of that kind, returns [True], leaves the filesystem as
    it is and performs no copy and no removal.  With the cache each of
    the two runs is the run without it. *)
Theorem merge_twice_settled X self left right L R w c :
  showpatch self = false ->
  (forall n m msg, ask_reply X n msg = ask_reply X m msg) ->
  wf (Dir L) -> wf (Dir R) ->
  older (clock w) (Dir R) ->
  stamped_before (clock w) c ->
  mirror_sound (FS.comps left) (FS.comps right) (fs w) c ->
  diverge (FS.comps left) (FS.comps right) ->
  stat w left = Some (Dir L) -> stat w right = Some (Dir R) ->
  exists w1 e1 c1 w2 e2,
    merge_pair_with_cache X self left right c w = (Ok true, w1, e1, c1)
    /\ stamped_before (clock w) c1
    /\ mirror_sound (FS.comps left) (FS.comps right) (fs w) c1
    /\ (forall c',
          stamped_before (clock w) c' ->
          mirror_sound (FS.comps left) (FS.comps right) (fs w) c' ->
          exists c2,
            merge_pair_with_cache X self left right c' w1 = (Ok true, w2, e2, c2))
    /\ merge_pair X self left right w = (Ok true, w1, e1)
    /\ merge_pair X self left right w1 = (Ok true, w2, e2)
    /\ fs w2 = fs w1
    /\ Forall (fun e => performed e = false) e2.
Proof.
  intros Hsp Hreply HL HR Hold Hst Hs Hdiv HsL HsR.
  destruct (merge_settles X self (ignores w) Hsp Hreply (Dir L) HL L eq_refl
                          left right R w HR Hdiv eq_refl HsL HsR)
    as (R' & w1 & e1 & Hrun & Hwr & Hi & Hwf & Hnoop).
  assert (HsL1 : stat w1 left = Some (Dir L)).
  { unfold stat. rewrite (get_write_diverge _ _ _ Hdiv _ _ Hwr). exact HsL. }
  assert (HsR1 : stat w1 right = Some (Dir R')).
  { unfold stat. eapply get_write_same. exact Hwr. }
  destruct (Hnoop w1 Hi HsL1 HsR1) as (w2 & e2 & Hrun2 & Hf & _ & Hq).
  assert (Hp1 : merge_pair X self left right w = (Ok true, w1, e1))
    by now rewrite (merge_pair_plain X self left right (Dir L) R w HsL HsR).
  assert (Hp2 : merge_pair X self left right w1 = (Ok true, w2, e2))
    by now rewrite (merge_pair_plain X self left right (Dir L) R' w1 HsL1 HsR1).
  (* the first run, with the cache *)
  destruct (merge_pair_with_cache_plain X self left right L R w c (clock w)
              HL HR Hold HsL HsR Hs Hst) as (c1 & Hc1 & Hs1 & Hst1).
  (* what the first run has written *)
  assert (Hprov : prov left right (fs w) (clock w) w1).
  { assert (Hfit : fits (below left right) (managed_entry right)
                        (dircmp_node left right (Dir L) R)).
    { apply fits_dircmp_node; [exact HL | exact HR | apply reach_top]. }
    pose proof (tracks_merge_dirs X self Hsp (prov left right (fs w) (clock w))
                  (below left right) (managed_entry right)
                  (prov_asked left right (fs w) (clock w))
                  (prov_copyfile left right (fs w) (clock w))
                  (prov_copytree left right (fs w) (clock w) Hdiv)
                  (prov_remove left right (fs w) (clock w))
                  _ Hfit w) as Ht.
    rewrite Hrun in Ht. apply Ht. repeat split; auto. }
  exists w1, e1, c1, w2, e2.
  rewrite Hc1, Hp1, Hp2. repeat split; auto.
  (* the second run, with the cache *)
  intros c' Hst' Hs'.
  pose proof (mirror_sound_after left right w w1 c' Hdiv Hs' Hst' Hprov) as Hs1'.
  destruct (older_some (Dir R')) as [t1 Ht1].
  destruct (stamped_before_some c') as [t2 Ht2].
  destruct (merge_pair_with_cache_plain X self left right L R' w1 c' (Nat.max t1 t2)
              HL Hwf) as (c2 & Hc2 & _); auto.
  { apply older_mono with t1; [lia | exact Ht1]. }
  { apply stamped_before_mono with t2; [lia | exact Ht2]. }
  exists c2. now rewrite Hc2, Hp2.
Qed.

(** The premise on the stamps cannot be dropped: a managed file as long as
    the deployed one and stamped with the very tick of the copy keeps its
    signature when it is overwritten; the second run finds the verdict of
    the first in the cache and copies the file again, where the
    comparison without the cache finds the two files identical. *)
Example stale_verdict_copies_again :
  let X := Sample.machine (Sample.always true) in
  let self := Sample.updater "main" false false false in
  let w := {| fs := Dir [("d", Dir [("a.txt", File "new a" 5)]);
                         ("r", Dir [("a.txt", File "old a" 10)])];
              ignores := []; asked := 0; clock := 10; tmpseq := 0 |} in
  let '(r1, w1, e1, c1) := merge_pair_with_cache X self "/d" "/r" [] w in
  r1 = Ok true
  /\ snd (fst (merge_pair_with_cache X self "/d" "/r" c1 w1))
     = [Copyfile "/d/a.txt" "/r/a.txt" true]
  /\ snd (merge_pair X self "/d" "/r" w1) = [].
Proof. repeat split. Qed.

Lemma merge_twice_settled_witness :
  exists w1 e1 c1 w2 e2 c2,
    merge_pair_with_cache (Sample.machine (Sample.always true))
                          (Sample.updater "main" false true false)
                          "/home/alice/app" "/repo/app" [] Sample.w0 = (Ok true, w1, e1, c1)
    /\ merge_pair_with_cache (Sample.machine (Sample.always true))
                             (Sample.updater "main" false true false)
                             "/home/alice/app" "/repo/app" c1 w1 = (Ok true, w2, e2, c2)
    /\ merge_pair (Sample.machine (Sample.always true)) (Sample.updater "main" false true false)
                  "/home/alice/app" "/repo/app" Sample.w0 = (Ok true, w1, e1)
    /\ merge_pair (Sample.machine (Sample.always true)) (Sample.updater "main" false true false)
                  "/home/alice/app" "/repo/app" w1 = (Ok true, w2, e2)
    /\ fs w2 = fs w1
    /\ Forall (fun e => performed e = false) e2.
Proof.
  destruct (merge_twice_settled (Sample.machine (Sample.always true))
              (Sample.updater "main" false true false) "/home/alice/app" "/repo/app"
              (Sample.app_deployed) (Sample.app_managed) Sample.w0 [])
    as (w1 & e1 & c1 & w2 & e2 & H1 & Hst & Hs & H2 & H3 & H4 & H5 & H6).
  - reflexivity.
  - reflexivity.
  - apply wfb_wf. reflexivity.
  - apply wfb_wf. reflexivity.
  - apply olderb_older. reflexivity.
  - constructor.
  - intros f1 f2 xs d1 m1 d2 m2 o _ _ _ _ _ H. discriminate H.
  - apply divergeb_diverge. reflexivity.
  - reflexivity.
  - reflexivity.
  - destruct (H2 c1 Hst Hs) as (c2 & H2').
    exists w1, e1, c1, w2, e2, c2. auto 8.
Defined.

(** ** One file *)

(** What [_handle_file] may do on the pair [left], [right]. *)
Definition only_copy (self : Updater) (left right : string) (e : event) : Prop :=
  match e with
  | Log _ _ => True
  | Ask _ _ => safe self = true
  | WriteTmp _ _ => showpatch self = true
  | Copyfile s t _ => s = left /\ t = right
  | Copytree _ _ _ | Remove _ _ | Transform _ _ _ _ => False
  end.

(** X11: the one call [_handle_file] can make on the deployed or the
    managed side is [copyfile(left, right)]: it removes nothing, copies no
    tree and never copies towards the deployed file. *)
Theorem handle_file_only_copy (X : externals) (self : Updater)
        (left right : string) (compare : bool) (w : world) :
  Forall (only_copy self left right) (snd (_handle_file X self left right compare w)).
Proof.
  assert (Hw : walks (only_copy self left right) (_handle_file X self left right compare)).
  { apply walks_handle_file with (C := fun s t => s = left /\ t = right); cbn; auto. }
  exact (proj2 (Hw w I)).
Qed.

(** A write to [b] leaves the regular file at another path [a] alone. *)
Lemma get_write_past_file a : forall b v n n' d m,
  a <> b -> FS.get a n = Some (File d m) -> FS.is_dir (FS.get b n) = false ->
  FS.write b v n = Some n' -> FS.get a n' = Some (File d m).
Proof.
  induction a as [|c a IH]; intros b v n n' d m Hab Ha Hb Hw.
  - cbn in Ha. inversion Ha; subst.
    destruct b as [|c' b]; [contradiction | discriminate].
  - destruct n as [|es]; [discriminate|]. cbn [FS.get] in Ha.
    destruct (FS.lookup c es) as [k|] eqn:Hk; [|discriminate].
    destruct b as [|c' b]; [discriminate|]. cbn [FS.get FS.write] in Hb, Hw.
    destruct (string_dec c' c) as [->|Hc].
    + rewrite Hk in Hb, Hw.
      destruct (FS.write b v k) as [k'|] eqn:Hk'; [|discriminate].
      inversion Hw; subst. cbn [FS.get]. rewrite lookup_set_same.
      apply (IH b v k k' d m); auto. congruence.
    + assert (Hn : exists es', n' = Dir es' /\ FS.lookup c es' = Some k).
      { destruct (FS.lookup c' es) as [k2|].
        - destruct (FS.write b v k2) as [k'|]; [|discriminate]. inversion Hw; subst.
          eexists. split; [reflexivity|]. now rewrite lookup_set_other.
        - destruct b; [|discriminate]. inversion Hw; subst.
          eexists. split; [reflexivity|]. now rewrite lookup_set_other. }
      destruct Hn as (es' & -> & Hk2). cbn [FS.get]. now rewrite Hk2.
Qed.

Section Twice.

Variable X : externals.
Variable self : Updater.

Ltac differs Hdiff Hrun :=
  let a := fresh "a" in let b := fresh "b" in
  let Ha := fresh "Ha" in let Hb := fresh "Hb" in let Hc := fresh "Hc" in
  match type of Hrun with
  | context [if ?c then _ else _] =>
      match type of Hdiff with
      | found_different _ _ _ c =>
          destruct c;
          [ destruct (Hdiff eq_refl) as (a & b & Ha & Hb & Hc);
            run_in Hrun; rewrite Ha, Hb in Hrun; run_in Hrun;
            rewrite Hc in Hrun; run_in Hrun
          | run_in Hrun ]
      end
  end.

Lemma handle_file_copies (left right : string) (compare : bool) (w : world) (n : node) :
  must_ignore X [left; right] (ignores w) = false ->
  is_template X (stat w right) = false ->
  found_different w left right compare ->
  (safe self = true -> ask_reply X (asked w) (overwrite_prompt left right) = true) ->
  dry self = false ->
  copyfile_outcome w left right = inl n ->
  exists w1 e1,
    _handle_file X self left right compare w = (Ok true, w1, e1)
    /\ fs w1 = n /\ ignores w1 = ignores w.
Proof.
  intros Hign Htpl Hdiff Hyes Hdry Hcopy. unfold overwrite_prompt in Hyes.
  destruct (_handle_file X self left right compare w) as [[r w1] e1] eqn:Hrun.
  run_in Hrun. rewrite Hign in Hrun.
  destruct (debug self); run_in Hrun; rewrite Htpl in Hrun; run_in Hrun;
    differs Hdiff Hrun;
    (destruct (safe self);
     [ rewrite (Hyes eq_refl) in Hrun; run_in Hrun; rewrite Hdry in Hrun; run_in Hrun;
       rewrite copyfile_outcome_asked in Hrun
     | run_in Hrun; rewrite Hdry in Hrun; run_in Hrun ]);
    rewrite Hcopy in Hrun; run_in Hrun;
    inversion Hrun; subst; clear Hrun; eexists _, _; repeat split.
Qed.

End Twice.

(** X12: a file that [_handle_file] has just copied is found identical by
    the next [_handle_file] on the same pair, which returns [True] and
    neither asks nor writes: the copy has the bytes of the deployed file,
    and the deployed file is as it was.  The managed file is no template
    before the copy and none after it, and it was last written before the
    first call; the copy then does not keep a signature that [filecmp]
    has cached a verdict under: with any cache filled from files stamped
    before the first call, and by the comparison of the first call, the
    comparison of the second call finds the two files identical. *)
Theorem handle_file_twice (X : externals) (self : Updater)
        (left right : string) (compare : bool) (w : world)
        (d : string) (m : nat) (n : node) :
  must_ignore X [left; right] (ignores w) = false ->
  is_template X (stat w right) = false ->
  is_template X (Some (File d (clock w))) = false ->
  (forall b, stat w right = Some b -> older (clock w) b) ->
  found_different w left right compare ->
  (safe self = true -> ask_reply X (asked w) (overwrite_prompt left right) = true) ->
  dry self = false ->
  stat w left = Some (File d m) ->
  copyfile_outcome w left right = inl n ->
  (exists w1 e1 e2,
    _handle_file X self left right compare w = (Ok true, w1, e1)
    /\ stat w1 right = Some (File d (clock w))
    /\ stat w1 left = Some (File d m)
    /\ _handle_file X self left right true w1 = (Ok true, w1, e2)
    /\ Forall is_log e2)
  /\ forall c, stamped_before (clock w) c ->
       let c1 := match compare, stat w right with
                 | true, Some b => snd (cmp_with_cache c left right true (File d m) b)
                 | _, _ => c
                 end in
       fst (cmp_with_cache c1 left right true (File d m) (File d (clock w))) = true.
Proof.
  intros Hign Htpl Htpl' Hold Hdiff Hyes Hdry Hleft Hcopy.
  split.
  2:{ intros c Hc c1. rewrite cmp_with_cache_after_write; [apply cmp_same_data|].
      unfold c1. destruct compare; [|exact Hc].
      destruct (stat w right) as [b|] eqn:Hb; [|exact Hc].
      apply cmp_with_cache_stamps; [exact Hc | now apply Hold]. }
  destruct (handle_file_copies X self left right compare w n Hign Htpl Hdiff Hyes Hdry Hcopy)
    as (w1 & e1 & Hrun & Hfs & Hi).
  unfold copyfile_outcome in Hcopy. rewrite Hleft in Hcopy.
  unfold same_path in Hcopy.
  destruct (list_eq_dec string_dec (FS.comps left) (FS.comps right)) as [|Hne];
    [discriminate|].
  assert (Hnd : FS.is_dir (stat w right) = false)
    by (destruct (stat w right) as [[|]|]; [reflexivity | discriminate | reflexivity]).
  assert (Hwr : FS.write (FS.comps right) (File d (clock w)) (fs w) = Some n).
  { destruct (stat w right) as [[|]|]; try discriminate;
      destruct (FS.write _ _ (fs w)); inversion Hcopy; reflexivity. }
  assert (Hr1 : stat w1 right = Some (File d (clock w))).
  { unfold stat. rewrite Hfs. eapply get_write_same. exact Hwr. }
  assert (Hl1 : stat w1 left = Some (File d m)).
  { unfold stat. rewrite Hfs.
    exact (get_write_past_file _ _ _ _ _ d m Hne Hleft Hnd Hwr). }
  destruct (handle_file_same X self left right (File d m) (File d (clock w)) w1)
    as (e2 & Hrun2 & Hlog); auto.
  - now rewrite Hi.
  - now rewrite Hr1.
  - apply cmp_same_data.
  - exists w1, e1, e2. auto.
Qed.

Lemma handle_file_twice_witness :
  exists w1 e1 e2,
    _handle_file (Sample.machine (Sample.always true)) (Sample.updater "main" false true false)
                 "/home/alice/.bashrc" "/repo/bashrc" true Sample.w0 = (Ok true, w1, e1)
    /\ stat w1 "/repo/bashrc" = Some (File "alias l=ls" 10)
    /\ stat w1 "/home/alice/.bashrc" = Some (File "alias l=ls" 4)
    /\ _handle_file (Sample.machine (Sample.always true))
                    (Sample.updater "main" false true false)
                    "/home/alice/.bashrc" "/repo/bashrc" true w1 = (Ok true, w1, e2)
    /\ Forall is_log e2.
Proof.
  eapply proj1.
  eapply (handle_file_twice (Sample.machine (Sample.always true))
            (Sample.updater "main" false true false)
            "/home/alice/.bashrc" "/repo/bashrc" true Sample.w0 "alias l=ls" 4).
  - reflexivity.
  - reflexivity.
  - reflexivity.
  - intros b Hb. apply olderb_older. vm_compute in Hb. inversion Hb; subst. reflexivity.
  - intros _. exists (File "alias l=ls" 4), (File "alias ll=ls" 2). repeat split; reflexivity.
  - reflexivity.
  - reflexivity.
  - reflexivity.
  - reflexivity.
Defined.

(** ** From the path to the managed file *)

Section EndToEnd.

Variable X : externals.
Variable self : Updater.

(** The world [_update] works in: the ignore set is the merged one. *)
Definition with_ignores (w : world) (l : list string) : world :=
  {| fs := fs w; ignores := l; asked := asked w; clock := clock w; tmpseq := tmpseq w |}.


End EndToEnd.





(** ** Through a write transformation *)

Lemma erase_defined cs : forall n k,
  cs <> [] -> FS.get cs n = Some k -> exists n', FS.erase cs n = Some n'.
Proof.
  induction cs as [|c cs IH]; intros n k Hne H; [contradiction|].
  cbn in *. destruct n as [|es]; [discriminate|].
  destruct (FS.lookup c es) as [k1|] eqn:Hk; [|discriminate].
  destruct cs as [|c' cs']; [eauto|].
  destruct (IH k1 k) as [k' Hk']; [discriminate | exact H |].
  rewrite Hk'. eauto.
Qed.

Lemma diverge_nonempty a b : diverge a b -> b <> [].
Proof. destruct 1; discriminate. Qed.

(** [m] returns [a] from [w] and leaves [w']. *)
Definition goes {A} (m : M A) (w : world) (a : A) (w' : world) : Prop :=
  exists evs, m w = (Ok a, w', evs).

Lemma goes_ret {A} (a : A) w : goes (ret a) w a w.
Proof. now exists []. Qed.

Lemma goes_bind {A B} (m : M A) (f : A -> M B) w a w1 b w2 :
  goes m w a w1 -> goes (f a) w1 b w2 -> goes (bind m f) w b w2.
Proof.
  intros [e1 H1] [e2 H2]. exists (e1 ++ e2). now rewrite (bind_Ok _ _ _ H1), H2.
Qed.

Lemma goes_run {A} (m : M A) w a w' evs : m w = (Ok a, w', evs) -> goes m w a w'.
Proof. intros H. now exists evs. Qed.

Section Through.

Variable X : externals.
Variable self : Updater.

Lemma apply_trans_w_ok path d t w o n :
  t_run t (fs w) path (transform_tmp X w) = (true, Some o) ->
  FS.write (FS.comps (transform_tmp X w)) o (fs w) = Some n ->
  goes (_apply_trans_w X self path d t) w (Some (transform_tmp X w))
       {| fs := n; ignores := ignores w; asked := asked w;
          clock := S (clock w); tmpseq := S (tmpseq w) |}.
Proof.
  intros Hrun Hwr. unfold _apply_trans_w.
  eapply goes_bind; [eapply goes_run, when_dbg_run|].
  eapply goes_bind; [eapply goes_run; reflexivity|].
  eapply goes_bind.
  { eapply goes_run. unfold transform, transform_tmp in *. cbn [fs].
    rewrite Hrun, Hwr. reflexivity. }
  apply goes_ret.
Qed.

Lemma cleanup_ok p w k :
  FS.comps p <> [] -> stat w p = Some k ->
  exists n, FS.erase (FS.comps p) (fs w) = Some n
            /\ goes (e <- path_exists p ;; when e (utils_remove p)) w tt (with_fs w n).
Proof.
  intros Hne Hk. destruct (erase_defined (FS.comps p) (fs w) k Hne Hk) as [n Hn].
  exists n. split; [exact Hn|].
  eapply goes_bind; [eapply goes_run, path_exists_run|]. rewrite Hk.
  eapply goes_run. cbn [FS.is_some]. unfold when, utils_remove. rewrite Hn. reflexivity.
Qed.

End Through.

(** X14: with a write transformation that succeeds, the managed file gets
    what the transformation wrote to its temporary file, not the deployed
    bytes, and the temporary file is gone when [_update] returns [True]
    (managed file present, no template and different from the output, pair
    not ignored, overwrite not declined, no dry-run). *)
Theorem update_through_transformation (X : externals) (self : Updater)
        (path : string) (d : dotfile) (t : transformation) (w : world)
        (data d2 : string) (m0 m2 : nat) (n2 : node) :
  let tmp := transform_tmp X w in
  let r := managed X self d in
  trans_w d = Some t ->
  t_run t (fs w) path tmp = (true, Some (File data m0)) ->
  FS.write (FS.comps tmp) (File data m0) (fs w) = Some n2 ->
  diverge (FS.comps tmp) (FS.comps r) ->
  must_ignore X [deployed X path; r] (merged_ignores self d) = false ->
  must_ignore X [tmp; r] (merged_ignores self d) = false ->
  stat w r = Some (File d2 m2) ->
  is_template X (Some (File d2 m2)) = false ->
  cmp_nodes true (File data m0) (File d2 m2) = false ->
  (safe self = true -> ask_reply X (asked w) (overwrite_prompt tmp r) = true) ->
  dry self = false ->
  exists w' evs,
    _update X self path d w = (Ok true, w', evs)
    /\ stat w' r = Some (File data (S (clock w)))
    /\ stat w' tmp = None.
Proof.
  intros tmp r Ht Hrun Hwr Hdiv Hign Hign2 Hr Htpl Hcmp Hyes Hdry.
  set (w1 := with_ignores w (merged_ignores self d)).
  set (w2 := {| fs := n2; ignores := ignores w1; asked := asked w1;
                clock := S (clock w1); tmpseq := S (tmpseq w1) |}).
  assert (Htmp2 : stat w2 tmp = Some (File data m0)).
  { unfold stat. cbn [fs w2]. eapply get_write_same. exact Hwr. }
  assert (Hr2 : stat w2 r = Some (File d2 m2)).
  { unfold stat. cbn [fs w2].
    rewrite (get_write_diverge _ _ _ (diverge_sym _ _ Hdiv) _ _ Hwr). exact Hr. }
  destruct (write_defined (FS.comps r) (File d2 m2) (File data (clock w2)) (fs w2) Hr2)
    as [n3 Hn3].
  assert (Hcopy : copyfile_outcome w2 tmp r = inl n3).
  { unfold copyfile_outcome, same_path. rewrite Htmp2, Hr2, Hn3.
    destruct (list_eq_dec _ _ _) as [E|]; [|reflexivity].
    now apply diverge_neq in Hdiv. }
  destruct (handle_file_copies X self tmp r true w2 n3) as (w3 & e3 & Hrun3 & Hfs3 & _); auto.
  { now rewrite Hr2. }
  { intros _. exists (File data m0), (File d2 m2). auto. }
  assert (Htmp3 : stat w3 tmp = Some (File data m0)).
  { unfold stat. rewrite Hfs3, (get_write_diverge _ _ _ Hdiv _ _ Hn3). exact Htmp2. }
  destruct (cleanup_ok tmp w3 (File data m0)) as (n4 & Hn4 & Hclean); auto.
  { apply (diverge_nonempty _ _ (diverge_sym _ _ Hdiv)). }
  assert (Hgo : goes (_update X self path d) w true (with_fs w3 n4)).
  { unfold _update.
    fold (merged_ignores self d). fold (deployed X path). fold (managed X self d). fold r.
    eapply goes_bind; [eapply goes_run, set_ignores_run|]. fold w1.
    eapply goes_bind; [eapply goes_run; reflexivity|].
    eapply goes_bind; [eapply goes_run, when_dbg_run|].
    eapply goes_bind; [eapply goes_run, ignore_run|].
    cbn [ignores]. rewrite Hign, Ht.
    eapply goes_bind; [apply (apply_trans_w_ok X self path d t w1 (File data m0) n2 Hrun Hwr)|].
    fold w2. change (transform_tmp X w1) with tmp.
    eapply goes_bind; [eapply goes_run, isdir_run|]. rewrite Htmp2. cbn [FS.is_dir].
    eapply goes_bind; [eapply goes_run, Hrun3|].
    eapply goes_bind; [exact Hclean | apply goes_ret]. }
  destruct Hgo as [evs Hgo]. exists (with_fs w3 n4), evs. split; [exact Hgo|].
  unfold stat. cbn [fs with_fs]. split.
  - rewrite (get_erase_diverge _ _ (diverge_sym _ _ Hdiv) _ _ Hn4), Hfs3.
    eapply get_write_same. exact Hn3.
  - now apply get_erase in Hn4.
Qed.

Lemma update_through_transformation_witness :
  exists w' evs,
    _update (Sample.machine (Sample.always true)) (Sample.updater "main" false true false)
            "~/.bashrc" Sample.bashrc Sample.w0 = (Ok true, w', evs)
    /\ stat w' "/repo/bashrc" = Some (File "alias l=ls" 11)
    /\ stat w' "/tmp/dotdrop-0" = None.
Proof.
  eapply (update_through_transformation (Sample.machine (Sample.always true))
            (Sample.updater "main" false true false)
            "~/.bashrc" Sample.bashrc Sample.cat Sample.w0 "alias l=ls" "alias ll=ls" _ 2).
  - reflexivity.
  - reflexivity.
  - reflexivity.
  - apply divergeb_diverge. reflexivity.
  - reflexivity.
  - reflexivity.
  - reflexivity.
  - reflexivity.
  - reflexivity.
  - reflexivity.
  - reflexivity.
Defined.

(** ** A write transformation that fails *)

Section Failed.

Variable X : externals.
Variable self : Updater.

Lemma apply_trans_w_failed path d t w r w' evs :
  fst (t_run t (fs w) path (transform_tmp X w)) = false ->
  _apply_trans_w X self path d t w = (r, w', evs) ->
  (r = Ok None \/ exists x, r = Raise x)
  /\ Forall (only_temporary (transform_tmp X w)) evs.
Proof.
  intros Hfail H. unfold _apply_trans_w, get_unique_tmp_name, transform, utils_remove in H.
  mon_in H. unfold transform_tmp in *.
  destruct (debug self); mon_in H;
    destruct (t_run t (fs w) path (tmp_name X (tmpseq w))) as [[|] out];
    cbn [fst] in Hfail; try discriminate; mon_in H.
  all: unfold stat, stamp, with_fs in *; cbn [fs ignores] in *;
    match type of H with
    | context [FS.is_some (FS.get ?c ?n)] =>
        set (n1 := n) in *; destruct (FS.get c n1) as [k|]
    end; cbn [FS.is_some] in H; mon_in H;
    [ destruct (FS.erase (FS.comps (tmp_name X (tmpseq w))) n1) as [n'|]; mon_in H | ];
    inversion H; subst; clear H;
    (split; [eauto|]);
    repeat (apply Forall_cons; [exact I || reflexivity|]); apply Forall_nil.
Qed.

End Failed.

(** X15: when the write transformation of a dotfile reports failure, the
    update of a pair that is not ignored is given up: [_update] does not
    return [True], and nothing is copied or removed but the
    transformation's own temporary file. *)
Theorem update_transformation_failed (X : externals) (self : Updater)
        (path : string) (d : dotfile) (t : transformation) (w : world)
        (r : result bool) (w' : world) (evs : list event) :
  trans_w d = Some t ->
  fst (t_run t (fs w) path (transform_tmp X w)) = false ->
  must_ignore X [deployed X path; managed X self d] (merged_ignores self d) = false ->
  _update X self path d w = (r, w', evs) ->
  (r = Ok false \/ exists x, r = Raise x)
  /\ Forall (only_temporary (transform_tmp X w)) evs.
Proof.
  intros Ht Hfail Hign H. unfold _update in H.
  fold (merged_ignores self d) in H.
  fold (deployed X path) in H. fold (managed X self d) in H.
  set (w1 := {| fs := fs w; ignores := merged_ignores self d; asked := asked w;
                clock := clock w; tmpseq := tmpseq w |}).
  step H set_ignores_run. fold w1 in H.
  rewrite bind_get_world in H. cbn [app].
  step H when_dbg_run. step H ignore_run.
  change (ignores w1) with (merged_ignores self d) in H. rewrite Hign, Ht in H.
  assert (Hlogs : Forall (only_temporary (transform_tmp X w))
                         ((if debug self
                           then [Log DBG ("ignore pattern(s): "
                                          +++ repr_list (merged_ignores self d))]
                           else [])
                          ++ ignore_log X self [deployed X path; managed X self d] w1)).
  { apply Forall_app. split; [destruct (debug self); repeat constructor|].
    apply ignore_log_quiet. intros; exact I. }
  apply bind_inv in H as [(np & w2 & e5 & e6 & Hm & H & ->) | (x & Hm & ->)];
    apply (apply_trans_w_failed X self path d t w1) in Hm; try exact Hfail;
    destruct Hm as [Hr Hev]; change (transform_tmp X w1) with (transform_tmp X w) in Hev.
  - destruct Hr as [Hr|[x Hr]]; [|discriminate]. inversion Hr; subst np.
    inversion H; subst. split; [now left|].
    rewrite app_nil_r, app_assoc. apply Forall_app. now split.
  - split; [right; eauto|]. rewrite app_assoc. apply Forall_app. now split.
Qed.

(** A transformation that always reports failure. *)
Definition refusing : transformation :=
  {| t_key := "refuse"; t_run := fun _ _ _ => (false, None) |}.

Definition refused : dotfile :=
  {| key := "f_bashrc"; dst := "~/.bashrc"; src := "bashrc";
     trans_w := Some refusing; upignore := [] |}.

Lemma update_transformation_failed_witness :
  let out := _update (Sample.machine (Sample.always true))
                     (Sample.updater "main" false false false)
                     "~/.bashrc" refused Sample.w0 in
  (fst (fst out) = Ok false \/ exists x, fst (fst out) = Raise x)
  /\ Forall (only_temporary "/tmp/dotdrop-0") (snd out).
Proof.
  intros out.
  apply (update_transformation_failed (Sample.machine (Sample.always true))
           (Sample.updater "main" false false false)
           "~/.bashrc" refused refusing Sample.w0 (fst (fst out)) (snd (fst out)) (snd out));
    reflexivity.
Defined.

(** ** What one merge makes of an entry *)

Section Fate.

Variable X : externals.
Variable self : Updater.

Hypothesis Hsp : showpatch self = false.
Hypothesis Hreply : forall n m msg, ask_reply X n msg = ask_reply X m msg.

Variables (left right : string) (L R : FS.listing) (w : world).

Hypothesis HL : wf (Dir L).
Hypothesis HR : wf (Dir R).
Hypothesis Hdiv : diverge (FS.comps left) (FS.comps right).
Hypothesis HsL : stat w left = Some (Dir L).
Hypothesis HsR : stat w right = Some (Dir R).

Lemma merge_frame :
  exists R' w1 e1,
    merge_pair X self left right w = (Ok true, w1, e1)
    /\ FS.write (FS.comps right) (Dir R') (fs w) = Some (fs w1).
Proof.
  destruct (merge_settles X self (ignores w) Hsp Hreply (Dir L) HL L eq_refl
                          left right R w HR Hdiv eq_refl HsL HsR)
    as (R' & w1 & e1 & Hrun & Hwr & _).
  exists R', w1, e1. split; [|exact Hwr]. unfold merge_pair.
  now rewrite (bind_Ok _ _ _ (dircmp_run left right (Dir L) R w HsL HsR)), Hrun.
Qed.

Lemma merge_fate :
  must_ignore X [left; right] (ignores w) = false ->
  exists R' w1 e1,
    merge_pair X self left right w = (Ok true, w1, e1)
    /\ stat w1 right = Some (Dir R')
    /\ forall x, hidden x = false ->
                 fate X self (ignores w) left right x
                      (FS.lookup x L) (FS.lookup x R) (FS.lookup x R').
Proof.
  intros Hign.
  destruct (level_fate X self (ignores w) Hsp Hreply left right L (fs w) HL Hdiv HsL
              (fun x Lx Hx =>
                 merge_settles X self (ignores w) Hsp Hreply (Dir Lx)
                               (proj2 (wf_lookup L x (Dir Lx) HL Hx)) Lx eq_refl)
              R w)
    as (a & R' & w1 & e1 & Hrun & -> & Hg & Hfate).
  - split; [now apply write_get_id | split; [reflexivity | exact HR]].
  - exact Hign.
  - exists R', w1, e1. split.
    { unfold merge_pair.
      now rewrite (bind_Ok _ _ _ (dircmp_run left right (Dir L) R w HsL HsR)), Hrun. }
    split; [|exact Hfate]. unfold stat. eapply get_write_same. exact (proj1 Hg).
Qed.

Lemma merge_entry x :
  must_ignore X [left; right] (ignores w) = false ->
  hidden x = false -> simple x ->
  exists w1 e1,
    merge_pair X self left right w = (Ok true, w1, e1)
    /\ fate X self (ignores w) left right x
            (FS.lookup x L) (FS.lookup x R) (stat w1 (OsPath.join right x)).
Proof.
  intros Hign Hh Hx. destruct (merge_fate Hign) as (R' & w1 & e1 & Hrun & Hs & Hfate).
  exists w1, e1. split; [exact Hrun|].
  unfold stat in *. rewrite (get_child right x (fs w1) R' Hs Hx). now apply Hfate.
Qed.

End Fate.

(** X16: one run of the merge writes inside the managed directory only:
    every path that parts ways with [right] reads after the run what it read
    before, the deployed directory included (preview off, prompts answered
    alike whenever asked). *)
Theorem merge_writes_managed_only (X : externals) (self : Updater)
        (left right : string) (L R : FS.listing) (w : world) :
  showpatch self = false ->
  (forall n m msg, ask_reply X n msg = ask_reply X m msg) ->
  wf (Dir L) -> wf (Dir R) ->
  diverge (FS.comps left) (FS.comps right) ->
  stat w left = Some (Dir L) -> stat w right = Some (Dir R) ->
  exists w1 e1,
    merge_pair X self left right w = (Ok true, w1, e1)
    /\ forall p, diverge (FS.comps p) (FS.comps right) -> stat w1 p = stat w p.
Proof.
  intros Hsp Hreply HL HR Hdiv HsL HsR.
  destruct (merge_frame X self Hsp Hreply left right L R w HL HR Hdiv HsL HsR)
    as (R' & w1 & e1 & Hrun & Hwr).
  exists w1, e1. split; [exact Hrun|]. intros p Hp. unfold stat.
  exact (get_write_diverge _ _ _ Hp _ _ Hwr).
Qed.

(** X17: in a merge of two directories whose trees list plain names, each
    once, on paths that part ways, with the preview of templates off and
    prompts that get the same answer whenever they are asked: an entry of
    the deployed directory itself (not of a directory inside it) that the
    managed directory lacks and whose name [dircmp] does not hide, when
    neither the pair of directories nor the pair of entries is ignored and
    outside dry-run, is in the managed directory after the run: a regular
    file with the same bytes, a directory as the very same tree, whatever
    names and whatever ignore patterns apply inside it. *)
Theorem merge_adds_new_entry (X : externals) (self : Updater)
        (left right : string) (L R : FS.listing) (w : world) (x : string) (n : node) :
  showpatch self = false ->
  (forall n m msg, ask_reply X n msg = ask_reply X m msg) ->
  wf (Dir L) -> wf (Dir R) ->
  diverge (FS.comps left) (FS.comps right) ->
  stat w left = Some (Dir L) -> stat w right = Some (Dir R) ->
  dry self = false ->
  must_ignore X [left; right] (ignores w) = false ->
  hidden x = false ->
  FS.lookup x L = Some n -> FS.lookup x R = None ->
  must_ignore X [OsPath.join left x; OsPath.join right x] (ignores w) = false ->
  exists w1 e1,
    merge_pair X self left right w = (Ok true, w1, e1)
    /\ match n with
       | Dir Lx => stat w1 (OsPath.join right x) = Some (Dir Lx)
       | File d _ => exists t, stat w1 (OsPath.join right x) = Some (File d t)
       end.
Proof.
  intros Hsp Hreply HL HR Hdiv HsL HsR Hdry Hign Hh HLx HRx Hix.
  assert (Hx : simple x) by (apply (lookup_simple L x HL); congruence).
  destruct (merge_entry X self Hsp Hreply left right L R w HL HR Hdiv HsL HsR x Hign Hh Hx)
    as (w1 & e1 & Hrun & Hfate).
  exists w1, e1. split; [exact Hrun|].
  rewrite HLx, HRx in Hfate. unfold fate, ign2 in Hfate. rewrite Hdry, Hix in Hfate.
  destruct n as [d m|Lx]; destruct Hfate as [[_ [H|H]]|H]; try discriminate; exact H.
Qed.

(** X18: in a merge of two directories whose trees list plain names, each
    once, on paths that part ways, with the preview of templates off and
    prompts that get the same answer whenever they are asked: an entry of
    the managed directory itself (not of a directory inside it) that the
    deployed directory lacks and whose name [dircmp] does not hide, when
    neither the pair of directories nor the entry is ignored and outside
    dry-run, is gone after the run, a directory provided that in safe mode
    its removal is accepted.  For a regular file this holds in safe mode
    too and whatever the user answers: only the removal of a directory is
    put to the user. *)
Theorem merge_removes_stale_entry (X : externals) (self : Updater)
        (left right : string) (L R : FS.listing) (w : world) (x : string) (n : node) :
  showpatch self = false ->
  (forall n m msg, ask_reply X n msg = ask_reply X m msg) ->
  wf (Dir L) -> wf (Dir R) ->
  diverge (FS.comps left) (FS.comps right) ->
  stat w left = Some (Dir L) -> stat w right = Some (Dir R) ->
  dry self = false ->
  must_ignore X [left; right] (ignores w) = false ->
  hidden x = false ->
  FS.lookup x L = None -> FS.lookup x R = Some n ->
  must_ignore X [OsPath.join right x] (ignores w) = false ->
  (FS.is_dir (Some n) = true ->
   safe self = true -> ask_reply X 0 (rm_prompt (OsPath.join right x)) = true) ->
  exists w1 e1,
    merge_pair X self left right w = (Ok true, w1, e1)
    /\ stat w1 (OsPath.join right x) = None.
Proof.
  intros Hsp Hreply HL HR Hdiv HsL HsR Hdry Hign Hh HLx HRx Hix Hyes.
  assert (Hx : simple x) by (apply (lookup_simple R x HR); congruence).
  destruct (merge_entry X self Hsp Hreply left right L R w HL HR Hdiv HsL HsR x Hign Hh Hx)
    as (w1 & e1 & Hrun & Hfate).
  exists w1, e1. split; [exact Hrun|].
  rewrite HLx, HRx in Hfate. unfold fate, ign1, yes in Hfate. rewrite Hdry, Hix in Hfate.
  destruct n as [d m|Rx].
  - destruct Hfate as [[_ [H|H]]|H]; try discriminate; exact H.
  - destruct Hfate as [[_ [H|[H|H]]]|H]; try discriminate; [|exact H].
    destruct (safe self); [|discriminate]. rewrite (Hyes eq_refl eq_refl) in H. discriminate.
Qed.

(** X19: in a merge of two directories whose trees list plain names, each
    once, on paths that part ways, with the preview of templates off and
    prompts that get the same answer whenever they are asked: a regular
    file that both directories themselves hold (not directories inside
    them) under a name [dircmp] does not hide, and that compares
    different, has the bytes of the deployed file after the run, when
    neither the pair of directories nor the pair of files is ignored, the
    managed file is no template, the overwrite is accepted if safe mode
    asks for it, and the run is no dry-run. *)
Theorem merge_updates_changed_file (X : externals) (self : Updater)
        (left right : string) (L R : FS.listing) (w : world) (x : string)
        (d d2 : string) (m m2 : nat) :
  showpatch self = false ->
  (forall n m msg, ask_reply X n msg = ask_reply X m msg) ->
  wf (Dir L) -> wf (Dir R) ->
  diverge (FS.comps left) (FS.comps right) ->
  stat w left = Some (Dir L) -> stat w right = Some (Dir R) ->
  dry self = false ->
  must_ignore X [left; right] (ignores w) = false ->
  hidden x = false ->
  FS.lookup x L = Some (File d m) -> FS.lookup x R = Some (File d2 m2) ->
  cmp_nodes true (File d m) (File d2 m2) = false ->
  must_ignore X [OsPath.join left x; OsPath.join right x] (ignores w) = false ->
  is_template X (Some (File d2 m2)) = false ->
  (safe self = true ->
   ask_reply X 0 (overwrite_prompt (OsPath.join left x) (OsPath.join right x)) = true) ->
  exists w1 e1,
    merge_pair X self left right w = (Ok true, w1, e1)
    /\ exists t, stat w1 (OsPath.join right x) = Some (File d t).
Proof.
  intros Hsp Hreply HL HR Hdiv HsL HsR Hdry Hign Hh HLx HRx Hcmp Hix Htpl Hyes.
  assert (Hx : simple x) by (apply (lookup_simple L x HL); congruence).
  destruct (merge_entry X self Hsp Hreply left right L R w HL HR Hdiv HsL HsR x Hign Hh Hx)
    as (w1 & e1 & Hrun & Hfate).
  exists w1, e1. split; [exact Hrun|].
  rewrite HLx, HRx in Hfate. unfold fate, ign2, yes in Hfate.
  rewrite Hcmp, Hdry, Hix, Htpl in Hfate.
  destruct Hfate as [[_ [H|[H|[H|H]]]]|H]; try discriminate; [|exact H].
  destruct (safe self); [|discriminate]. rewrite (Hyes eq_refl) in H. discriminate.
Qed.

Lemma merge_writes_managed_only_witness :
  exists w1 e1,
    merge_pair (Sample.machine (Sample.always true)) (Sample.updater "main" false true false)
               "/home/alice/app" "/repo/app" Sample.w0 = (Ok true, w1, e1)
    /\ forall p, diverge (FS.comps p) (FS.comps "/repo/app") -> stat w1 p = stat Sample.w0 p.
Proof.
  eapply (merge_writes_managed_only (Sample.machine (Sample.always true))
            (Sample.updater "main" false true false) "/home/alice/app" "/repo/app").
  6, 7: reflexivity.
  - reflexivity.
  - reflexivity.
  - apply wfb_wf. reflexivity.
  - apply wfb_wf. reflexivity.
  - apply divergeb_diverge. reflexivity.
Defined.

Lemma merge_adds_new_entry_witness :
  exists w1 e1,
    merge_pair (Sample.machine (Sample.always true)) (Sample.updater "main" false false false)
               "/home/alice/app" "/repo/app" Sample.w0 = (Ok true, w1, e1)
    /\ stat w1 "/repo/app/fresh" = Some (Dir [("secret", File "k" 2)]).
Proof.
  eapply (merge_adds_new_entry (Sample.machine (Sample.always true))
            (Sample.updater "main" false false false) "/home/alice/app" "/repo/app"
            _ _ Sample.w0 "fresh" (Dir [("secret", File "k" 2)])).
  6, 7: reflexivity.
  - reflexivity.
  - reflexivity.
  - apply wfb_wf. reflexivity.
  - apply wfb_wf. reflexivity.
  - apply divergeb_diverge. reflexivity.
  - reflexivity.
  - reflexivity.
  - reflexivity.
  - reflexivity.
  - reflexivity.
  - reflexivity.
Defined.

Lemma merge_removes_stale_entry_witness :
  exists w1 e1,
    merge_pair (Sample.machine (Sample.always false)) (Sample.updater "main" false true false)
               "/home/alice/app" "/repo/app" Sample.w0 = (Ok true, w1, e1)
    /\ stat w1 "/repo/app/c.txt" = None.
Proof.
  eapply (merge_removes_stale_entry (Sample.machine (Sample.always false))
            (Sample.updater "main" false true false) "/home/alice/app" "/repo/app"
            _ _ Sample.w0 "c.txt" (File "c" 2)).
  6, 7: reflexivity.
  - reflexivity.
  - reflexivity.
  - apply wfb_wf. reflexivity.
  - apply wfb_wf. reflexivity.
  - apply divergeb_diverge. reflexivity.
  - reflexivity.
  - reflexivity.
  - reflexivity.
  - reflexivity.
  - reflexivity.
  - reflexivity.
  - discriminate.
Defined.

Lemma merge_updates_changed_file_witness :
  exists w1 e1,
    merge_pair (Sample.machine (Sample.always true)) (Sample.updater "main" false true false)
               "/home/alice/app" "/repo/app" Sample.w0 = (Ok true, w1, e1)
    /\ exists t, stat w1 "/repo/app/a.txt" = Some (File "new a" t).
Proof.
  eapply (merge_updates_changed_file (Sample.machine (Sample.always true))
            (Sample.updater "main" false true false) "/home/alice/app" "/repo/app"
            _ _ Sample.w0 "a.txt" "new a" "old a" 5 1).
  6, 7: reflexivity.
  - reflexivity.
  - reflexivity.
  - apply wfb_wf. reflexivity.
  - apply wfb_wf. reflexivity.
  - apply divergeb_diverge. reflexivity.
  - reflexivity.
  - reflexivity.
  - reflexivity.
  - reflexivity.
  - reflexivity.
  - reflexivity.
  - reflexivity.
  - reflexivity.
  - reflexivity.
Defined.

(** ** The ignore set of an update *)

Lemma update_forgets (X : externals) (self : Updater) (path : string) (d : dotfile)
      (w : world) (stale : list string) :
  _update X self path d (with_ignores w stale) = _update X self path d w.
Proof.
  unfold _update.
  rewrite (bind_Ok _ _ _ (set_ignores_run _ (with_ignores w stale))).
  rewrite (bind_Ok _ _ _ (set_ignores_run _ w)). reflexivity.
Qed.

(** X20: [_update] starts from the patterns of the updater and of the
    dotfile alone: whatever ignore set an earlier update left behind, the run
    is the same, and it leaves behind the merged set, which lists each
    pattern of either source once. *)
Theorem update_ignore_set (X : externals) (self : Updater) (path : string) (d : dotfile)
        (w : world) (stale : list string) (r : result bool) (w' : world) (evs : list event) :
  _update X self path d (with_ignores w stale) = (r, w', evs) ->
  _update X self path d w = (r, w', evs)
  /\ ignores w' = merged_ignores self d
  /\ NoDup (merged_ignores self d)
  /\ forall p, In p (merged_ignores self d) <-> In p (ignore self) \/ In p (upignore d).
Proof.
  intros H. rewrite update_forgets in H. split; [exact H|].
  apply update_cases in H as (Hi & _). split; [exact Hi|].
  unfold merged_ignores, list_set. split; [apply NoDup_nodup|].
  intros p. rewrite nodup_In. apply in_app_iff.
Qed.

Lemma update_ignore_set_witness :
  let out := _update (Sample.machine (Sample.always true))
                     (Sample.updater "main" false false false)
                     "~/app" Sample.app Sample.w0 in
  ignores (snd (fst out)) = ["*/secret"].
Proof.
  intros out.
  exact (proj1 (proj2 (update_ignore_set (Sample.machine (Sample.always true))
                         (Sample.updater "main" false false false)
                         "~/app" Sample.app Sample.w0 ["*.bak"; "*.bak"]
                         (fst (fst out)) (snd (fst out)) (snd out) eq_refl))).
Defined.
